(** * CSV-to-graph ingestion of the yFiles ontology viewer

    A shallow embedding of the three revisions of the viewer's main module:
    - [DirectLoader]  : [updateGraph] and [createLegend], which talk to the
      graph directly (first half of part_000);
    - [BuilderLoader] : [loadAndProcessCSVFiles], [getColorForType] and
      [createLegend] on the module-level [typeColors] (second half of
      part_000);
    - [ChunkedLoader] : [loadGraphInChunks], [updateGraphChunk],
      [applyClustering], [getTypeColorMap] and [createLegend] (part_001).

    Besides the loaders, the embedding covers the handlers around them: the
    label toggles of the three revisions, [handleFileUpload] of the second,
    [setupLevelOfDetail] of the third, and the tooltip and context-menu
    modules ([tooltips.ts], [context-menu.ts]).

    Positions ([Math.random]), strokes and layout geometry belong to the
    rendering library and are not represented; the calls made to the view
    are recorded in a log. *)

From Stdlib Require Import List String Ascii Bool Arith PeanoNat NArith Lia.
From Stdlib Require Import DecimalString DecimalNat.
Import ListNotations.
Local Open Scope string_scope.
Local Open Scope list_scope.
Local Open Scope nat_scope.

(* ================================================================== *)
(** * Part I: the embedding *)
(* ================================================================== *)

(** ** JavaScript values *)

(** A string is falsy exactly when it is empty. *)
Definition truthy (s : string) : bool := negb (String.eqb s "").

(** [!obj[key]] for a string-valued property: absent ([undefined]) or empty. *)
Definition falsy (o : option string) : bool :=
  match o with
  | Some s => negb (truthy s)
  | None => true
  end.

(** [x || d] for an optional string [x]. *)
Definition orElse (o : option string) (d : string) : string :=
  match o with
  | Some s => if truthy s then s else d
  | None => d
  end.

(** Error monad: [None] stands for an exception thrown by a call. *)
Definition bind {A B : Type} (m : option A) (k : A -> option B) : option B :=
  match m with
  | Some a => k a
  | None => None
  end.

Notation "x <- m ;; k" := (bind m (fun x => k))
  (at level 61, m at next level, right associativity).
Notation "' p <- m ;; k" := (bind m (fun x => let p := x in k))
  (at level 61, p pattern, m at next level, right associativity).

(** [forEach] with a body that may throw. *)
Fixpoint forEachM {A S : Type} (body : S -> A -> option S) (l : list A) (s : S)
  : option S :=
  match l with
  | [] => Some s
  | a :: l' => s' <- body s a ;; forEachM body l' s'
  end.

(** The distinct elements of a list, in the order in which they are first seen. *)
Fixpoint distinct (l : list string) : list string :=
  match l with
  | [] => []
  | x :: l' => x :: filter (fun y => negb (String.eqb y x)) (distinct l')
  end.

(** Whether the numbers of a list are pairwise different. *)
Fixpoint distinctNats (l : list nat) : bool :=
  match l with
  | [] => true
  | x :: l' => negb (existsb (Nat.eqb x) l') && distinctNats l'
  end.

(** ** [Map<string, V>] and string-keyed objects

    Entries are kept in insertion order; writing an existing key replaces
    the value and keeps the position.  An object literal [{}] used with the
    index signature [{ [key: string]: string }] is represented by its own
    string-valued properties, in the order of their creation; a read
    [obj[key]] of such an object is [lookup] below, which also sees the
    members of [Object.prototype]. *)
Module JsMap.

Definition t (V : Type) : Type := list (string * V).

Fixpoint get {V : Type} (k : string) (m : t V) : option V :=
  match m with
  | [] => None
  | (k', v) :: m' => if String.eqb k k' then Some v else get k m'
  end.

Definition has {V : Type} (k : string) (m : t V) : bool :=
  match get k m with
  | Some _ => true
  | None => false
  end.

Fixpoint set {V : Type} (k : string) (v : V) (m : t V) : t V :=
  match m with
  | [] => [(k, v)]
  | (k', v') :: m' =>
      if String.eqb k k' then (k', v) :: m' else (k', v') :: set k v m'
  end.

(** In-place mutation of the object stored under [k] ([m.get(k)!.f = ...]). *)
Fixpoint update {V : Type} (k : string) (f : V -> V) (m : t V) : t V :=
  match m with
  | [] => []
  | (k', v') :: m' =>
      if String.eqb k k' then (k', f v') :: m' else (k', v') :: update k f m'
  end.

Definition keys {V : Type} (m : t V) : list string := map fst m.
Definition values {V : Type} (m : t V) : list V := map snd m.

End JsMap.

(** Enumeration of the own properties of an object ([Object.entries],
    [for ... in]): the keys that are array indices come first, in ascending
    numeric order, then the other keys in the order of their creation. *)
Module JsObject.

(** An array index is the canonical decimal form of an integer below
    [2^32 - 1]. *)
Definition arrayIndex (k : string) : option N :=
  match k with
  | EmptyString => None
  | String c rest =>
      if Ascii.eqb c "0"%char && negb (String.eqb rest "") then None
      else match NilEmpty.uint_of_string k with
           | Some u =>
               let v := N.of_uint u in
               if N.ltb v 4294967295 then Some v else None
           | None => None
           end
  end.

Fixpoint insertByIndex {V : Type} (i : N) (e : string * V)
  (l : list (N * (string * V))) : list (N * (string * V)) :=
  match l with
  | [] => [(i, e)]
  | (j, e') :: l' =>
      if N.ltb i j then (i, e) :: l else (j, e') :: insertByIndex i e l'
  end.

Definition entries {V : Type} (o : JsMap.t V) : list (string * V) :=
  let indexed :=
    fold_left
      (fun acc e =>
         match arrayIndex (fst e) with
         | Some i => insertByIndex i e acc
         | None => acc
         end)
      o [] in
  map snd indexed
  ++ filter (fun e => match arrayIndex (fst e) with
                      | Some _ => false
                      | None => true
                      end) o.

End JsObject.

(** ** Reading an object literal

    [obj[key]] on an object literal goes through the own properties and
    then through [Object.prototype].  For the names below the answer is a
    member of the prototype (a function, or the prototype itself for
    [__proto__]): it is truthy and it is not a string.  The guarded
    assignments of this program never write under these names, so they are
    never own properties of the objects it fills from [{}]. *)
Definition objectPrototype : list string :=
  ["constructor"; "__defineGetter__"; "__defineSetter__"; "hasOwnProperty";
   "__lookupGetter__"; "__lookupSetter__"; "isPrototypeOf";
   "propertyIsEnumerable"; "toString"; "valueOf"; "__proto__";
   "toLocaleString"].

Definition inherited (key : string) : bool :=
  existsb (String.eqb key) objectPrototype.

(** The other names: those a guarded assignment can write under. *)
Definition ordinary (key : string) : bool := negb (inherited key).

(** What such a read answers. *)
Inductive JsValue : Type :=
| JsString (s : string)
| JsMember (name : string)      (* the member [name] of [Object.prototype] *)
| JsUndefined.

(** [obj[key]] *)
Definition lookup (key : string) (obj : JsMap.t string) : JsValue :=
  match JsMap.get key obj with
  | Some s => JsString s
  | None => if inherited key then JsMember key else JsUndefined
  end.

Definition truthyValue (v : JsValue) : bool :=
  match v with
  | JsString s => truthy s
  | JsMember _ => true
  | JsUndefined => false
  end.

(** [!obj[key]] *)
Definition unset (key : string) (obj : JsMap.t string) : bool :=
  negb (truthyValue (lookup key obj)).

(** ** Records parsed from the CSV files *)

Record NodeData : Type := mkNode
  { id : string;
    type : string;
    label : option string }.

Record EdgeData : Type := mkEdge
  { source : string;
    target : string;
    edgeType : option string }.

(** ** Colour assignment *)

(** [colors] of [updateGraph] and [getTypeColorMap] ([clusterColors] of
    [applyClustering] is the same array). *)
Definition colors : list string :=
  ["#ff6f61"; "#6b5b95"; "#88b04b"; "#f7cac9"; "#92a8d1";
   "#955251"; "#b565a7"; "#009b77"; "#dd4124"; "#d65076"].

(** [colorPalette] of the builder revision. *)
Definition colorPalette : list string :=
  ["#FF5733"; "#33FF57"; "#3357FF"; "#FF33A8"; "#FF8C33"; "#33FF8C";
   "#8C33FF"; "#FFD633"; "#33FFF3"; "#F333FF"; "#33FFBD"; "#FF336E";
   "#33D1FF"; "#FF8333"; "#BFFF33"; "#FF33F1"].

(** [palette[i % palette.length]] *)
Definition paletteAt (palette : list string) (i : nat) : string :=
  nth (i mod List.length palette) palette "".

(** The body shared by the node loop of [updateGraph] and by
    [getTypeColorMap]:
    [if (!typeColorMap[t]) { typeColorMap[t] = colors[colorIndex % colors.length]; colorIndex++ }] *)
Definition assignColor (st : JsMap.t string * nat) (t : string)
  : JsMap.t string * nat :=
  let '(typeColorMap, colorIndex) := st in
  if unset t typeColorMap
  then (JsMap.set t (paletteAt colors colorIndex) typeColorMap, S colorIndex)
  else (typeColorMap, colorIndex).

(** Closed form of a colour map: the [i]-th category of a list of distinct
    categories is paired with [palette[i % palette.length]]. *)
Fixpoint paint (palette : list string) (i : nat) (categories : list string)
  : JsMap.t string :=
  match categories with
  | [] => []
  | c :: rest => (c, paletteAt palette i) :: paint palette (S i) rest
  end.

(** ** The graph of the rendering library *)

Inductive NodeStyle : Type :=
| DefaultNodeStyle
| ShapeNodeStyle (fill : string)        (* with a SolidColorFill *)
| ShinyPlateNodeStyle (fill : string)
| ShapeNodeStyleOf (member : string)    (* the fill was given a member of *)
| ShinyPlateNodeStyleOf (member : string). (* [Object.prototype], no colour *)

(** [new ShapeNodeStyle({ fill: new SolidColorFill(value) })] and
    [new ShinyPlateNodeStyle({ fill: value })] for a value read from a colour
    map.  After the guarded assignment the value is never [undefined]. *)
Definition shapeNodeStyle (value : JsValue) : NodeStyle :=
  match value with
  | JsString c => ShapeNodeStyle c
  | JsMember m => ShapeNodeStyleOf m
  | JsUndefined => ShapeNodeStyle ""
  end.

Definition shinyPlateNodeStyle (value : JsValue) : NodeStyle :=
  match value with
  | JsString c => ShinyPlateNodeStyle c
  | JsMember m => ShinyPlateNodeStyleOf m
  | JsUndefined => ShinyPlateNodeStyle ""
  end.

Record INode (NT : Type) : Type := mkINode
  { nref : nat;                 (* object identity *)
    ntag : NT;
    nstyle : NodeStyle;
    nlabels : list string }.

Record IEdge (ET : Type) : Type := mkIEdge
  { eref : nat;
    esource : nat;              (* identity of the source node *)
    etarget : nat;
    etag : ET;
    elabels : list string }.

Record IGraph (NT ET : Type) : Type := mkIGraph
  { nodes : list (INode NT);
    edges : list (IEdge ET);
    fresh : nat }.

Arguments mkINode {NT}.
Arguments nref {NT}.
Arguments ntag {NT}.
Arguments nstyle {NT}.
Arguments nlabels {NT}.
Arguments mkIEdge {ET}.
Arguments eref {ET}.
Arguments esource {ET}.
Arguments etarget {ET}.
Arguments etag {ET}.
Arguments elabels {ET}.
Arguments mkIGraph {NT ET}.
Arguments nodes {NT ET}.
Arguments edges {NT ET}.
Arguments fresh {NT ET}.

Section GraphOps.
Context {NT ET : Type}.
Local Abbreviation Graph := (IGraph NT ET).

(** [graph.clear()]; identities only matter up to equality, so the cleared
    graph starts numbering afresh. *)
Definition clear : Graph := mkIGraph [] [] 0.

Definition isNode (g : Graph) (r : nat) : bool :=
  existsb (fun n => nref n =? r) (nodes g).

Definition isEdge (g : Graph) (r : nat) : bool :=
  existsb (fun e => eref e =? r) (edges g).

(** [graph.createNodeAt / createNode]: never fails. *)
Definition createNode (g : Graph) (tag : NT) (style : NodeStyle) : Graph * nat :=
  (mkIGraph (nodes g ++ [mkINode (fresh g) tag style []]) (edges g) (S (fresh g)),
   fresh g).

(** Attaching a new edge between two node identities. *)
Definition connect (g : Graph) (s t : nat) (tag : ET) : Graph * nat :=
  (mkIGraph (nodes g) (edges g ++ [mkIEdge (fresh g) s t tag []]) (S (fresh g)),
   fresh g).

(** [graph.createEdge]: the library throws unless both ends are nodes of
    the graph. *)
Definition createEdge (g : Graph) (s t : nat) (tag : ET) : option (Graph * nat) :=
  if isNode g s && isNode g t then Some (connect g s t tag) else None.

(** [graph.addLabel(node, text)] *)
Definition addNodeLabel (g : Graph) (r : nat) (text : string) : option Graph :=
  if isNode g r
  then Some (mkIGraph
               (map (fun n => if nref n =? r
                              then mkINode (nref n) (ntag n) (nstyle n)
                                     (nlabels n ++ [text])
                              else n) (nodes g))
               (edges g) (fresh g))
  else None.

(** [graph.addLabel(edge, text)] *)
Definition addEdgeLabel (g : Graph) (r : nat) (text : string) : option Graph :=
  if isEdge g r
  then Some (mkIGraph (nodes g)
               (map (fun e => if eref e =? r
                              then mkIEdge (eref e) (esource e) (etarget e)
                                     (etag e) (elabels e ++ [text])
                              else e) (edges g))
               (fresh g))
  else None.

(** [graph.setStyle(node, style)] *)
Definition setStyle (g : Graph) (r : nat) (style : NodeStyle) : option Graph :=
  if isNode g r
  then Some (mkIGraph
               (map (fun n => if nref n =? r
                              then mkINode (nref n) (ntag n) style (nlabels n)
                              else n) (nodes g))
               (edges g) (fresh g))
  else None.

(** [graph.degree(node)]: incoming plus outgoing edges. *)
Definition degree (g : Graph) (r : nat) : nat :=
  List.length (filter (fun e => esource e =? r) (edges g))
  + List.length (filter (fun e => etarget e =? r) (edges g)).

(** [graph.remove(node)]: the node goes together with its incident edges. *)
Definition remove (g : Graph) (r : nat) : option Graph :=
  if isNode g r
  then Some (mkIGraph
               (filter (fun n => negb (nref n =? r)) (nodes g))
               (filter (fun e => negb (esource e =? r) && negb (etarget e =? r))
                  (edges g))
               (fresh g))
  else None.

(** What a change of style leaves alone: identity, tag and labels of every
    node, the edges and the identity counter. *)
Definition core (n : INode NT) : nat * NT * list string :=
  (nref n, ntag n, nlabels n).

Definition restyled (g g' : Graph) : Prop :=
  map core (nodes g') = map core (nodes g)
  /\ edges g' = edges g
  /\ fresh g' = fresh g.

End GraphOps.

Arguments clear {NT ET}.

(** ** The document and the view *)

(** A legend container: its element id and its rows (category, colour). *)
Record Element : Type := mkElement
  { elId : string;
    rows : list (string * string) }.

(** [document.getElementById] over the children of [body]. *)
Definition getElementById (i : string) (body : list Element) : option Element :=
  find (fun e => String.eqb (elId e) i) body.

(** Detaching the element that [getElementById] answers. *)
Fixpoint detach (i : string) (body : list Element) : list Element :=
  match body with
  | [] => []
  | e :: body' => if String.eqb (elId e) i then body' else e :: detach i body'
  end.

(** Number of elements that carry the id [i]. *)
Definition countId (i : string) (body : list Element) : nat :=
  List.length (filter (fun e => String.eqb (elId e) i) body).

(** [document.body.appendChild]: an element already in the tree is moved. *)
Definition appendChild (e : Element) (body : list Element) : list Element :=
  body ++ [e].

(** Calls made to the view and to the layout collaborators. *)
Inductive ViewCall : Type :=
| FitGraphBounds
| RunClustering
| RunLayout (algorithm : string)
| SetProjection
| SetZoom.

(** ** First revision: [updateGraph] builds the graph directly *)
Module DirectLoader.

(** Value type of [consolidatedEdges]:
    [{ source: string, target: string, count: number, edgeType: string }]. *)
Record ConsolidatedEdge : Type := mkConsolidated
  { c_source : string;
    c_target : string;
    count : nat;
    c_edgeType : option string }.

Record State : Type := mkState
  { graph : IGraph NodeData ConsolidatedEdge;
    body : list Element;
    view : list ViewCall }.

(** [nodesData.forEach(node => { if (!uniqueNodes.has(node.id)) uniqueNodes.set(node.id, node) })] *)
Definition uniqueNodes (nodesData : list NodeData) : JsMap.t NodeData :=
  fold_left
    (fun uniqueNodes node =>
       if JsMap.has (id node) uniqueNodes then uniqueNodes
       else JsMap.set (id node) node uniqueNodes)
    nodesData [].

(** The template literal [`${edge.source}-${edge.target}`]. *)
Definition edgeKey (edge : EdgeData) : string :=
  String.append (source edge) (String.append "-" (target edge)).


(** [consolidatedEdges.get(edgeKey)!.count += 1] *)
Definition countUp (c : ConsolidatedEdge) : ConsolidatedEdge :=
  mkConsolidated (c_source c) (c_target c) (count c + 1) (c_edgeType c).

Definition consolidatedEdges (edgesData : list EdgeData)
  : JsMap.t ConsolidatedEdge :=
  fold_left
    (fun consolidatedEdges edge =>
       let edgeKey := edgeKey edge in
       if JsMap.has edgeKey consolidatedEdges
       then JsMap.update edgeKey countUp consolidatedEdges
       else JsMap.set edgeKey
              (mkConsolidated (source edge) (target edge) 1 (edgeType edge))
              consolidatedEdges)
    edgesData [].

(** Body of [uniqueNodes.forEach]: colour of the type, node, label.  The
    first component of the state is [typeColorMap] with [colorIndex].  The
    location, drawn with [Math.random], is not represented. *)
Definition createNodeFor
  (st : (JsMap.t string * nat) * IGraph NodeData ConsolidatedEdge)
  (node : NodeData)
  : option ((JsMap.t string * nat) * IGraph NodeData ConsolidatedEdge) :=
  let '(assigned, graph) := st in
  let assigned := assignColor assigned (type node) in
  let style := shapeNodeStyle (lookup (type node) (fst assigned)) in
  let '(graph, nodeElement) := createNode graph node style in
  graph <- addNodeLabel graph nodeElement (orElse (label node) "No Label") ;;
  Some (assigned, graph).

(** Body of [consolidatedEdges.forEach]: both ends are looked up among the
    graph's nodes by [node.tag.id]; the edge is created only when both are
    found.  The stroke colour of the edge, drawn with [Math.random], is not
    represented. *)
Definition createEdgeFor (graph : IGraph NodeData ConsolidatedEdge)
  (edge : ConsolidatedEdge) : option (IGraph NodeData ConsolidatedEdge) :=
  let sourceNode :=
    find (fun node => String.eqb (id (ntag node)) (c_source edge)) (nodes graph) in
  let targetNode :=
    find (fun node => String.eqb (id (ntag node)) (c_target edge)) (nodes graph) in
  match sourceNode, targetNode with
  | Some sourceNode, Some targetNode =>
      '(graph, edgeElement) <-
        createEdge graph (nref sourceNode) (nref targetNode) edge ;;
      addEdgeLabel graph edgeElement (orElse (c_edgeType edge) "No Type")
  | _, _ => Some graph
  end.

(** Closed form of the node loop: the graph nodes it creates for a list of
    records, from a state of the colour map and a first identity. *)
Fixpoint paintedNodes (assigned : JsMap.t string * nat) (r : nat)
  (l : list NodeData) : list (INode NodeData) :=
  match l with
  | [] => []
  | node :: l' =>
      let assigned := assignColor assigned (type node) in
      mkINode r node
        (shapeNodeStyle (lookup (type node) (fst assigned)))
        [orElse (label node) "No Label"]
      :: paintedNodes assigned (S r) l'
  end.

(** Whether both ends of a consolidated edge match the id of some node. *)
Definition endsPresent (ns : list (INode NodeData)) (edge : ConsolidatedEdge)
  : bool :=
  existsb (fun node => String.eqb (id (ntag node)) (c_source edge)) ns
  && existsb (fun node => String.eqb (id (ntag node)) (c_target edge)) ns.

(** Closed form of the edge loop: the graph edges it creates over the nodes
    [ns], from a first identity. *)
Fixpoint attachedEdges (ns : list (INode NodeData)) (r : nat)
  (l : list ConsolidatedEdge) : list (IEdge ConsolidatedEdge) :=
  match l with
  | [] => []
  | edge :: l' =>
      match find (fun node => String.eqb (id (ntag node)) (c_source edge)) ns,
            find (fun node => String.eqb (id (ntag node)) (c_target edge)) ns
      with
      | Some sourceNode, Some targetNode =>
          mkIEdge r (nref sourceNode) (nref targetNode) edge
            [orElse (c_edgeType edge) "No Type"]
          :: attachedEdges ns (S r) l'
      | _, _ => attachedEdges ns r l'
      end
  end.

Definition legendId : string := "node-type-legend".

Section Legend.
(** [Color.toString] of the rendering library. *)
Variable colorToString : string -> string.

(** The [typeColorMap] that [createLegend] collects from the graph's nodes. *)
Definition legendRows (graph : IGraph NodeData ConsolidatedEdge)
  : JsMap.t string :=
  fold_left
    (fun typeColorMap node =>
       let nodeType := type (ntag node) in
       if truthy nodeType && unset nodeType typeColorMap
       then match nstyle node with
            | ShapeNodeStyle fill =>
                JsMap.set nodeType (colorToString fill) typeColorMap
            | _ => typeColorMap
            end
       else typeColorMap)
    (nodes graph) [].

(** [createLegend(graphComponent)]: an existing legend is removed, the new
    one is appended to the body. *)
Definition createLegend (graph : IGraph NodeData ConsolidatedEdge)
  (body : list Element) : list Element :=
  appendChild (mkElement legendId (JsObject.entries (legendRows graph)))
    (detach legendId body).

Definition updateGraph (st : State) (nodesData : list NodeData)
  (edgesData : list EdgeData) : option State :=
  let graph := clear in
  '(_, graph) <-
    forEachM createNodeFor (JsMap.values (uniqueNodes nodesData))
      (([], 0), graph) ;;
  graph <-
    forEachM createEdgeFor (JsMap.values (consolidatedEdges edgesData)) graph ;;
  Some (mkState graph (createLegend graph (body st))
          (view st ++ [FitGraphBounds])).

End Legend.

(** The page before the first load. *)
Definition initial : State := mkState clear [] [].

End DirectLoader.

(** ** [GraphBuilder] of the rendering library

    One builder owns the nodes it creates: ids are resolved against the
    builder's own nodes source, never against nodes that were in the graph
    before.  [buildGraph] creates a node for every item of the nodes source
    and an edge for every item of the edges source whose [sourceId] and
    [targetId] both resolve; other edge items are skipped.  Whether
    [buildGraph] empties the graph first cannot be read off this repository;
    [clearsGraph] covers both behaviours. *)
Module GraphBuilder.

Section Build.
Variable clearsGraph : bool.
Context {S : Type}.
(** The node-created listeners: they see the data item and answer the style
    the node ends up with. *)
Variable nodeCreated : S -> NodeData -> S * NodeStyle.

(** Nodes source with [id: 'id'] and [tag: data => data.type].  The labels
    that the label binding of the node creator adds are not represented: a
    built node is listed without labels. *)
Definition buildNode (acc : S * IGraph string EdgeData * JsMap.t nat)
  (data : NodeData) : S * IGraph string EdgeData * JsMap.t nat :=
  let '(s, g, dict) := acc in
  let '(s, style) := nodeCreated s data in
  let '(g, node) := createNode g (type data) style in
  (s, g, JsMap.set (id data) node dict).

(** Edges source with [sourceId: 'source'] and [targetId: 'target']. *)
Definition buildEdge (dict : JsMap.t nat) (g : IGraph string EdgeData)
  (data : EdgeData) : IGraph string EdgeData :=
  match JsMap.get (source data) dict, JsMap.get (target data) dict with
  | Some s, Some t => fst (connect g s t data)
  | _, _ => g
  end.

Definition buildGraph (s : S) (g : IGraph string EdgeData)
  (nodesData : list NodeData) (edgesData : list EdgeData)
  : S * IGraph string EdgeData :=
  let g := if clearsGraph then clear else g in
  let '(s, g, dict) := fold_left buildNode nodesData (s, g, []) in
  (s, fold_left (buildEdge dict) edgesData g).

End Build.

End GraphBuilder.

(** ** Second revision: [loadAndProcessCSVFiles] with the module-level
    [typeColors] *)
Module BuilderLoader.

Record State : Type := mkState
  { graph : IGraph string EdgeData;
    typeColors : JsMap.t string;       (* [const typeColors = {}] of the module *)
    body : list Element;
    view : list ViewCall }.

(** [Array.from(new Map(nodes.map(node => [node.id, node])).values())] *)
Definition uniqueNodes (nodes : list NodeData) : list NodeData :=
  JsMap.values (fold_left (fun m node => JsMap.set (id node) node m) nodes []).

(** [getColorForType], on the module-level [typeColors]; the node-created
    listener of [loadAndProcessCSVFiles] repeats the same lines. *)
Definition getColorForType (typeColors : JsMap.t string) (type : string)
  : JsMap.t string * JsValue :=
  let typeColors :=
    if unset type typeColors
    then JsMap.set type (paletteAt colorPalette (List.length typeColors))
           typeColors
    else typeColors in
  (typeColors, lookup type typeColors).

Definition nodeCreated (typeColors : JsMap.t string) (data : NodeData)
  : JsMap.t string * NodeStyle :=
  let '(typeColors, color) := getColorForType typeColors (type data) in
  (typeColors, shinyPlateNodeStyle color).

Definition legendId : string := "legend".

(** [createLegend()]: the container is reused or created, emptied, filled
    from [typeColors] and appended to the body. *)
Definition createLegend (typeColors : JsMap.t string) (body : list Element)
  : list Element :=
  appendChild (mkElement legendId (JsObject.entries typeColors))
    (detach legendId body).

Section Load.
Variable clearsGraph : bool.

Definition loadAndProcessCSVFiles (st : State) (nodes : list NodeData)
  (edges : list EdgeData) : State :=
  let uniqueNodes := uniqueNodes nodes in
  let '(typeColors, graph) :=
    GraphBuilder.buildGraph clearsGraph nodeCreated (typeColors st) (graph st)
      uniqueNodes edges in
  mkState graph typeColors (createLegend typeColors (body st))
    (view st ++ [RunLayout "OrganicLayout"; RunLayout "OrganicEdgeRouter";
                 SetProjection; FitGraphBounds; SetZoom]).

End Load.

(** The page before the first load. *)
Definition initial : State := mkState clear [] [] [].

End BuilderLoader.

(** ** Third revision: [loadGraphInChunks] *)
Module ChunkedLoader.

Record Progress : Type := mkProgress
  { shown : bool;               (* [progressContainer.style.display] *)
    max : nat;                  (* [progressBar.max] *)
    value : nat }.              (* [progressBar.value] *)

Record State : Type := mkState
  { graph : IGraph string EdgeData;
    body : list Element;
    view : list ViewCall;
    progress : Progress }.

(** [getColorForType] of this revision: a fixed table, read as
    [colors[type] || 'gray']. *)
Definition getColorForType (type : string) : JsValue :=
  let colors := [("Type1", "red"); ("Type2", "blue"); ("Type3", "green")] in
  if truthyValue (lookup type colors) then lookup type colors
  else JsString "gray".

(** The node-created listener of [updateGraphChunk] writes the colour of the
    type into the node's style. *)
Definition nodeCreated (_ : unit) (data : NodeData) : unit * NodeStyle :=
  (tt, shinyPlateNodeStyle (getColorForType (type data))).

(** [getTypeColorMap(nodesData)] *)
Definition getTypeColorMap (nodesData : list NodeData) : JsMap.t string :=
  fst (fold_left (fun st node => assignColor st (type node)) nodesData ([], 0)).

Definition legendId : string := "node-type-legend".

(** [createLegend(nodesData)] *)
Definition createLegend (nodesData : list NodeData) (body : list Element)
  : list Element :=
  appendChild (mkElement legendId (JsObject.entries (getTypeColorMap nodesData)))
    (detach legendId body).

(** [clusters[clusterKey].push(node)] on an object whose keys are cluster
    numbers: [for (const clusterKey in clusters)] visits such keys in
    ascending numeric order, so the entries are kept sorted by key. *)
Fixpoint pushCluster (clusterKey node : nat) (clusters : list (nat * list nat))
  : list (nat * list nat) :=
  match clusters with
  | [] => [(clusterKey, [node])]
  | (k, cluster) :: rest =>
      if clusterKey =? k then (k, cluster ++ [node]) :: rest
      else if clusterKey <? k then (clusterKey, [node]) :: clusters
      else (k, cluster) :: pushCluster clusterKey node rest
  end.

(** [const chunkSize = 100; // Define your chunk size] *)
Definition chunkSize : nat := 100.

(** [Math.ceil(n / c)].  For [c = 0] JavaScript computes [NaN] when [n = 0]
    (no iteration) and [Infinity] otherwise (the loop never ends); only
    positive chunk sizes are considered below. *)
Definition totalChunks (n c : nat) : nat := (n + c - 1) / c.

Section Load.
Variable clearsGraph : bool.
(** [EdgeBetweennessClustering.run(graph).nodeClusterIds.get(node)];
    [None] stands for [null]. *)
Variable nodeClusterIds : IGraph string EdgeData -> nat -> option nat.

Definition updateGraphChunk (graph : IGraph string EdgeData)
  (nodesData : list NodeData) (edgesData : list EdgeData)
  : IGraph string EdgeData :=
  snd (GraphBuilder.buildGraph clearsGraph nodeCreated tt graph
         nodesData edgesData).

Definition applyInitialLayout (st : State) : State :=
  mkState (graph st) (body st)
    (view st ++ [RunLayout "OrganicLayout"; SetProjection]) (progress st).

(** Body of [for (const clusterKey in clusters)]. *)
Definition paintCluster (acc : IGraph string EdgeData * nat)
  (entry : nat * list nat) : option (IGraph string EdgeData * nat) :=
  let '(graph, colorIndex) := acc in
  let clusterColor := paletteAt colors colorIndex in
  graph <-
    forEachM (fun g node => setStyle g node (ShinyPlateNodeStyle clusterColor))
      (snd entry) graph ;;
  Some (graph, S colorIndex).

(** The isolated-node pruning of [applyClustering]:
    [graph.nodes.filter(node => graph.degree(node) === 0).toArray()], then
    [graph.remove] on each. *)
Definition pruneIsolated (graph : IGraph string EdgeData)
  : option (IGraph string EdgeData) :=
  let nodesToRemove :=
    map nref (filter (fun node => degree graph (nref node) =? 0) (nodes graph)) in
  forEachM remove nodesToRemove graph.

Definition applyClustering (st : State) : option State :=
  let graph := graph st in
  let clusters :=
    fold_left
      (fun clusters node =>
         match nodeClusterIds graph (nref node) with
         | Some clusterId => pushCluster clusterId (nref node) clusters
         | None => clusters
         end)
      (nodes graph) [] in
  '(graph, _) <- forEachM paintCluster clusters (graph, 0) ;;
  graph <- pruneIsolated graph ;;
  Some (applyInitialLayout
          (mkState graph (body st) (view st ++ [RunClustering]) (progress st))).

(** One turn of the chunk loop, for chunk number [i]. *)
Definition loadChunk (chunkSize : nat) (nodesData : list NodeData)
  (edgesData : list EdgeData) (acc : JsMap.t NodeData * State) (i : nat)
  : JsMap.t NodeData * State :=
  let '(uniqueNodesMap, st) := acc in
  let nodeChunk := firstn chunkSize (skipn (i * chunkSize) nodesData) in
  let uniqueNodesMap :=
    fold_left (fun m node => JsMap.set (id node) node m) nodeChunk
      uniqueNodesMap in
  let edgeChunk :=
    filter
      (fun edge =>
         existsb (fun node => String.eqb (id node) (source edge)
                              || String.eqb (id node) (target edge))
           nodeChunk)
      edgesData in
  let graph :=
    updateGraphChunk (graph st) (JsMap.values uniqueNodesMap) edgeChunk in
  (uniqueNodesMap,
   mkState graph (body st) (view st)
     (mkProgress (shown (progress st)) (max (progress st)) (i + 1))).

(** [for (let i = 0; i < totalChunks; i++) { ... }], entered with an empty
    [uniqueNodesMap] and the progress bar shown.  [progressBar.max =
    totalChunks] changes the maximum only when the number is positive: a
    progress element ignores any other. *)
Definition chunkLoop (chunkSize : nat) (st : State)
  (nodesData : list NodeData) (edgesData : list EdgeData)
  : JsMap.t NodeData * State :=
  let totalChunks := totalChunks (List.length nodesData) chunkSize in
  fold_left (loadChunk chunkSize nodesData edgesData) (seq 0 totalChunks)
    ([], mkState (graph st) (body st) (view st)
           (mkProgress true
              (if totalChunks =? 0 then max (progress st) else totalChunks)
              (value (progress st)))).

(** [loadGraphInChunks], with the chunk size as a parameter. *)
Definition loadGraphInChunksWith (chunkSize : nat) (st : State)
  (nodesData : list NodeData) (edgesData : list EdgeData) : option State :=
  let '(uniqueNodesMap, st) := chunkLoop chunkSize st nodesData edgesData in
  let st := mkState (graph st) (body st) (view st ++ [FitGraphBounds])
              (mkProgress false (max (progress st)) (value (progress st))) in
  st <- applyClustering st ;;
  Some (mkState (graph st)
          (createLegend (JsMap.values uniqueNodesMap) (body st))
          (view st) (progress st)).

Definition loadGraphInChunks : State -> list NodeData -> list EdgeData
                               -> option State :=
  loadGraphInChunksWith chunkSize.

(** Reference for the parity property: a single, non-chunked construction
    over the same input.  The whole node list is deduplicated, one builder
    materialises it together with the whole edge list, and the same
    post-processing follows. *)
Definition loadGraphAtOnce (st : State) (nodesData : list NodeData)
  (edgesData : list EdgeData) : option State :=
  let uniqueNodesMap :=
    fold_left (fun m node => JsMap.set (id node) node m) nodesData [] in
  let built :=
    updateGraphChunk (graph st) (JsMap.values uniqueNodesMap) edgesData in
  let st := mkState built (body st) (view st ++ [FitGraphBounds])
              (progress st) in
  st <- applyClustering st ;;
  Some (mkState (graph st)
          (createLegend (JsMap.values uniqueNodesMap) (body st))
          (view st) (progress st)).

End Load.

(** What the parity property compares: the tags of the graph's nodes and,
    for every edge, the data item it was made from. *)
Definition nodeTags (g : IGraph string EdgeData) : list string :=
  map ntag (nodes g).

Definition edgeItems (g : IGraph string EdgeData) : list EdgeData :=
  map etag (edges g).

(** The page before the first load; the maximum of a progress element is 1
    until it is set. *)
Definition initial : State :=
  mkState clear [] [] (mkProgress false 1 0).

(** Sample input: [n] records numbered from 0, each with its number as id
    and as type. *)
Definition numbered (k : nat) : string :=
  NilEmpty.string_of_uint (Nat.to_uint k).

Definition sampleNodes (n : nat) : list NodeData :=
  map (fun k => mkNode (numbered k) (numbered k) None) (seq 0 n).

End ChunkedLoader.

(** ** Label toggles

    [showEdgeLabels], [hideEdgeLabels] (first and third revision),
    [showNodeLabels], [hideNodeLabels] (third revision) and
    [toggleNodeLabels] (second revision).  Positions and label models
    belong to the rendering library and are not represented. *)
Section LabelOps.
Context {NT ET : Type}.
Local Abbreviation Graph := (IGraph NT ET).

(** [node.labels] and [edge.labels], as the graph has them now. *)
Definition nodeLabels (g : Graph) (r : nat) : list string :=
  match find (fun n => nref n =? r) (nodes g) with
  | Some n => nlabels n
  | None => []
  end.

Definition edgeLabels (g : Graph) (r : nat) : list string :=
  match find (fun e => eref e =? r) (edges g) with
  | Some e => elabels e
  | None => []
  end.

(** [graph.remove(label)] inside [labels.forEach] over the snapshot
    [labels.toArray()]: the labels of the owner go front to back, so each
    call removes the label that is first among those the owner still has.
    The library throws when the label is not in the graph. *)
Definition removeNodeLabel (g : Graph) (r : nat) : option Graph :=
  match nodeLabels g r with
  | [] => None
  | _ :: _ =>
      Some (mkIGraph
              (map (fun n => if nref n =? r
                             then mkINode (nref n) (ntag n) (nstyle n)
                                    (tl (nlabels n))
                             else n) (nodes g))
              (edges g) (fresh g))
  end.

Definition removeEdgeLabel (g : Graph) (r : nat) : option Graph :=
  match edgeLabels g r with
  | [] => None
  | _ :: _ =>
      Some (mkIGraph (nodes g)
              (map (fun e => if eref e =? r
                             then mkIEdge (eref e) (esource e) (etarget e)
                                    (etag e) (tl (elabels e))
                             else e) (edges g))
              (fresh g))
  end.

(** [const labels = node.labels.toArray(); labels.forEach(label => graph.remove(label))] *)
Definition removeNodeLabels (g : Graph) (node : nat) : option Graph :=
  forEachM (fun g _ => removeNodeLabel g node) (nodeLabels g node) g.

Definition removeEdgeLabels (g : Graph) (edge : nat) : option Graph :=
  forEachM (fun g _ => removeEdgeLabel g edge) (edgeLabels g edge) g.

(** [hideNodeLabels]: over the snapshot [graph.nodes.toArray()]. *)
Definition hideNodeLabels (g : Graph) : option Graph :=
  forEachM removeNodeLabels (map nref (nodes g)) g.

(** [hideEdgeLabels]: over the snapshot [graph.edges.toArray()]. *)
Definition hideEdgeLabels (g : Graph) : option Graph :=
  forEachM removeEdgeLabels (map eref (edges g)) g.

Section Show.
(** [edge.tag.edgeType] and [node.tag.label]; [None] stands for
    [undefined]. *)
Variable edgeTypeOf : ET -> option string.
Variable labelOf : NT -> option string.

(** [if (edge.labels.size === 0 && edge.tag.edgeType) graph.addLabel(edge, edge.tag.edgeType)] *)
Definition showEdgeLabel (g : Graph) (edge : nat) : option Graph :=
  match find (fun e => eref e =? edge) (edges g) with
  | Some e =>
      match edgeTypeOf (etag e) with
      | Some text =>
          if (List.length (elabels e) =? 0) && truthy text
          then addEdgeLabel g edge text
          else Some g
      | None => Some g
      end
  | None => Some g
  end.

Definition showEdgeLabels (g : Graph) : option Graph :=
  forEachM showEdgeLabel (map eref (edges g)) g.

(** [if (node.labels.size === 0 && node.tag.label) graph.addLabel(node, node.tag.label)] *)
Definition showNodeLabel (g : Graph) (node : nat) : option Graph :=
  match find (fun n => nref n =? node) (nodes g) with
  | Some n =>
      match labelOf (ntag n) with
      | Some text =>
          if (List.length (nlabels n) =? 0) && truthy text
          then addNodeLabel g node text
          else Some g
      | None => Some g
      end
  | None => Some g
  end.

Definition showNodeLabels (g : Graph) : option Graph :=
  forEachM showNodeLabel (map nref (nodes g)) g.

(** The click handler of [initializeEdgeLabelToggle], on the flag
    [edgeLabelsVisible] and the graph. *)
Definition toggleEdgeLabels (st : bool * Graph) : option (bool * Graph) :=
  let '(edgeLabelsVisible, g) := st in
  let edgeLabelsVisible := negb edgeLabelsVisible in
  g <- (if edgeLabelsVisible then showEdgeLabels g else hideEdgeLabels g) ;;
  Some (edgeLabelsVisible, g).

(** The click handler of [initializeNodeLabelToggle]. *)
Definition toggleNodeLabelsClick (st : bool * Graph) : option (bool * Graph) :=
  let '(nodeLabelsVisible, g) := st in
  let nodeLabelsVisible := negb nodeLabelsVisible in
  g <- (if nodeLabelsVisible then showNodeLabels g else hideNodeLabels g) ;;
  Some (nodeLabelsVisible, g).

End Show.

End LabelOps.

(** In the graphs of the second and third revision the tag of a node is the
    string [data.type]; a string has no property [label], so
    [node.tag.label] is [undefined]. *)
Definition tagLabel (tag : string) : option string := None.

(** [toggleNodeLabels(visible)] of the second revision: the label text is
    the tag of the node. *)
Definition toggleNodeLabel {ET : Type} (visible : bool) (g : IGraph string ET)
  (node : nat) : option (IGraph string ET) :=
  if visible
  then match find (fun n => nref n =? node) (nodes g) with
       | Some n =>
           if List.length (nlabels n) =? 0
           then addNodeLabel g node (ntag n)
           else Some g
       | None => Some g
       end
  else removeNodeLabels g node.

Definition toggleNodeLabels {ET : Type} (visible : bool) (g : IGraph string ET)
  : option (IGraph string ET) :=
  forEachM (toggleNodeLabel visible) (map nref (nodes g)) g.

(** ** Closed forms of the builder's loops

    The nodes that [buildNode] creates for a list of items, from a state of
    the listeners and a first identity, the dictionary it fills, and the
    edges that [buildEdge] creates over a dictionary. *)
Section BuiltForms.
Context {St : Type}.
Variable nodeCreated : St -> NodeData -> St * NodeStyle.

Fixpoint builtNodes (s : St) (r : nat) (l : list NodeData)
  : list (INode string) :=
  match l with
  | [] => []
  | data :: l' =>
      mkINode r (type data) (snd (nodeCreated s data)) []
      :: builtNodes (fst (nodeCreated s data)) (S r) l'
  end.

Fixpoint builtDict (dict : JsMap.t nat) (r : nat) (l : list NodeData)
  : JsMap.t nat :=
  match l with
  | [] => dict
  | data :: l' => builtDict (JsMap.set (id data) r dict) (S r) l'
  end.

Fixpoint builtEdges (dict : JsMap.t nat) (r : nat) (l : list EdgeData)
  : list (IEdge EdgeData) :=
  match l with
  | [] => []
  | data :: l' =>
      match JsMap.get (source data) dict, JsMap.get (target data) dict with
      | Some s, Some t => mkIEdge r s t data [] :: builtEdges dict (S r) l'
      | _, _ => builtEdges dict r l'
      end
  end.

End BuiltForms.

(** ** Tooltips ([tooltips.ts]) *)

(** What the pointer is over. *)
Inductive ModelItem : Type :=
| NodeItem (node : nat)
| EdgeItem (edge : nat)
| OtherItem.

(** [list.indexOf(item) + 1]: the 1-based position of the first element
    with the identity [r], and 0 ([-1 + 1]) when there is none. *)
Fixpoint indexOfPlus1 (r : nat) (refs : list nat) : nat :=
  match refs with
  | [] => 0
  | x :: refs' =>
      if x =? r then 1
      else match indexOfPlus1 r refs' with
           | 0 => 0
           | S i => S (S i)
           end
  end.

(** A non-negative integer inside a template literal. *)
Definition decimal (k : nat) : string :=
  NilEmpty.string_of_uint (Nat.to_uint k).

(** [createContent]: the text of the tooltip element. *)
Definition createContent {NT ET : Type} (item : ModelItem) (g : IGraph NT ET)
  : string :=
  match item with
  | NodeItem node =>
      String.append "Node #" (decimal (indexOfPlus1 node (map nref (nodes g))))
  | EdgeItem edge =>
      String.append "Edge #" (decimal (indexOfPlus1 edge (map eref (edges g))))
  | OtherItem => ""
  end.

(** [QueryItemToolTipEventArgs]: [handled] and [toolTip]. *)
Record ToolTipArgs : Type := mkToolTipArgs
  { handled : bool;
    toolTip : option string }.

(** The listener registered by [initializeTooltips]. *)
Definition queryItemToolTip {NT ET : Type} (g : IGraph NT ET) (item : ModelItem)
  (args : ToolTipArgs) : ToolTipArgs :=
  if handled args then args
  else mkToolTipArgs true (Some (createContent item g)).

(** ** Context menu ([context-menu.ts]) *)

(** [graphComponent.selection] with [graphComponent.currentItem]: the
    selected nodes, the other selected items (edges, labels, ports, bends)
    and the current item. *)
Record Selection : Type := mkSelection
  { selectedNodes : list nat;
    selectedOthers : list nat;
    currentItem : option nat }.

(** The sample menu widget: the titles of its items, and [args.showMenu]. *)
Record Menu : Type := mkMenu
  { items : list string;
    showMenu : bool }.

(** [updateSelection(graphComponent, node)]; [None] stands for [null]. *)
Definition updateSelection (sel : Selection) (node : option nat) : Selection :=
  match node with
  | None => mkSelection [] [] (currentItem sel)
  | Some r =>
      if negb (existsb (Nat.eqb r) (selectedNodes sel))
      then mkSelection [r] [] (Some r)
      else sel
  end.

(** [populateContextMenu] *)
Definition populateContextMenu (menu : Menu) (sel : Selection)
  (item : ModelItem) : Menu * Selection :=
  let node := match item with
              | NodeItem r => Some r
              | _ => None
              end in
  let sel := updateSelection sel node in
  if 0 <? List.length (selectedNodes sel)
  then (mkMenu ["Zoom to node"] true, sel)
  else (mkMenu ["Fit Graph Bounds"] true, sel).

(** ** File upload of the second revision *)

(** A change event of one of the two file inputs, after parsing: no file
    chosen, the rows of a nodes file, or the rows of an edges file. *)
Inductive UploadEvent : Type :=
| NoFiles
| NodesFile (parsedData : list NodeData)
| EdgesFile (parsedData : list EdgeData).

(** [window.uploadedNodes], [window.uploadedEdges] and the page. *)
Record Window : Type := mkWindow
  { uploadedNodes : option (list NodeData);
    uploadedEdges : option (list EdgeData);
    page : BuilderLoader.State }.

Section Upload.
Variable clearsGraph : bool.

(** [handleFileUpload]; an array, even an empty one, is truthy.  Events
    are taken one after the other. *)
Definition handleFileUpload (w : Window) (event : UploadEvent) : Window :=
  match event with
  | NoFiles => w
  | _ =>
      let w := match event with
               | NodesFile parsedData =>
                   mkWindow (Some parsedData) (uploadedEdges w) (page w)
               | EdgesFile parsedData =>
                   mkWindow (uploadedNodes w) (Some parsedData) (page w)
               | NoFiles => w
               end in
      match uploadedNodes w, uploadedEdges w with
      | Some nodes, Some edges =>
          mkWindow (uploadedNodes w) (uploadedEdges w)
            (BuilderLoader.loadAndProcessCSVFiles clearsGraph (page w) nodes
               edges)
      | _, _ => w
      end
  end.

End Upload.

(** ** Level of detail of the third revision ([setupLevelOfDetail])

    Here a label is its text with its [tag]; [None] stands for the [null]
    tag of a label that nobody has tagged. *)
Record Label : Type := mkLabel
  { ltext : string;
    ltag : option string }.

(** The three branches of the zoom listener for one label of the snapshot
    [labels.toArray()]: what the label leaves in its owner's list, and the
    labels that [graph.addLabel] appends. *)
Definition levelOfDetailLabel (showLabels : bool) (label : Label)
  : list Label * list Label :=
  if showLabels && falsy (ltag label)
  then ([mkLabel (ltext label) (Some "visible")], [])
  else if negb showLabels
          && match ltag label with
             | Some tag => String.eqb tag "visible"
             | None => false
             end
  then ([], [])
  else if showLabels
          && match ltag label with
             | Some tag => String.eqb tag "hidden"
             | None => false
             end
  then ([mkLabel (ltext label) (Some "visible")],
        [mkLabel (ltext label) None])
  else ([label], []).

(** The listener on the labels of one node or edge. *)
Definition levelOfDetailOwner (showLabels : bool) (labels : list Label)
  : list Label :=
  List.concat (map (fun l => fst (levelOfDetailLabel showLabels l)) labels)
  ++ List.concat (map (fun l => snd (levelOfDetailLabel showLabels l)) labels).

(** The zoom listener, on the label lists of the nodes followed by those of
    the edges; [showLabels] is [zoom > 0.7]. *)
Definition zoomChanged (showLabels : bool) (owners : list (list Label))
  : list (list Label) :=
  map (levelOfDetailOwner showLabels) owners.

(** ** The cluster table of [applyClustering]

    [for (const clusterKey in clusters)] visits the keys in ascending
    order; [ascending] says that a table lists its keys so. *)
Inductive ascending : list (nat * list nat) -> Prop :=
| ascending_nil : ascending []
| ascending_cons k ms rest :
    (forall entry, In entry rest -> k < fst entry) ->
    ascending rest -> ascending ((k, ms) :: rest).

(* ================================================================== *)
(** * Part II: properties *)
(* ================================================================== *)

(** ** Ordered maps *)
Module JsMapFacts.
Import JsMap.

Section Facts.
Context {V : Type}.
Implicit Types (m : JsMap.t V) (k : string) (v : V).

Lemma get_set k k' v m :
  get k' (set k v m) = if String.eqb k' k then Some v else get k' m.
Proof.
  induction m as [|[k0 v0] m IH]; simpl; [reflexivity|].
  destruct (String.eqb k k0) eqn:E; simpl.
  - apply String.eqb_eq in E; subst k0.
    destruct (String.eqb k' k); reflexivity.
  - destruct (String.eqb k' k0) eqn:E'; [|exact IH].
    apply String.eqb_eq in E'; subst k'.
    rewrite String.eqb_sym, E. reflexivity.
Qed.

Lemma get_update k k' (f : V -> V) m :
  get k' (update k f m) =
  if String.eqb k' k then option_map f (get k m) else get k' m.
Proof.
  induction m as [|[k0 v0] m IH]; simpl.
  - destruct (String.eqb k' k); reflexivity.
  - destruct (String.eqb k k0) eqn:E; simpl.
    + apply String.eqb_eq in E; subst k0.
      destruct (String.eqb k' k); reflexivity.
    + destruct (String.eqb k' k0) eqn:E'; [|exact IH].
      apply String.eqb_eq in E'; subst k'.
      rewrite String.eqb_sym, E. reflexivity.
Qed.

Lemma has_keys k m : has k m = existsb (String.eqb k) (keys m).
Proof.
  unfold has. induction m as [|[k0 v0] m IH]; simpl; [reflexivity|].
  destruct (String.eqb k k0); [reflexivity|exact IH].
Qed.

Lemma keys_set k v m :
  keys (set k v m) = if has k m then keys m else keys m ++ [k].
Proof.
  unfold has. induction m as [|[k0 v0] m IH]; simpl; [reflexivity|].
  destruct (String.eqb k k0) eqn:E; simpl; [reflexivity|].
  rewrite IH. destruct (get k m); reflexivity.
Qed.

Lemma keys_update k (f : V -> V) m : keys (update k f m) = keys m.
Proof.
  induction m as [|[k0 v0] m IH]; simpl; [reflexivity|].
  destruct (String.eqb k k0); simpl; [reflexivity|].
  now rewrite IH.
Qed.

Lemma get_In k v m : get k m = Some v -> In (k, v) m.
Proof.
  induction m as [|[k0 v0] m IH]; simpl; [discriminate|].
  destruct (String.eqb k k0) eqn:E.
  - apply String.eqb_eq in E. intros [= ->]. left. now subst.
  - intros H. right. now apply IH.
Qed.

Lemma get_None_keys k m : get k m = None -> ~ In k (keys m).
Proof.
  induction m as [|[k0 v0] m IH]; simpl; [tauto|].
  destruct (String.eqb k k0) eqn:E; [discriminate|].
  apply String.eqb_neq in E. intros H [H'|H']; [congruence|].
  now apply IH.
Qed.

Lemma In_get k v m : NoDup (keys m) -> In (k, v) m -> get k m = Some v.
Proof.
  induction m as [|[k0 v0] m IH]; simpl; [tauto|].
  intros Hnd [H|H].
  - injection H as -> ->. now rewrite String.eqb_refl.
  - inversion Hnd as [|? ? Hnotin Hnd']; subst.
    destruct (String.eqb k k0) eqn:E.
    + apply String.eqb_eq in E; subst k0. exfalso. apply Hnotin.
      change k with (fst (k, v)). now apply in_map.
    + now apply IH.
Qed.

End Facts.

End JsMapFacts.

(** ** First-seen order *)
Section DistinctFacts.

Lemma existsb_eqb_In (x : string) (l : list string) :
  existsb (String.eqb x) l = true <-> In x l.
Proof.
  rewrite existsb_exists. split.
  - intros [y [Hy E]]. apply String.eqb_eq in E. now subst.
  - intros H. exists x. split; [assumption|apply String.eqb_refl].
Qed.

Lemma In_distinct (x : string) (l : list string) : In x (distinct l) <-> In x l.
Proof.
  induction l as [|a l IH]; simpl; [tauto|].
  rewrite filter_In, IH, negb_true_iff, String.eqb_neq.
  destruct (string_dec a x) as [->|Hne]; [tauto|].
  split; [tauto|]. intros [H|H]; [contradiction|]. right. split; congruence.
Qed.

Lemma NoDup_distinct (l : list string) : NoDup (distinct l).
Proof.
  induction l as [|a l IH]; simpl; constructor.
  - rewrite filter_In, negb_true_iff, String.eqb_neq. tauto.
  - now apply NoDup_filter.
Qed.

Lemma existsb_distinct (x : string) (l : list string) :
  existsb (String.eqb x) (distinct l) = existsb (String.eqb x) l.
Proof.
  apply eq_true_iff_eq. rewrite !existsb_eqb_In. apply In_distinct.
Qed.

(** Appending one element: it is new exactly when it was not seen before. *)
Lemma distinct_snoc (l : list string) (x : string) :
  distinct (l ++ [x]) =
  if existsb (String.eqb x) l then distinct l else distinct l ++ [x].
Proof.
  induction l as [|a l IH]; simpl; [reflexivity|].
  rewrite IH. destruct (String.eqb x a) eqn:E; simpl.
  - destruct (existsb (String.eqb x) l); [reflexivity|].
    rewrite filter_app. simpl. rewrite E. simpl. now rewrite app_nil_r.
  - destruct (existsb (String.eqb x) l); [reflexivity|].
    rewrite filter_app. simpl. rewrite E. reflexivity.
Qed.

End DistinctFacts.

(** ** Lists scanned from the front *)
Section FindFacts.
Context {A : Type}.

Lemma find_snoc (p : A -> bool) (l : list A) (x : A) :
  find p (l ++ [x]) =
  match find p l with
  | Some y => Some y
  | None => if p x then Some x else None
  end.
Proof.
  induction l as [|a l IH]; simpl; [reflexivity|].
  destruct (p a); [reflexivity|exact IH].
Qed.

Lemma find_None_filter (p : A -> bool) (l : list A) :
  find p l = None -> filter p l = [].
Proof.
  induction l as [|a l IH]; simpl; [reflexivity|].
  destruct (p a); [discriminate|exact IH].
Qed.

Lemma filter_snoc (p : A -> bool) (l : list A) (x : A) :
  filter p (l ++ [x]) = filter p l ++ (if p x then [x] else []).
Proof. rewrite filter_app. reflexivity. Qed.

End FindFacts.

(** ** Deduplication of node records *)
Module DedupFacts.
Import JsMap JsMapFacts.

(** The map that [new Map(nodes.map(node => [node.id, node]))] and the chunk
    loop's [uniqueNodesMap.set(node.id, node)] build. *)
Lemma lastWins_snoc (l : list NodeData) (n : NodeData) (m0 : JsMap.t NodeData) :
  fold_left (fun m node => set (id node) node m) (l ++ [n]) m0 =
  set (id n) n (fold_left (fun m node => set (id node) node m) l m0).
Proof. now rewrite fold_left_app. Qed.

Lemma lastWins_get (l : list NodeData) (k : string) :
  get k (fold_left (fun m node => set (id node) node m) l []) =
  find (fun n => String.eqb (id n) k) (rev l).
Proof.
  induction l as [|n l IH] using rev_ind; [reflexivity|].
  rewrite lastWins_snoc, get_set, rev_app_distr. simpl.
  rewrite (String.eqb_sym (id n) k).
  destruct (String.eqb k (id n)); [reflexivity|exact IH].
Qed.

Lemma lastWins_keys (l : list NodeData) :
  keys (fold_left (fun m node => set (id node) node m) l []) =
  distinct (map id l).
Proof.
  induction l as [|n l IH] using rev_ind; [reflexivity|].
  rewrite lastWins_snoc, keys_set, has_keys, IH, map_app. simpl.
  rewrite distinct_snoc, existsb_distinct.
  destruct (existsb (String.eqb (id n)) (map id l)); reflexivity.
Qed.

Lemma firstWins_snoc (l : list NodeData) (n : NodeData) :
  DirectLoader.uniqueNodes (l ++ [n]) =
  if has (id n) (DirectLoader.uniqueNodes l)
  then DirectLoader.uniqueNodes l
  else set (id n) n (DirectLoader.uniqueNodes l).
Proof. unfold DirectLoader.uniqueNodes. now rewrite fold_left_app. Qed.

Lemma firstWins_get (l : list NodeData) (k : string) :
  get k (DirectLoader.uniqueNodes l) = find (fun n => String.eqb (id n) k) l.
Proof.
  induction l as [|n l IH] using rev_ind; [reflexivity|].
  rewrite firstWins_snoc, find_snoc, <- IH.
  unfold has. destruct (get (id n) (DirectLoader.uniqueNodes l)) eqn:Hn.
  - destruct (get k (DirectLoader.uniqueNodes l)) eqn:Hk; [reflexivity|].
    destruct (String.eqb (id n) k) eqn:E; [|reflexivity].
    apply String.eqb_eq in E. congruence.
  - rewrite get_set, (String.eqb_sym (id n) k).
    destruct (String.eqb k (id n)) eqn:E.
    + apply String.eqb_eq in E. subst k. now rewrite Hn.
    + now destruct (get k (DirectLoader.uniqueNodes l)).
Qed.

Lemma firstWins_keys (l : list NodeData) :
  keys (DirectLoader.uniqueNodes l) = distinct (map id l).
Proof.
  induction l as [|n l IH] using rev_ind; [reflexivity|].
  rewrite firstWins_snoc, map_app. simpl. rewrite distinct_snoc.
  rewrite <- existsb_distinct, <- IH, <- has_keys.
  destruct (has (id n) (DirectLoader.uniqueNodes l)) eqn:H; [reflexivity|].
  now rewrite keys_set, H.
Qed.

(** In a map keyed by the id of its values, membership of a value is a
    lookup under its own id. *)
Lemma keyed_values (m : JsMap.t NodeData) (scan : list NodeData) (n : NodeData) :
  NoDup (keys m) ->
  (forall k, get k m = find (fun x => String.eqb (id x) k) scan) ->
  In n (values m) <-> find (fun x => String.eqb (id x) (id n)) scan = Some n.
Proof.
  intros Hnd Hget. unfold values. rewrite in_map_iff. split.
  - intros [[k v] [Hv Hin]]. simpl in Hv. subst v.
    apply In_get in Hin; [|assumption].
    rewrite Hget in Hin. pose proof (find_some _ _ Hin) as [_ E].
    apply String.eqb_eq in E. now rewrite E.
  - intros H. rewrite <- Hget in H. exists (id n, n). split; [reflexivity|].
    now apply get_In.
Qed.

Lemma keyed_ids (m : JsMap.t NodeData) (scan : list NodeData) :
  NoDup (keys m) ->
  (forall k, get k m = find (fun x => String.eqb (id x) k) scan) ->
  map id (values m) = keys m.
Proof.
  intros Hnd Hget. unfold values, keys. rewrite map_map. apply map_ext_in.
  intros [k v] Hin. simpl. apply In_get in Hin; [|assumption].
  rewrite Hget in Hin. pose proof (find_some _ _ Hin) as [_ E].
  now apply String.eqb_eq in E.
Qed.

End DedupFacts.

(** ** The chunk loop's node map *)
Module ChunkLoopFacts.
Import ChunkedLoader.

Lemma firstn_plus {A : Type} (a b : nat) (l : list A) :
  firstn (a + b) l = firstn a l ++ firstn b (skipn a l).
Proof.
  revert l. induction a as [|a IH]; intros l; simpl; [reflexivity|].
  destruct l as [|x l]; simpl.
  - now rewrite firstn_nil.
  - now rewrite IH.
Qed.

Lemma chunks_cover (n c : nat) : 1 <= c -> n <= totalChunks n c * c.
Proof.
  intros Hc. unfold totalChunks.
  pose proof (Nat.div_mod_eq (n + c - 1) c) as E.
  pose proof (Nat.mod_upper_bound (n + c - 1) c) as B.
  nia.
Qed.

(** After [k] turns the map holds the first [k] chunks, last write winning. *)
Lemma loop_map (clearsGraph : bool) (c : nat) (nodesData : list NodeData)
  (edgesData : list EdgeData) (st0 : State) (k : nat) :
  fst (fold_left (loadChunk clearsGraph c nodesData edgesData) (seq 0 k)
         ([], st0))
  = fold_left (fun m node => JsMap.set (id node) node m)
      (firstn (k * c) nodesData) [].
Proof.
  induction k as [|k IH]; [reflexivity|].
  rewrite seq_S, fold_left_app. simpl fold_left at 1.
  destruct (fold_left (loadChunk clearsGraph c nodesData edgesData) (seq 0 k)
              ([], st0)) as [u st] eqn:E.
  simpl in IH. subst u. unfold loadChunk. simpl fst.
  rewrite <- fold_left_app. f_equal.
  replace (S k * c) with (k * c + c) by lia.
  now rewrite firstn_plus.
Qed.

Lemma chunkLoop_map (clearsGraph : bool) (c : nat) (st : State)
  (nodesData : list NodeData) (edgesData : list EdgeData) :
  1 <= c ->
  fst (chunkLoop clearsGraph c st nodesData edgesData)
  = fold_left (fun m node => JsMap.set (id node) node m) nodesData [].
Proof.
  intros Hc. unfold chunkLoop. rewrite loop_map.
  now rewrite firstn_all2 by (now apply chunks_cover).
Qed.

End ChunkLoopFacts.

(** C2, as the code has it.  Deduplication by id leaves exactly one record
    per id, the ids in first-seen order.  [loadAndProcessCSVFiles] keeps, for
    every id, the latest record of the input (last write wins), and so does
    the node map of the chunk loop; [updateGraph] guards the write with [has]
    and keeps the first record.  On the two records with id "1" and types
    "A" and "B" the former answer the record of type "B", the latter the
    record of type "A". *)
Theorem dedup_keeps_one_record_per_id :
  forall nodesData : list NodeData,
    (map id (BuilderLoader.uniqueNodes nodesData) = distinct (map id nodesData)
     /\ NoDup (map id (BuilderLoader.uniqueNodes nodesData))
     /\ forall n, In n (BuilderLoader.uniqueNodes nodesData) <->
                  find (fun x => String.eqb (id x) (id n)) (rev nodesData)
                  = Some n)
    /\
    (map id (JsMap.values (DirectLoader.uniqueNodes nodesData))
     = distinct (map id nodesData)
     /\ NoDup (map id (JsMap.values (DirectLoader.uniqueNodes nodesData)))
     /\ forall n, In n (JsMap.values (DirectLoader.uniqueNodes nodesData)) <->
                  find (fun x => String.eqb (id x) (id n)) nodesData = Some n)
    /\
    (forall (clearsGraph : bool) (st : ChunkedLoader.State)
            (edgesData : list EdgeData),
       JsMap.values
         (fst (ChunkedLoader.chunkLoop clearsGraph ChunkedLoader.chunkSize st
                 nodesData edgesData))
       = BuilderLoader.uniqueNodes nodesData)
    /\
    BuilderLoader.uniqueNodes [mkNode "1" "A" None; mkNode "1" "B" None]
      = [mkNode "1" "B" None]
    /\
    JsMap.values
      (DirectLoader.uniqueNodes [mkNode "1" "A" None; mkNode "1" "B" None])
      = [mkNode "1" "A" None].
Proof.
  intros nodesData. unfold BuilderLoader.uniqueNodes.
  pose proof (DedupFacts.lastWins_keys nodesData) as Hk2.
  pose proof (DedupFacts.firstWins_keys nodesData) as Hk1.
  assert (Hnd2 : NoDup (JsMap.keys
            (fold_left (fun m node => JsMap.set (id node) node m) nodesData [])))
    by (rewrite Hk2; apply NoDup_distinct).
  assert (Hnd1 : NoDup (JsMap.keys (DirectLoader.uniqueNodes nodesData)))
    by (rewrite Hk1; apply NoDup_distinct).
  repeat split.
  - rewrite (DedupFacts.keyed_ids _ (rev nodesData)); auto.
    intros k. apply DedupFacts.lastWins_get.
  - rewrite (DedupFacts.keyed_ids _ (rev nodesData)); auto.
    intros k. apply DedupFacts.lastWins_get.
  - apply DedupFacts.keyed_values; auto.
    intros k. apply DedupFacts.lastWins_get.
  - apply DedupFacts.keyed_values; auto.
    intros k. apply DedupFacts.lastWins_get.
  - rewrite (DedupFacts.keyed_ids _ nodesData); auto.
    intros k. apply DedupFacts.firstWins_get.
  - rewrite (DedupFacts.keyed_ids _ nodesData); auto.
    intros k. apply DedupFacts.firstWins_get.
  - apply DedupFacts.keyed_values; auto.
    intros k. apply DedupFacts.firstWins_get.
  - apply DedupFacts.keyed_values; auto.
    intros k. apply DedupFacts.firstWins_get.
  - intros clearsGraph st edgesData.
    rewrite ChunkLoopFacts.chunkLoop_map; [reflexivity|].
    unfold ChunkedLoader.chunkSize. lia.
Qed.

(** C2 as stated fails on [updateGraph]: of two records with id "1" it keeps
    the one of type "A", not the later one of type "B". *)
Lemma updateGraph_dedup_keeps_first_record :
  JsMap.values
    (DirectLoader.uniqueNodes [mkNode "1" "A" None; mkNode "1" "B" None])
  = [mkNode "1" "A" None]
  /\ ~ (exists n,
          In n (JsMap.values
                  (DirectLoader.uniqueNodes
                     [mkNode "1" "A" None; mkNode "1" "B" None]))
          /\ id n = "1" /\ type n = "B").
Proof.
  split; [reflexivity|].
  intros [n [[H|[]] [_ Ht]]]. subst n. discriminate Ht.
Qed.

(** ** Consolidation of edge records *)
Module ConsolidationFacts.
Import JsMap JsMapFacts DirectLoader.

Lemma consolidatedEdges_snoc (l : list EdgeData) (e : EdgeData) :
  consolidatedEdges (l ++ [e]) =
  if has (edgeKey e) (consolidatedEdges l)
  then update (edgeKey e) countUp (consolidatedEdges l)
  else set (edgeKey e) (mkConsolidated (source e) (target e) 1 (edgeType e))
         (consolidatedEdges l).
Proof. unfold consolidatedEdges. now rewrite fold_left_app. Qed.

Lemma consolidatedEdges_keys (l : list EdgeData) :
  keys (consolidatedEdges l) = distinct (map edgeKey l).
Proof.
  induction l as [|e l IH] using rev_ind; [reflexivity|].
  rewrite consolidatedEdges_snoc, map_app. simpl. rewrite distinct_snoc.
  rewrite <- existsb_distinct, <- IH, <- has_keys.
  destruct (has (edgeKey e) (consolidatedEdges l)) eqn:H.
  - apply keys_update.
  - now rewrite keys_set, H.
Qed.

Lemma consolidatedEdges_get (l : list EdgeData) (k : string) :
  get k (consolidatedEdges l) =
  match find (fun e => String.eqb (edgeKey e) k) l with
  | Some first =>
      Some (mkConsolidated (source first) (target first)
              (List.length (filter (fun e => String.eqb (edgeKey e) k) l))
              (edgeType first))
  | None => None
  end.
Proof.
  induction l as [|e l IH] using rev_ind; [reflexivity|].
  rewrite consolidatedEdges_snoc, find_snoc, filter_snoc, length_app.
  unfold has.
  destruct (String.eqb (edgeKey e) k) eqn:E.
  - apply String.eqb_eq in E. subst k. rewrite IH.
    destruct (find (fun e0 => String.eqb (edgeKey e0) (edgeKey e)) l) eqn:F.
    + rewrite get_update, String.eqb_refl, IH. reflexivity.
    + rewrite get_set, String.eqb_refl.
      rewrite (find_None_filter _ _ F). reflexivity.
  - assert (Hk : String.eqb k (edgeKey e) = false)
      by (now rewrite String.eqb_sym).
    simpl. rewrite Nat.add_0_r.
    destruct (get (edgeKey e) (consolidatedEdges l)).
    + rewrite get_update, Hk, IH.
      now destruct (find (fun e0 => String.eqb (edgeKey e0) k) l).
    + rewrite get_set, Hk, IH.
      now destruct (find (fun e0 => String.eqb (edgeKey e0) k) l).
Qed.


End ConsolidationFacts.




(** C10.  The consolidation key is the concatenation of source, "-" and
    target.  The consolidated entries are the distinct concatenated keys of
    the input in first-seen order, and two records end up in one entry of
    count 2 exactly when their concatenated keys are equal.  The records
    ("a", "b-c") and ("a-b", "c") have different endpoint pairs and the same
    key "a-b-c": they are consolidated into one edge from "a" to "b-c" with
    count 2. *)
Theorem consolidation_key_is_concatenation :
  (forall e : EdgeData,
     DirectLoader.edgeKey e = String.append (source e) (String.append "-" (target e)))
  /\
  (forall edgesData : list EdgeData,
     JsMap.keys (DirectLoader.consolidatedEdges edgesData)
     = distinct (map DirectLoader.edgeKey edgesData))
  /\
  (forall e1 e2 : EdgeData,
     DirectLoader.consolidatedEdges [e1; e2]
     = [(DirectLoader.edgeKey e1,
         DirectLoader.mkConsolidated (source e1) (target e1) 2 (edgeType e1))]
     <-> DirectLoader.edgeKey e1 = DirectLoader.edgeKey e2)
  /\
  (DirectLoader.consolidatedEdges [mkEdge "a" "b-c" None; mkEdge "a-b" "c" None]
   = [("a-b-c", DirectLoader.mkConsolidated "a" "b-c" 2 None)]
   /\ ("a", "b-c") <> ("a-b", "c")).
Proof.
  split; [reflexivity|].
  split; [exact ConsolidationFacts.consolidatedEdges_keys|].
  split; [|split; [reflexivity|discriminate]].
  intros e1 e2. unfold DirectLoader.consolidatedEdges. simpl.
  unfold JsMap.has. simpl.
  destruct (String.eqb (DirectLoader.edgeKey e2) (DirectLoader.edgeKey e1)) eqn:E;
    simpl; rewrite ?E.
  - apply String.eqb_eq in E. split; [now intros _|]. intros _. reflexivity.
  - apply String.eqb_neq in E. split; [discriminate|]. intros H. congruence.
Qed.

(** ** Colour assignment *)
Module ColourFacts.
Import JsMap JsMapFacts.

Lemma set_absent {V : Type} (k : string) (v : V) (m : JsMap.t V) :
  get k m = None -> set k v m = m ++ [(k, v)].
Proof.
  induction m as [|[k0 v0] m IH]; simpl; [reflexivity|].
  destruct (String.eqb k k0); [discriminate|].
  intros H. now rewrite IH.
Qed.

Section Palette.
Variable palette : list string.
Hypothesis palette_truthy : forall i, truthy (paletteAt palette i) = true.

Lemma keys_paint (i : nat) (ks : list string) : keys (paint palette i ks) = ks.
Proof.
  revert i. induction ks as [|k ks IH]; intros i; simpl; [reflexivity|].
  f_equal. apply IH.
Qed.

Lemma length_paint (i : nat) (ks : list string) :
  List.length (paint palette i ks) = List.length ks.
Proof. now rewrite <- (keys_paint i ks) at 2; unfold keys; rewrite length_map. Qed.

Lemma paint_snoc (i : nat) (ks : list string) (k : string) :
  paint palette i (ks ++ [k])
  = paint palette i ks ++ [(k, paletteAt palette (i + List.length ks))].
Proof.
  revert i. induction ks as [|k0 ks IH]; intros i; simpl.
  - now rewrite Nat.add_0_r.
  - rewrite IH, Nat.add_succ_r. reflexivity.
Qed.

Lemma get_paint (i : nat) (ks : list string) (t : string) :
  get t (paint palette i ks) = None \/
  exists c, get t (paint palette i ks) = Some c /\ truthy c = true.
Proof.
  revert i. induction ks as [|k ks IH]; intros i; simpl; [now left|].
  destruct (String.eqb t k); [|apply IH].
  right. eexists. split; [reflexivity|apply palette_truthy].
Qed.

Lemma get_paint_In (i : nat) (ks : list string) (t : string) :
  get t (paint palette i ks) = None <-> ~ In t ks.
Proof.
  rewrite <- (keys_paint i ks) at 2. split; [apply get_None_keys|].
  intros H. destruct (get t (paint palette i ks)) eqn:G; [|reflexivity].
  exfalso. apply H. apply get_In in G.
  change t with (fst (t, s)). now apply in_map.
Qed.


(** One more category: it extends the painted map exactly when it is new. *)
Lemma paint_step (ts : list string) (t : string) :
  (if falsy (get t (paint palette 0 (distinct ts)))
   then set t (paletteAt palette (List.length (distinct ts)))
          (paint palette 0 (distinct ts))
   else paint palette 0 (distinct ts))
  = paint palette 0 (distinct (ts ++ [t])).
Proof.
  rewrite distinct_snoc.
  destruct (existsb (String.eqb t) ts) eqn:E.
  - assert (Hin : In t (distinct ts))
      by (now apply In_distinct, existsb_eqb_In).
    destruct (get_paint 0 (distinct ts) t) as [G|[c [G Hc]]].
    + now apply get_paint_In in G.
    + rewrite G. simpl. now rewrite Hc.
  - assert (G : get t (paint palette 0 (distinct ts)) = None).
    { apply get_paint_In. rewrite In_distinct, <- existsb_eqb_In. congruence. }
    rewrite G. simpl. now rewrite (set_absent _ _ _ G), paint_snoc.
Qed.

(** The same step as the program takes it: a name of [Object.prototype] is
    read as set and leaves the map as it is. *)
Lemma paint_step_guarded (ts : list string) (t : string) :
  (if unset t (paint palette 0 (distinct (filter ordinary ts)))
   then set t (paletteAt palette (List.length (distinct (filter ordinary ts))))
          (paint palette 0 (distinct (filter ordinary ts)))
   else paint palette 0 (distinct (filter ordinary ts)))
  = paint palette 0 (distinct (filter ordinary (ts ++ [t]))).
Proof.
  rewrite filter_app. cbn [filter].
  change (ordinary t) with (negb (inherited t)).
  destruct (inherited t) eqn:I; cbn [negb].
  - rewrite app_nil_r.
    assert (G : get t (paint palette 0 (distinct (filter ordinary ts))) = None).
    { apply get_paint_In. rewrite In_distinct, filter_In.
      unfold ordinary. rewrite I. intros [_ H]. discriminate H. }
    unfold unset, lookup. now rewrite G, I.
  - rewrite <- paint_step. unfold unset, lookup, falsy.
    destruct (get t (paint palette 0 (distinct (filter ordinary ts))));
      [reflexivity|]. now rewrite I.
Qed.

End Palette.

Lemma paletteAt_truthy (i : nat) : truthy (paletteAt colors i) = true.
Proof.
  unfold paletteAt.
  assert (H : i mod List.length colors < List.length colors)
    by (apply Nat.mod_upper_bound; discriminate).
  simpl List.length in *.
  destruct (i mod 10) as [|n]; [reflexivity|].
  do 9 (destruct n as [|n]; [reflexivity|]). lia.
Qed.

Lemma colorPalette_truthy (i : nat) : truthy (paletteAt colorPalette i) = true.
Proof.
  unfold paletteAt.
  assert (H : i mod List.length colorPalette < List.length colorPalette)
    by (apply Nat.mod_upper_bound; discriminate).
  simpl List.length in *.
  destruct (i mod 16) as [|n]; [reflexivity|].
  do 15 (destruct n as [|n]; [reflexivity|]). lia.
Qed.

(** Reading a name that is no member of [Object.prototype]. *)
Lemma unset_ordinary (t : string) (m : JsMap.t string) :
  inherited t = false -> unset t m = falsy (get t m).
Proof.
  intros I. unfold unset, lookup, falsy.
  destruct (get t m); [reflexivity|]. now rewrite I.
Qed.

Lemma unset_inherited (t : string) (m : JsMap.t string) :
  inherited t = true -> get t m = None -> unset t m = false.
Proof. intros I G. unfold unset, lookup. now rewrite G, I. Qed.


(** The colour fold over a list of categories, in closed form. *)
Lemma assignColor_closed (ts : list string) :
  fold_left assignColor ts ([], 0) =
  (paint colors 0 (distinct (filter ordinary ts)),
   List.length (distinct (filter ordinary ts))).
Proof.
  induction ts as [|t ts IH] using rev_ind; [reflexivity|].
  rewrite fold_left_app, IH. cbn [fold_left assignColor].
  rewrite <- (length_paint colors 0 (distinct (filter ordinary (ts ++ [t])))).
  rewrite <- (paint_step_guarded colors paletteAt_truthy ts t).
  destruct (unset t (paint colors 0 (distinct (filter ordinary ts)))) eqn:F.
  - f_equal.
    assert (G : get t (paint colors 0 (distinct (filter ordinary ts))) = None).
    { destruct (get_paint colors paletteAt_truthy 0
                  (distinct (filter ordinary ts)) t)
        as [G|[c [G Hc]]]; [exact G|].
      unfold unset, lookup in F. rewrite G in F. simpl in F.
      rewrite Hc in F. discriminate F. }
    rewrite (set_absent _ _ _ G), length_app, length_paint. simpl.
    now rewrite Nat.add_comm.
  - now rewrite length_paint.
Qed.

Lemma getTypeColorMap_closed (nodesData : list NodeData) :
  ChunkedLoader.getTypeColorMap nodesData
  = paint colors 0 (distinct (filter ordinary (map type nodesData))).
Proof.
  unfold ChunkedLoader.getTypeColorMap.
  replace (fold_left (fun st node => assignColor st (type node)) nodesData ([], 0))
    with (fold_left assignColor (map type nodesData) ([], 0)).
  - now rewrite assignColor_closed.
  - generalize (@nil (string * string), 0).
    induction nodesData as [|n l IH]; intros st; simpl; [reflexivity|apply IH].
Qed.



(** What a category reads as, once it reads as set, is not changed by a
    later category. *)
Lemma assignColor_lookup_kept (st : JsMap.t string * nat) (t t' : string) :
  truthyValue (lookup t (fst st)) = true ->
  lookup t (fst (assignColor st t')) = lookup t (fst st).
Proof.
  destruct st as [m i]. simpl. intros H.
  destruct (unset t' m) eqn:F; simpl; [|reflexivity].
  unfold lookup at 1. rewrite get_set.
  destruct (String.eqb t t') eqn:E; [|reflexivity].
  apply String.eqb_eq in E. subst t'. unfold unset in F.
  rewrite H in F. discriminate F.
Qed.

(** After its own step a category reads as set. *)
Lemma assignColor_lookup (st : JsMap.t string * nat) (t : string) :
  truthyValue (lookup t (fst (assignColor st t))) = true.
Proof.
  destruct st as [m i]. simpl.
  destruct (unset t m) eqn:F; simpl.
  - unfold lookup. rewrite get_set, String.eqb_refl. apply paletteAt_truthy.
  - unfold unset in F. now destruct (truthyValue (lookup t m)).
Qed.


Lemma colourFold_lookup_kept (l : list NodeData) (st : JsMap.t string * nat)
  (t : string) :
  truthyValue (lookup t (fst st)) = true ->
  lookup t (fst (fold_left (fun st node => assignColor st (type node)) l st))
  = lookup t (fst st).
Proof.
  revert st. induction l as [|n l IH]; intros st H; simpl; [reflexivity|].
  rewrite IH; rewrite assignColor_lookup_kept; auto.
Qed.

End ColourFacts.


(** ** Graph operations *)
Section GraphFacts.
Context {NT ET : Type}.

Lemma find_existsb {A : Type} (p : A -> bool) (l : list A) :
  existsb p l = match find p l with Some _ => true | None => false end.
Proof.
  induction l as [|a l IH]; simpl; [reflexivity|].
  destruct (p a); [reflexivity|exact IH].
Qed.

Lemma isNode_In (g : IGraph NT ET) (n : INode NT) :
  In n (nodes g) -> isNode g (nref n) = true.
Proof.
  intros H. unfold isNode. apply existsb_exists. exists n.
  split; [assumption|apply Nat.eqb_refl].
Qed.

Lemma relabel_last_node (ns : list (INode NT)) (r : nat) (tag : NT)
  (style : NodeStyle) (text : string) :
  (forall n, In n ns -> nref n < r) ->
  map (fun n => if nref n =? r
                then mkINode (nref n) (ntag n) (nstyle n) (nlabels n ++ [text])
                else n)
    (ns ++ [mkINode r tag style []])
  = ns ++ [mkINode r tag style [text]].
Proof.
  intros H. rewrite map_app. simpl. rewrite Nat.eqb_refl. f_equal.
  rewrite <- (map_id ns) at 2. apply map_ext_in. intros n Hn.
  destruct (nref n =? r) eqn:E; [|reflexivity].
  apply Nat.eqb_eq in E. specialize (H n Hn). lia.
Qed.

Lemma relabel_last_edge (es : list (IEdge ET)) (r s t : nat) (tag : ET)
  (text : string) :
  (forall e, In e es -> eref e < r) ->
  map (fun e => if eref e =? r
                then mkIEdge (eref e) (esource e) (etarget e) (etag e)
                       (elabels e ++ [text])
                else e)
    (es ++ [mkIEdge r s t tag []])
  = es ++ [mkIEdge r s t tag [text]].
Proof.
  intros H. rewrite map_app. simpl. rewrite Nat.eqb_refl. f_equal.
  rewrite <- (map_id es) at 2. apply map_ext_in. intros e He.
  destruct (eref e =? r) eqn:E; [|reflexivity].
  apply Nat.eqb_eq in E. specialize (H e He). lia.
Qed.

End GraphFacts.

(** ** The direct loader *)
Module DirectFacts.
Import DirectLoader.

(** The node loop never throws and appends exactly [paintedNodes]. *)
Lemma node_loop (l : list NodeData) :
  forall (palette : JsMap.t string * nat) (g : IGraph NodeData ConsolidatedEdge),
    (forall n, In n (nodes g) -> nref n < fresh g) ->
    forEachM createNodeFor l (palette, g) =
    Some (fold_left (fun st node => assignColor st (type node)) l palette,
          mkIGraph (nodes g ++ paintedNodes palette (fresh g) l) (edges g)
            (fresh g + List.length l)).
Proof.
  induction l as [|node l IH]; intros palette g Hfresh; simpl.
  - rewrite app_nil_r, Nat.add_0_r. now destruct g.
  - unfold createNodeFor at 1. unfold createNode, addNodeLabel. simpl.
    assert (Hnode : isNode
              (mkIGraph
                 (nodes g ++
                  [mkINode (fresh g) node
                     (shapeNodeStyle
                        (lookup (type node)
                           (fst (assignColor palette (type node))))) []])
                 (edges g) (S (fresh g))) (fresh g) = true).
    { unfold isNode. simpl. rewrite existsb_app. simpl.
      rewrite Nat.eqb_refl. apply orb_true_iff. right. reflexivity. }
    rewrite Hnode. simpl. rewrite relabel_last_node by assumption.
    rewrite IH.
    + simpl. rewrite <- app_assoc. simpl. do 3 f_equal. lia.
    + simpl. intros n Hn. apply in_app_or in Hn. destruct Hn as [Hn|[<-|[]]].
      * specialize (Hfresh n Hn). lia.
      * simpl. lia.
Qed.

Lemma paintedNodes_tags (l : list NodeData) :
  forall palette r, map ntag (paintedNodes palette r l) = l.
Proof.
  induction l as [|node l IH]; intros palette r; simpl; [reflexivity|].
  now rewrite IH.
Qed.

Lemma paintedNodes_length (l : list NodeData) :
  forall palette r, List.length (paintedNodes palette r l) = List.length l.
Proof.
  induction l as [|node l IH]; intros palette r; simpl; [reflexivity|].
  now rewrite IH.
Qed.

(** Every node is styled with what its type reads as in the finished map. *)
Lemma paintedNodes_style (l : list NodeData) :
  forall palette r n,
    In n (paintedNodes palette r l) ->
    nstyle n
    = shapeNodeStyle
        (lookup (type (ntag n))
           (fst (fold_left (fun st node => assignColor st (type node)) l palette)))
    /\ truthyValue
         (lookup (type (ntag n))
            (fst (fold_left (fun st node => assignColor st (type node)) l palette)))
       = true.
Proof.
  induction l as [|node l IH]; intros palette r n Hn;
    cbn [paintedNodes fold_left In] in *; [tauto|].
  destruct Hn as [<-|Hn]; [|now apply (IH _ (S r))].
  cbn [nstyle ntag].
  rewrite ColourFacts.colourFold_lookup_kept
    by apply ColourFacts.assignColor_lookup.
  split; [reflexivity|apply ColourFacts.assignColor_lookup].
Qed.

(** Every node whose type is no name of [Object.prototype] is filled with
    the colour its type has in the finished map. *)
Lemma paintedNodes_fill (l : list NodeData) :
  forall palette r n,
    In n (paintedNodes palette r l) ->
    inherited (type (ntag n)) = false ->
    exists c,
      nstyle n = ShapeNodeStyle c
      /\ JsMap.get (type (ntag n))
           (fst (fold_left (fun st node => assignColor st (type node)) l palette))
         = Some c.
Proof.
  intros palette r n Hn I.
  destruct (paintedNodes_style l palette r n Hn) as [Hs Ht].
  unfold lookup in Hs, Ht. rewrite I in Hs, Ht.
  destruct (JsMap.get (type (ntag n)) _) as [c|]; [|discriminate Ht].
  exists c. now split.
Qed.

(** The edge loop never throws and appends exactly [attachedEdges]. *)
Lemma edge_loop (l : list ConsolidatedEdge) :
  forall g : IGraph NodeData ConsolidatedEdge,
    (forall e, In e (edges g) -> eref e < fresh g) ->
    forEachM createEdgeFor l g =
    Some (mkIGraph (nodes g)
            (edges g ++ attachedEdges (nodes g) (fresh g) l)
            (fresh g + List.length (attachedEdges (nodes g) (fresh g) l))).
Proof.
  induction l as [|edge l IH]; intros g Hfresh; simpl.
  - rewrite app_nil_r, Nat.add_0_r. now destruct g.
  - unfold createEdgeFor at 1.
    destruct (find (fun node => String.eqb (id (ntag node)) (c_source edge))
                (nodes g)) as [s|] eqn:Fs;
      [destruct (find (fun node => String.eqb (id (ntag node)) (c_target edge))
                   (nodes g)) as [t|] eqn:Ft|];
      simpl; try (now apply IH).
    unfold createEdge.
    rewrite (isNode_In g s) by (now apply find_some in Fs).
    rewrite (isNode_In g t) by (now apply find_some in Ft).
    simpl. unfold addEdgeLabel, isEdge. simpl.
    rewrite existsb_app. simpl. rewrite Nat.eqb_refl, orb_true_r. simpl.
    rewrite relabel_last_edge by assumption.
    rewrite IH.
    + simpl. rewrite <- app_assoc. simpl. do 2 f_equal. lia.
    + simpl. intros e He. apply in_app_or in He. destruct He as [He|[<-|[]]].
      * specialize (Hfresh e He). lia.
      * simpl. lia.
Qed.

Lemma attachedEdges_tags (ns : list (INode NodeData)) (l : list ConsolidatedEdge) :
  forall r, map etag (attachedEdges ns r l) = filter (endsPresent ns) l.
Proof.
  induction l as [|edge l IH]; intros r; simpl; [reflexivity|].
  unfold endsPresent at 1. rewrite !find_existsb.
  destruct (find (fun node => String.eqb (id (ntag node)) (c_source edge)) ns);
    [destruct (find (fun node => String.eqb (id (ntag node)) (c_target edge)) ns)|];
    simpl; now rewrite IH.
Qed.

End DirectFacts.

(** ** The builder revision *)
Module BuilderFacts.
Import JsMap JsMapFacts.



Lemma getColorForType_keeps (typeColors : JsMap.t string) (t t' c : string) :
  get t typeColors = Some c -> truthy c = true ->
  get t (fst (BuilderLoader.getColorForType typeColors t')) = Some c.
Proof.
  intros G Hc. unfold BuilderLoader.getColorForType. simpl.
  destruct (unset t' typeColors) eqn:F; [|assumption].
  rewrite get_set. destruct (String.eqb t t') eqn:E; [|assumption].
  apply String.eqb_eq in E. subst t'.
  unfold unset, lookup in F. rewrite G in F. simpl in F.
  now rewrite Hc in F.
Qed.

(** What a category reads as, once it reads as set, is not changed by a
    later call. *)
Lemma getColorForType_lookup_kept (typeColors : JsMap.t string)
  (t t' : string) :
  truthyValue (lookup t typeColors) = true ->
  lookup t (fst (BuilderLoader.getColorForType typeColors t'))
  = lookup t typeColors.
Proof.
  intros H. unfold BuilderLoader.getColorForType. cbn [fst].
  destruct (unset t' typeColors) eqn:F; [|reflexivity].
  unfold lookup at 1. rewrite get_set.
  destruct (String.eqb t t') eqn:E; [|reflexivity].
  apply String.eqb_eq in E. subst t'. unfold unset in F.
  rewrite H in F. discriminate F.
Qed.

(** The answer of a call reads as set, and it is what the category reads as
    in the map the call leaves. *)
Lemma getColorForType_lookup (typeColors : JsMap.t string) (t : string) :
  snd (BuilderLoader.getColorForType typeColors t)
  = lookup t (fst (BuilderLoader.getColorForType typeColors t))
  /\ truthyValue (snd (BuilderLoader.getColorForType typeColors t)) = true.
Proof.
  unfold BuilderLoader.getColorForType. cbn [fst snd].
  split; [reflexivity|].
  destruct (unset t typeColors) eqn:F.
  - unfold lookup. rewrite get_set, String.eqb_refl.
    apply ColourFacts.colorPalette_truthy.
  - unfold unset in F. now destruct (truthyValue (lookup t typeColors)).
Qed.

Lemma typeColors_lookup_kept (l : list NodeData) :
  forall (typeColors : JsMap.t string) (t : string),
    truthyValue (lookup t typeColors) = true ->
    lookup t (fold_left (fun s data => fst (BuilderLoader.nodeCreated s data))
                l typeColors)
    = lookup t typeColors.
Proof.
  induction l as [|data l IH]; intros typeColors t H; cbn [fold_left];
    [reflexivity|].
  assert (E : fst (BuilderLoader.nodeCreated typeColors data)
              = fst (BuilderLoader.getColorForType typeColors (type data)))
    by (unfold BuilderLoader.nodeCreated;
        now destruct (BuilderLoader.getColorForType typeColors (type data))).
  rewrite IH; rewrite E, getColorForType_lookup_kept; auto.
Qed.



End BuilderFacts.

(** [updateGraph] in closed form: it never throws, and the graph it leaves
    is determined by the two inputs alone. *)
Lemma updateGraph_closed (colorToString : string -> string)
  (st : DirectLoader.State) (nodesData : list NodeData)
  (edgesData : list EdgeData) :
  let U := JsMap.values (DirectLoader.uniqueNodes nodesData) in
  let C := JsMap.values (DirectLoader.consolidatedEdges edgesData) in
  let ns := DirectLoader.paintedNodes ([], 0) 0 U in
  let es := DirectLoader.attachedEdges ns (List.length U) C in
  let G := mkIGraph ns es (List.length U + List.length es) in
  DirectLoader.updateGraph colorToString st nodesData edgesData
  = Some (DirectLoader.mkState G
            (DirectLoader.createLegend colorToString G (DirectLoader.body st))
            (DirectLoader.view st ++ [FitGraphBounds])).
Proof.
  intros U C ns es G. unfold DirectLoader.updateGraph.
  rewrite DirectFacts.node_loop by (simpl; tauto). simpl.
  rewrite DirectFacts.edge_loop by (simpl; tauto). simpl.
  reflexivity.
Qed.




(** C7.  [updateGraph] never throws, and it materialises an edge for a
    consolidated edge exactly when both its source id and its target id match
    the id of a node of the graph: the edges of the result carry, in order,
    the consolidated edges with both ends present.  A consolidated edge with
    an unmatched end has no edge in the graph. *)
Theorem dangling_edges_are_dropped :
  forall (colorToString : string -> string) (st : DirectLoader.State)
         (nodesData : list NodeData) (edgesData : list EdgeData),
  exists st',
    DirectLoader.updateGraph colorToString st nodesData edgesData = Some st'
    /\ map ntag (nodes (DirectLoader.graph st'))
       = JsMap.values (DirectLoader.uniqueNodes nodesData)
    /\ map etag (edges (DirectLoader.graph st'))
       = filter (DirectLoader.endsPresent (nodes (DirectLoader.graph st')))
           (JsMap.values (DirectLoader.consolidatedEdges edgesData))
    /\ forall edge,
         In edge (JsMap.values (DirectLoader.consolidatedEdges edgesData)) ->
         (existsb (fun node => String.eqb (id (ntag node))
                                 (DirectLoader.c_source edge))
            (nodes (DirectLoader.graph st')) = false
          \/ existsb (fun node => String.eqb (id (ntag node))
                                    (DirectLoader.c_target edge))
               (nodes (DirectLoader.graph st')) = false) ->
         ~ exists e, In e (edges (DirectLoader.graph st')) /\ etag e = edge.
Proof.
  intros colorToString st nodesData edgesData. eexists.
  split; [apply updateGraph_closed|]. simpl.
  split; [apply DirectFacts.paintedNodes_tags|].
  split; [apply DirectFacts.attachedEdges_tags|].
  intros edge _ Hmiss [e [He Htag]].
  assert (Hin : In edge
                  (map etag
                     (DirectLoader.attachedEdges
                        (DirectLoader.paintedNodes ([], 0) 0
                           (JsMap.values (DirectLoader.uniqueNodes nodesData)))
                        (List.length
                           (JsMap.values (DirectLoader.uniqueNodes nodesData)))
                        (JsMap.values
                           (DirectLoader.consolidatedEdges edgesData)))))
    by (rewrite <- Htag; now apply in_map).
  rewrite DirectFacts.attachedEdges_tags in Hin.
  apply filter_In in Hin. destruct Hin as [_ Hp].
  unfold DirectLoader.endsPresent in Hp. apply andb_true_iff in Hp.
  destruct Hp as [Hs Ht]. destruct Hmiss; congruence.
Qed.

Lemma dangling_edges_witness :
  exists st',
    DirectLoader.updateGraph (fun c => c) DirectLoader.initial
      [mkNode "1" "A" None; mkNode "2" "B" None]
      [mkEdge "1" "2" None; mkEdge "1" "3" None]
    = Some st'
    /\ ~ exists e, In e (edges (DirectLoader.graph st'))
                   /\ etag e = DirectLoader.mkConsolidated "1" "3" 1 None.
Proof.
  destruct (dangling_edges_are_dropped (fun c => c) DirectLoader.initial
              [mkNode "1" "A" None; mkNode "2" "B" None]
              [mkEdge "1" "2" None; mkEdge "1" "3" None])
    as [st' [Hrun [Htags [_ Hdrop]]]].
  exists st'. split; [exact Hrun|].
  apply Hdrop.
  - simpl. right. left. reflexivity.
  - right. vm_compute in Hrun. injection Hrun as <-. reflexivity.
Defined.

(** ** The legend in the document *)
Section LegendFacts.

Lemma detach_absent (i : string) (body : list Element) :
  countId i body = 0 -> detach i body = body.
Proof.
  unfold countId. induction body as [|e body IH]; simpl; [reflexivity|].
  destruct (String.eqb (elId e) i); simpl; [discriminate|].
  intros H. now rewrite IH.
Qed.

Lemma countId_detach (i : string) (body : list Element) :
  countId i (detach i body) = pred (countId i body).
Proof.
  unfold countId. induction body as [|e body IH]; simpl; [reflexivity|].
  destruct (String.eqb (elId e) i) eqn:E; simpl; [reflexivity|].
  now rewrite E.
Qed.

Lemma detach_appended (i : string) (r : list (string * string))
  (body : list Element) :
  countId i body = 0 -> detach i (body ++ [mkElement i r]) = body.
Proof.
  unfold countId. induction body as [|e body IH]; simpl.
  - now rewrite String.eqb_refl.
  - destruct (String.eqb (elId e) i); simpl; [discriminate|].
    intros H. now rewrite IH.
Qed.

Lemma getElementById_appended (i : string) (r : list (string * string))
  (body : list Element) :
  countId i body = 0 ->
  getElementById i (body ++ [mkElement i r]) = Some (mkElement i r).
Proof.
  unfold countId, getElementById. induction body as [|e body IH]; simpl.
  - now rewrite String.eqb_refl.
  - destruct (String.eqb (elId e) i); simpl; [discriminate|exact IH].
Qed.

Lemma countId_appended (i : string) (r : list (string * string))
  (body : list Element) :
  countId i (body ++ [mkElement i r]) = countId i body + 1.
Proof.
  unfold countId. rewrite filter_app, length_app. simpl.
  now rewrite String.eqb_refl.
Qed.

(** Replacing the legend [i] of a document that holds at most one. *)
Lemma legend_replaced (i : string) (r1 r2 : list (string * string))
  (body : list Element) :
  countId i body <= 1 ->
  appendChild (mkElement i r2)
    (detach i (appendChild (mkElement i r1) (detach i body)))
  = appendChild (mkElement i r2) (detach i body)
  /\ getElementById i (appendChild (mkElement i r2) (detach i body))
     = Some (mkElement i r2)
  /\ countId i (appendChild (mkElement i r2) (detach i body)) = 1.
Proof.
  intros H. unfold appendChild.
  assert (H0 : countId i (detach i body) = 0)
    by (rewrite countId_detach; lia).
  repeat split.
  - now rewrite detach_appended.
  - now apply getElementById_appended.
  - rewrite countId_appended. lia.
Qed.

End LegendFacts.

(** C9.  The legend deriver is idempotent and replaces the previous legend.
    In a document with at most one legend element, [createLegend] called
    twice for the same graph (resp. node list) leaves the document of the
    first call; called after a legend for other data was rendered, it leaves
    the document it would have left without that earlier rendering; and
    afterwards the document holds exactly one legend element, whose rows are
    the (category, colour) pairs derived from the current data. *)
Theorem legend_is_idempotent_and_replaced :
  forall body : list Element,
    countId DirectLoader.legendId body <= 1 ->
    (forall (colorToString : string -> string)
            (g previous : IGraph NodeData DirectLoader.ConsolidatedEdge),
       DirectLoader.createLegend colorToString g
         (DirectLoader.createLegend colorToString g body)
       = DirectLoader.createLegend colorToString g body
       /\ DirectLoader.createLegend colorToString g
            (DirectLoader.createLegend colorToString previous body)
          = DirectLoader.createLegend colorToString g body
       /\ getElementById DirectLoader.legendId
            (DirectLoader.createLegend colorToString g body)
          = Some (mkElement DirectLoader.legendId
                    (JsObject.entries (DirectLoader.legendRows colorToString g)))
       /\ countId DirectLoader.legendId
            (DirectLoader.createLegend colorToString g body) = 1)
    /\
    (forall nodesData previous : list NodeData,
       ChunkedLoader.createLegend nodesData
         (ChunkedLoader.createLegend nodesData body)
       = ChunkedLoader.createLegend nodesData body
       /\ ChunkedLoader.createLegend nodesData
            (ChunkedLoader.createLegend previous body)
          = ChunkedLoader.createLegend nodesData body
       /\ getElementById ChunkedLoader.legendId
            (ChunkedLoader.createLegend nodesData body)
          = Some (mkElement ChunkedLoader.legendId
                    (JsObject.entries (ChunkedLoader.getTypeColorMap nodesData)))
       /\ countId ChunkedLoader.legendId
            (ChunkedLoader.createLegend nodesData body) = 1).
Proof.
  intros body H. split.
  - intros colorToString g previous. unfold DirectLoader.createLegend.
    destruct (legend_replaced DirectLoader.legendId
                (JsObject.entries (DirectLoader.legendRows colorToString g))
                (JsObject.entries (DirectLoader.legendRows colorToString g))
                body H)
      as [Hidem [Hfound Hone]].
    destruct (legend_replaced DirectLoader.legendId
                (JsObject.entries
                   (DirectLoader.legendRows colorToString previous))
                (JsObject.entries (DirectLoader.legendRows colorToString g))
                body H)
      as [Hrepl _].
    auto.
  - intros nodesData previous. unfold ChunkedLoader.createLegend.
    destruct (legend_replaced ChunkedLoader.legendId
                (JsObject.entries (ChunkedLoader.getTypeColorMap nodesData))
                (JsObject.entries (ChunkedLoader.getTypeColorMap nodesData))
                body H)
      as [Hidem [Hfound Hone]].
    destruct (legend_replaced ChunkedLoader.legendId
                (JsObject.entries (ChunkedLoader.getTypeColorMap previous))
                (JsObject.entries (ChunkedLoader.getTypeColorMap nodesData))
                body H)
      as [Hrepl _].
    auto.
Qed.

Lemma legend_witness :
  countId DirectLoader.legendId
    [mkElement "node-type-legend" [("Old", "#000000")]] <= 1
  /\ getElementById ChunkedLoader.legendId
       (ChunkedLoader.createLegend
          [mkNode "a" "X" None; mkNode "b" "Y" None]
          [mkElement "node-type-legend" [("Old", "#000000")]])
     = Some (mkElement "node-type-legend"
               [("X", "#ff6f61"); ("Y", "#6b5b95")]).
Proof.
  assert (H : countId DirectLoader.legendId
                [mkElement "node-type-legend" [("Old", "#000000")]] <= 1)
    by (vm_compute; lia).
  split; [exact H|].
  destruct (legend_is_idempotent_and_replaced _ H) as [_ Hchunked].
  destruct (Hchunked [mkNode "a" "X" None; mkNode "b" "Y" None] [])
    as [_ [_ [Hfound _]]].
  exact Hfound.
Defined.


(** ** Enumeration of an object's properties *)
Module JsObjectFacts.
Import JsObject.

Lemma insertByIndex_In {V : Type} (i : N) (e : string * V)
  (l : list (N * (string * V))) (x : N * (string * V)) :
  In x (insertByIndex i e l) <-> x = (i, e) \/ In x l.
Proof.
  induction l as [|[j e'] l IH]; simpl; [intuition congruence|].
  destruct (N.ltb i j); simpl; [intuition congruence|].
  rewrite IH. intuition congruence.
Qed.

Lemma indexed_In {V : Type} (o : JsMap.t V) :
  forall (acc : list (N * (string * V))) (x : N * (string * V)),
    In x (fold_left
            (fun acc e =>
               match arrayIndex (fst e) with
               | Some i => insertByIndex i e acc
               | None => acc
               end) o acc)
    <-> In x acc \/ (In (snd x) o /\ arrayIndex (fst (snd x)) = Some (fst x)).
Proof.
  induction o as [|e o IH]; intros acc x; simpl; [tauto|].
  rewrite IH. destruct (arrayIndex (fst e)) as [i|] eqn:E.
  - rewrite insertByIndex_In. split.
    + intros [[->|H]|[H1 H2]]; simpl; auto.
    + intros [H|[[->|H1] H2]]; auto. left. left. destruct x as [j y].
      simpl in *. congruence.
  - split.
    + intros [H|[H1 H2]]; auto.
    + intros [H|[[->|H1] H2]]; auto. congruence.
Qed.

(** Enumerating an object neither loses nor invents a property. *)
Lemma entries_In {V : Type} (o : JsMap.t V) (e : string * V) :
  In e (entries o) <-> In e o.
Proof.
  unfold entries. rewrite in_app_iff, filter_In, in_map_iff. split.
  - intros [[x [<- H]]|[H _]]; [|assumption].
    apply indexed_In in H. destruct H as [[]|[H _]]. assumption.
  - intros H. destruct (arrayIndex (fst e)) as [i|] eqn:E; [|now right].
    left. exists (i, e). split; [reflexivity|].
    apply indexed_In. right. simpl. now split.
Qed.

End JsObjectFacts.

(** [Object.entries] keeps the number of properties, hence also the
    absence of repeated keys. *)
Module JsObjectOrder.
Import JsObject.

Lemma insertByIndex_length {V : Type} (i : N) (e : string * V)
  (l : list (N * (string * V))) :
  List.length (insertByIndex i e l) = Datatypes.S (List.length l).
Proof.
  induction l as [|[j e'] l IH]; simpl; [reflexivity|].
  destruct (N.ltb i j); simpl; [reflexivity|]. now rewrite IH.
Qed.

Lemma indexed_length {V : Type} (o : JsMap.t V) :
  forall acc : list (N * (string * V)),
    List.length
      (fold_left
         (fun acc e =>
            match arrayIndex (fst e) with
            | Some i => insertByIndex i e acc
            | None => acc
            end) o acc)
    + List.length (filter (fun e => match arrayIndex (fst e) with
                                    | Some _ => false
                                    | None => true
                                    end) o)
    = List.length acc + List.length o.
Proof.
  induction o as [|e o IH]; intros acc; simpl; [lia|].
  destruct (arrayIndex (fst e)) as [i|]; simpl.
  - specialize (IH (insertByIndex i e acc)).
    rewrite insertByIndex_length in IH. lia.
  - specialize (IH acc). lia.
Qed.

Lemma entries_length {V : Type} (o : JsMap.t V) :
  List.length (entries o) = List.length o.
Proof.
  unfold entries. rewrite length_app, length_map.
  now rewrite indexed_length.
Qed.

Lemma entries_keys_NoDup {V : Type} (o : JsMap.t V) :
  NoDup (JsMap.keys o) -> NoDup (JsMap.keys (entries o)).
Proof.
  intros H. unfold JsMap.keys in *.
  apply (NoDup_incl_NoDup H).
  - rewrite !length_map, entries_length. lia.
  - intros k Hk. apply in_map_iff in Hk. destruct Hk as [e [<- He]].
    apply in_map. now apply JsObjectFacts.entries_In.
Qed.

End JsObjectOrder.

(** ** The builder in closed form *)
Module BuilderShape.
Import JsMap JsMapFacts.

Section Shape.
Context {St : Type}.
Variable nodeCreated : St -> NodeData -> St * NodeStyle.

Lemma buildNodes_closed (l : list NodeData) :
  forall (s : St) (g : IGraph string EdgeData) (dict : JsMap.t nat),
    fold_left (GraphBuilder.buildNode nodeCreated) l (s, g, dict)
    = (fold_left (fun s data => fst (nodeCreated s data)) l s,
       mkIGraph (nodes g ++ builtNodes nodeCreated s (fresh g) l) (edges g)
         (fresh g + List.length l),
       builtDict dict (fresh g) l).
Proof.
  induction l as [|data l IH]; intros s g dict; simpl.
  - rewrite app_nil_r, Nat.add_0_r. now destruct g.
  - destruct (nodeCreated s data) as [s' style] eqn:E. simpl.
    rewrite IH. simpl. rewrite <- app_assoc. simpl.
    do 3 f_equal. lia.
Qed.

Lemma buildEdges_closed (dict : JsMap.t nat) (l : list EdgeData) :
  forall g : IGraph string EdgeData,
    fold_left (GraphBuilder.buildEdge dict) l g
    = mkIGraph (nodes g) (edges g ++ builtEdges dict (fresh g) l)
        (fresh g + List.length (builtEdges dict (fresh g) l)).
Proof.
  induction l as [|data l IH]; intros g; simpl.
  - rewrite app_nil_r, Nat.add_0_r. now destruct g.
  - unfold GraphBuilder.buildEdge at 2.
    destruct (get (source data) dict) as [s|];
      [destruct (get (target data) dict) as [t|]|];
      try apply IH.
    rewrite IH. simpl. rewrite <- app_assoc. simpl. do 2 f_equal. lia.
Qed.

Lemma buildGraph_closed (clearsGraph : bool) (s : St)
  (g : IGraph string EdgeData) (nodesData : list NodeData)
  (edgesData : list EdgeData) :
  let g0 := if clearsGraph then clear else g in
  let ns := builtNodes nodeCreated s (fresh g0) nodesData in
  let dict := builtDict [] (fresh g0) nodesData in
  let es := builtEdges dict (fresh g0 + List.length nodesData) edgesData in
  GraphBuilder.buildGraph clearsGraph nodeCreated s g nodesData edgesData
  = (fold_left (fun s data => fst (nodeCreated s data)) nodesData s,
     mkIGraph (nodes g0 ++ ns) (edges g0 ++ es)
       (fresh g0 + List.length nodesData + List.length es)).
Proof.
  intros g0 ns dict es. unfold GraphBuilder.buildGraph. fold g0.
  rewrite buildNodes_closed. rewrite buildEdges_closed. reflexivity.
Qed.

Lemma builtNodes_refs (l : list NodeData) :
  forall s r, map nref (builtNodes nodeCreated s r l) = seq r (List.length l).
Proof.
  induction l as [|data l IH]; intros s r; simpl; [reflexivity|].
  now rewrite IH.
Qed.

Lemma builtNodes_tags (l : list NodeData) :
  forall s r, map ntag (builtNodes nodeCreated s r l) = map type l.
Proof.
  induction l as [|data l IH]; intros s r; simpl; [reflexivity|].
  now rewrite IH.
Qed.

Lemma builtNodes_length (l : list NodeData) :
  forall s r, List.length (builtNodes nodeCreated s r l) = List.length l.
Proof.
  intros s r. now rewrite <- (length_map nref), builtNodes_refs, length_seq.
Qed.

End Shape.

(** The dictionary: an id that is set keeps or replaces its identity. *)
Lemma builtDict_other (l : list NodeData) :
  forall dict r k,
    ~ In k (map id l) -> get k (builtDict dict r l) = get k dict.
Proof.
  induction l as [|data l IH]; intros dict r k H; simpl in *; [reflexivity|].
  rewrite IH by tauto. rewrite get_set.
  destruct (String.eqb k (id data)) eqn:E; [|reflexivity].
  apply String.eqb_eq in E. subst. tauto.
Qed.

(** With pairwise distinct ids, the dictionary sends the id of the [i]-th
    item to the [i]-th identity handed out. *)
Lemma builtDict_nth (l : list NodeData) :
  forall dict r i data,
    NoDup (map id l) ->
    nth_error l i = Some data ->
    get (id data) (builtDict dict r l) = Some (r + i).
Proof.
  induction l as [|d l IH]; intros dict r i data Hnd Hi; simpl in *.
  - destruct i; discriminate.
  - inversion Hnd as [|? ? Hnot Hrest]; subst.
    destruct i as [|i]; simpl in Hi.
    + injection Hi as <-. rewrite builtDict_other by assumption.
      rewrite get_set, String.eqb_refl. f_equal. lia.
    + rewrite (IH _ (S r) i data Hrest Hi). f_equal. lia.
Qed.

Lemma builtDict_known (l : list NodeData) (r : nat) (k : string) :
  (exists v, get k (builtDict [] r l) = Some v) <-> In k (map id l).
Proof.
  split.
  - intros [v Hv].
    assert (Hgen : forall l dict r,
               get k (builtDict dict r l) <> None ->
               In k (map id l) \/ get k dict <> None).
    { clear. induction l as [|d l IH]; intros dict r H; simpl in *; [now right|].
      destruct (IH _ _ H) as [Hin|Hget]; [now left; right|].
      rewrite get_set in Hget.
      destruct (String.eqb k (id d)) eqn:E; [|now right].
      apply String.eqb_eq in E. left. left. now symmetry. }
    destruct (Hgen l [] r) as [H|H]; [congruence|assumption|].
    simpl in H. congruence.
  - revert r. generalize (@nil (string * nat)).
    induction l as [|d l IH]; intros dict r H; simpl in *; [tauto|].
    destruct (in_dec string_dec k (map id l)) as [Hin|Hout].
    + now apply IH.
    + destruct H as [<-|H]; [|contradiction].
      rewrite builtDict_other by assumption.
      rewrite get_set, String.eqb_refl. now exists r.
Qed.

Lemma builtEdges_items (dict : JsMap.t nat) (l : list EdgeData) :
  forall r,
    map etag (builtEdges dict r l)
    = filter (fun e => has (source e) dict && has (target e) dict) l.
Proof.
  induction l as [|data l IH]; intros r; simpl; [reflexivity|].
  unfold has at 1 2.
  destruct (get (source data) dict) as [s|];
    [destruct (get (target data) dict) as [t|]|]; simpl; now rewrite IH.
Qed.

Lemma builtEdges_refs (dict : JsMap.t nat) (l : list EdgeData) :
  forall r,
    map eref (builtEdges dict r l)
    = seq r (List.length (builtEdges dict r l)).
Proof.
  induction l as [|data l IH]; intros r; simpl; [reflexivity|].
  destruct (get (source data) dict) as [s|];
    [destruct (get (target data) dict) as [t|]|]; simpl; now rewrite IH.
Qed.

Lemma builtEdges_ends (dict : JsMap.t nat) (l : list EdgeData) :
  forall r e,
    In e (builtEdges dict r l) ->
    In (etag e) l
    /\ get (source (etag e)) dict = Some (esource e)
    /\ get (target (etag e)) dict = Some (etarget e)
    /\ elabels e = [].
Proof.
  induction l as [|data l IH]; intros r e He; simpl in *; [tauto|].
  destruct (get (source data) dict) as [s|] eqn:Gs;
    [destruct (get (target data) dict) as [t|] eqn:Gt|];
    simpl in He;
    try (destruct (IH _ _ He) as [H1 H2]; split; [now right|exact H2]).
  destruct He as [<-|He]; simpl; [auto|].
  destruct (IH _ _ He) as [H1 H2]. split; [now right|exact H2].
Qed.

End BuilderShape.

(** ** What the second revision builds *)
Module BuilderContent.
Import JsMap JsMapFacts.

Lemma builder_unique_ids (l : list NodeData) :
  map id (BuilderLoader.uniqueNodes l) = distinct (map id l).
Proof.
  unfold BuilderLoader.uniqueNodes.
  rewrite (DedupFacts.keyed_ids _ (rev l)).
  - apply DedupFacts.lastWins_keys.
  - rewrite DedupFacts.lastWins_keys. apply NoDup_distinct.
  - intros k. apply DedupFacts.lastWins_get.
Qed.

(** Whether the dictionary of a builder knows an id. *)
Lemma known_ids (l : list NodeData) (r : nat) (k : string) :
  has k (builtDict [] r l) = existsb (String.eqb k) (map id l).
Proof.
  unfold has.
  destruct (existsb (String.eqb k) (map id l)) eqn:E.
  - apply existsb_eqb_In, (BuilderShape.builtDict_known l r k) in E.
    destruct E as [v ->]. reflexivity.
  - destruct (get k (builtDict [] r l)) as [v|] eqn:G; [|reflexivity].
    assert (In k (map id l))
      by (apply (BuilderShape.builtDict_known l r k); now exists v).
    apply existsb_eqb_In in H. congruence.
Qed.

Lemma known_index (l : list NodeData) (r v : nat) (k : string) :
  NoDup (map id l) ->
  get k (builtDict [] r l) = Some v ->
  exists i data, nth_error l i = Some data /\ id data = k /\ v = r + i.
Proof.
  intros Hnd G.
  assert (Hin : In k (map id l))
    by (apply (BuilderShape.builtDict_known l r k); now exists v).
  apply in_map_iff in Hin. destruct Hin as [data [<- Hin]].
  apply In_nth_error in Hin. destruct Hin as [i Hi].
  exists i, data. repeat split; [assumption|].
  rewrite (BuilderShape.builtDict_nth l [] r i data Hnd Hi) in G. congruence.
Qed.

(** The style that the listener gives is what [typeColors] reads as for the
    type from then on. *)
Lemma builtNodes_style (l : list NodeData) :
  forall typeColors r n,
    In n (builtNodes BuilderLoader.nodeCreated typeColors r l) ->
    nstyle n
    = shinyPlateNodeStyle
        (lookup (ntag n)
           (fold_left (fun s data => fst (BuilderLoader.nodeCreated s data)) l
              typeColors))
    /\ truthyValue
         (lookup (ntag n)
            (fold_left (fun s data => fst (BuilderLoader.nodeCreated s data)) l
               typeColors))
       = true.
Proof.
  induction l as [|data l IH]; intros typeColors r n Hn; [destruct Hn|].
  cbn [builtNodes In] in Hn. cbn [fold_left].
  destruct Hn as [<-|Hn]; [|now apply IH in Hn].
  cbn [nstyle ntag].
  destruct (BuilderFacts.getColorForType_lookup typeColors (type data))
    as [Hs Ht].
  assert (E : BuilderLoader.nodeCreated typeColors data
              = (fst (BuilderLoader.getColorForType typeColors (type data)),
                 shinyPlateNodeStyle
                   (snd (BuilderLoader.getColorForType typeColors (type data)))))
    by (unfold BuilderLoader.nodeCreated;
        now destruct (BuilderLoader.getColorForType typeColors (type data))).
  rewrite E. cbn [fst snd].
  rewrite BuilderFacts.typeColors_lookup_kept by (now rewrite <- Hs).
  rewrite <- Hs. now split.
Qed.

(** A node whose type is no member name of [Object.prototype] is filled
    with the colour that [typeColors] holds for the type from then on. *)
Lemma builtNodes_fill (l : list NodeData) :
  forall typeColors r n,
    In n (builtNodes BuilderLoader.nodeCreated typeColors r l) ->
    inherited (ntag n) = false ->
    exists c,
      nstyle n = ShinyPlateNodeStyle c
      /\ get (ntag n)
           (fold_left (fun s data => fst (BuilderLoader.nodeCreated s data)) l
              typeColors)
         = Some c.
Proof.
  intros typeColors r n Hn I.
  destruct (builtNodes_style l typeColors r n Hn) as [Hs Ht].
  unfold lookup in Hs, Ht. rewrite I in Hs, Ht.
  destruct (get (ntag n) _) as [c|]; [|discriminate Ht].
  exists c. now split.
Qed.

(** The guarded assignment never writes under a member name of
    [Object.prototype]. *)
Lemma typeColors_ordinary (l : list NodeData) :
  forall typeColors : JsMap.t string,
    (forall k, In k (keys typeColors) -> inherited k = false) ->
    forall k,
      In k (keys (fold_left
                    (fun s data => fst (BuilderLoader.nodeCreated s data)) l
                    typeColors)) ->
      inherited k = false.
Proof.
  induction l as [|data l IH]; intros typeColors H k; cbn [fold_left];
    [apply H|].
  apply IH. clear k. intros k.
  assert (E : fst (BuilderLoader.nodeCreated typeColors data)
              = fst (BuilderLoader.getColorForType typeColors (type data)))
    by (unfold BuilderLoader.nodeCreated;
        now destruct (BuilderLoader.getColorForType typeColors (type data))).
  rewrite E. unfold BuilderLoader.getColorForType. cbn [fst].
  destruct (unset (type data) typeColors) eqn:U; [|apply H].
  rewrite keys_set.
  destruct (has (type data) typeColors) eqn:Has; [apply H|].
  intros Hk. apply in_app_or in Hk. destruct Hk as [Hk|[<-|[]]]; [now apply H|].
  unfold has in Has. unfold unset, lookup in U.
  destruct (get (type data) typeColors); [discriminate Has|].
  destruct (inherited (type data)); [discriminate U|reflexivity].
Qed.



End BuilderContent.




(** ** Removing isolated nodes *)
Section PruneFacts.
Context {NT ET : Type}.
Implicit Types (g : IGraph NT ET).

Lemma filter_all {A : Type} (p : A -> bool) (l : list A) :
  (forall x, In x l -> p x = true) -> filter p l = l.
Proof.
  induction l as [|a l IH]; simpl; intros H; [reflexivity|].
  rewrite (H a) by now left. f_equal. apply IH. intros x Hx. apply H. now right.
Qed.

Lemma length_filter_zero {A : Type} (p : A -> bool) (l : list A) :
  List.length (filter p l) = 0 -> forall x, In x l -> p x = false.
Proof.
  induction l as [|a l IH]; simpl; intros H x Hx; [tauto|].
  destruct (p a) eqn:E; [discriminate|].
  destruct Hx as [<-|Hx]; [assumption|now apply IH].
Qed.

Lemma filter_twice {A : Type} (p q : A -> bool) (l : list A) :
  filter p (filter q l) = filter (fun x => q x && p x) l.
Proof.
  induction l as [|a l IH]; simpl; [reflexivity|].
  destruct (q a); simpl; [|exact IH].
  destruct (p a); now rewrite IH.
Qed.

Lemma map_filter_through {A B : Type} (f : A -> B) (p : B -> bool) (l : list A) :
  map f (filter (fun x => p (f x)) l) = filter p (map f l).
Proof.
  induction l as [|a l IH]; simpl; [reflexivity|].
  destruct (p (f a)); simpl; now rewrite IH.
Qed.

(** Dropping nodes keeps the remaining identities distinct. *)
Lemma distinct_refs_filter (keep : INode NT -> bool) (ns : list (INode NT)) :
  NoDup (map nref ns) -> NoDup (map nref (filter keep ns)).
Proof.
  induction ns as [|n ns IH]; simpl; intros H; [constructor|].
  inversion H as [|? ? Hfresh Hrest]; subst.
  destruct (keep n); simpl; [|now apply IH].
  constructor; [|now apply IH].
  intros Hin. apply Hfresh. apply in_map_iff in Hin.
  destruct Hin as [x [Hx Hin]]. apply filter_In in Hin.
  rewrite <- Hx. apply in_map. tauto.
Qed.

Lemma isNode_refs g (r : nat) :
  isNode g r = existsb (Nat.eqb r) (map nref (nodes g)).
Proof.
  unfold isNode. induction (nodes g) as [|n l IH]; simpl; [reflexivity|].
  now rewrite IH, (Nat.eqb_sym r).
Qed.

Lemma isNode_iff g (r : nat) : isNode g r = true <-> In r (map nref (nodes g)).
Proof.
  rewrite isNode_refs, existsb_exists. split.
  - intros [x [Hx E]]. apply Nat.eqb_eq in E. now subst.
  - intros H. exists r. split; [assumption|apply Nat.eqb_refl].
Qed.

Lemma degree_zero_edges g (r : nat) :
  degree g r = 0 ->
  filter (fun e => negb (esource e =? r) && negb (etarget e =? r)) (edges g)
  = edges g.
Proof.
  unfold degree. intros H. apply filter_all. intros e He.
  rewrite (length_filter_zero (fun e => esource e =? r) (edges g)) by (auto; lia).
  rewrite (length_filter_zero (fun e => etarget e =? r) (edges g)) by (auto; lia).
  reflexivity.
Qed.

Lemma remove_isolated g (r : nat) :
  isNode g r = true -> degree g r = 0 ->
  remove g r =
  Some (mkIGraph (filter (fun n => negb (nref n =? r)) (nodes g)) (edges g)
          (fresh g)).
Proof.
  intros Hn Hd. unfold remove. now rewrite Hn, degree_zero_edges.
Qed.

(** Removing, one after the other, distinct isolated nodes of the graph. *)
Lemma prune_loop (rs : list nat) :
  forall g,
    NoDup rs ->
    (forall r, In r rs -> isNode g r = true) ->
    (forall r, In r rs -> degree g r = 0) ->
    forEachM remove rs g =
    Some (mkIGraph
            (filter (fun n => negb (existsb (Nat.eqb (nref n)) rs)) (nodes g))
            (edges g) (fresh g)).
Proof.
  induction rs as [|r rs IH]; intros g Hnd Hn Hd; simpl.
  - rewrite filter_all by reflexivity. now destruct g.
  - inversion Hnd as [|? ? Hnotin Hnd']; subst.
    rewrite remove_isolated by (auto using in_eq). simpl.
    rewrite IH; simpl.
    + rewrite filter_twice. do 2 f_equal.
      apply filter_ext. intros n. now rewrite negb_orb.
    + assumption.
    + intros r' Hr'. apply isNode_iff. simpl.
      specialize (Hn r' (or_intror Hr')). apply isNode_iff in Hn.
      apply in_map_iff in Hn. destruct Hn as [n [E Hin]].
      apply in_map_iff. exists n. split; [assumption|].
      apply filter_In. split; [assumption|].
      apply negb_true_iff, Nat.eqb_neq. intros E'. apply Hnotin. congruence.
    + intros r' Hr'. apply (Hd r'). now right.
Qed.

End PruneFacts.

(** ** Changing styles *)
Section RestyleFacts.
Context {NT ET : Type}.
Implicit Types (g : IGraph NT ET).

Lemma restyled_refl g : restyled g g.
Proof. repeat split. Qed.

Lemma restyled_trans g1 g2 g3 :
  restyled g1 g2 -> restyled g2 g3 -> restyled g1 g3.
Proof.
  intros [A1 [B1 C1]] [A2 [B2 C2]]. repeat split; congruence.
Qed.

Lemma restyled_refs g g' :
  restyled g g' -> map nref (nodes g') = map nref (nodes g).
Proof.
  intros [A _].
  assert (H : forall l : list (INode NT),
             map nref l = map (fun c => fst (fst c)) (map core l))
    by (intros l; rewrite map_map; reflexivity).
  now rewrite (H (nodes g')), (H (nodes g)), A.
Qed.

Lemma restyled_isNode g g' (r : nat) :
  restyled g g' -> isNode g' r = isNode g r.
Proof.
  intros H. now rewrite !isNode_refs, (restyled_refs g g' H).
Qed.

Lemma setStyle_restyled g (r : nat) (style : NodeStyle) :
  isNode g r = true ->
  exists g', setStyle g r style = Some g' /\ restyled g g'.
Proof.
  intros H. unfold setStyle. rewrite H. eexists. split; [reflexivity|].
  repeat split. simpl. rewrite map_map. apply map_ext. intros n.
  now destruct (nref n =? r).
Qed.

Lemma restyle_loop (style : NodeStyle) (rs : list nat) :
  forall g,
    (forall r, In r rs -> isNode g r = true) ->
    exists g',
      forEachM (fun g node => setStyle g node style) rs g = Some g'
      /\ restyled g g'.
Proof.
  induction rs as [|r rs IH]; intros g H; simpl.
  - exists g. split; [reflexivity|apply restyled_refl].
  - destruct (setStyle_restyled g r style) as [g1 [E R1]];
      [apply H; now left|].
    rewrite E. simpl.
    destruct (IH g1) as [g2 [E2 R2]].
    + intros r' Hr'. rewrite (restyled_isNode g g1 r' R1). apply H. now right.
    + exists g2. split; [assumption|]. now apply (restyled_trans g g1 g2).
Qed.

End RestyleFacts.

(** ** The chunked loader *)
Module ChunkedFacts.
Import ChunkedLoader.

Lemma paint_loop (clusters : list (nat * list nat)) :
  forall (g : IGraph string EdgeData) (i : nat),
    (forall entry, In entry clusters ->
       forall r, In r (snd entry) -> isNode g r = true) ->
    exists g' i',
      forEachM paintCluster clusters (g, i) = Some (g', i')
      /\ restyled g g'.
Proof.
  induction clusters as [|entry clusters IH]; intros g i H; simpl.
  - exists g, i. split; [reflexivity|apply restyled_refl].
  - unfold paintCluster at 1.
    destruct (restyle_loop (ShinyPlateNodeStyle (paletteAt colors i))
                (snd entry) g) as [g1 [E R1]].
    + intros r Hr. apply (H entry); [now left|assumption].
    + rewrite E. simpl.
      destruct (IH g1 (S i)) as [g2 [i2 [E2 R2]]].
      * intros entry' He r Hr. rewrite (restyled_isNode g g1 r R1).
        apply (H entry'); [now right|assumption].
      * exists g2, i2. split; [assumption|].
        now apply (restyled_trans g g1 g2).
Qed.

Lemma pushCluster_refs (c n : nat) (clusters : list (nat * list nat)) :
  forall entry r,
    In entry (pushCluster c n clusters) -> In r (snd entry) ->
    r = n \/ exists entry', In entry' clusters /\ In r (snd entry').
Proof.
  induction clusters as [|[k cluster] rest IH]; intros entry r He Hr; simpl in He.
  - destruct He as [<-|[]]. simpl in Hr. destruct Hr as [<-|[]]. now left.
  - destruct (c =? k).
    + destruct He as [<-|He].
      * simpl in Hr. apply in_app_or in Hr. destruct Hr as [Hr|[<-|[]]].
        -- right. exists (k, cluster). split; [now left|assumption].
        -- now left.
      * right. exists entry. split; [now right|assumption].
    + destruct (c <? k).
      * destruct He as [<-|He].
        -- simpl in Hr. destruct Hr as [<-|[]]. now left.
        -- right. exists entry. split; assumption.
      * destruct He as [<-|He].
        -- right. exists (k, cluster). split; [now left|assumption].
        -- destruct (IH entry r He Hr) as [->|[entry' [He' Hr']]]; [now left|].
           right. exists entry'. split; [now right|assumption].
Qed.

Lemma clusters_refs (clusterOf : nat -> option nat) (ns : list (INode string)) :
  forall clusters entry r,
    In entry
      (fold_left
         (fun clusters node =>
            match clusterOf (nref node) with
            | Some clusterId => pushCluster clusterId (nref node) clusters
            | None => clusters
            end) ns clusters) ->
    In r (snd entry) ->
    In r (map nref ns) \/ exists entry', In entry' clusters /\ In r (snd entry').
Proof.
  induction ns as [|n ns IH]; intros clusters entry r He Hr; simpl in *.
  - right. now exists entry.
  - destruct (IH _ entry r He Hr) as [H|[entry' [He' Hr']]]; [now left; right|].
    destruct (clusterOf (nref n)) as [c|].
    + destruct (pushCluster_refs c (nref n) clusters entry' r He' Hr')
        as [->|H]; [now left; left|now right].
    + right. now exists entry'.
Qed.

Lemma pruneIsolated_closed (g : IGraph string EdgeData) :
  NoDup (map nref (nodes g)) ->
  pruneIsolated g =
  Some (mkIGraph (filter (fun n => negb (degree g (nref n) =? 0)) (nodes g))
          (edges g) (fresh g)).
Proof.
  intros Hnd. unfold pruneIsolated. rewrite prune_loop.
  - do 2 f_equal. apply filter_ext_in. intros n Hn. f_equal.
    apply eq_true_iff_eq. rewrite existsb_exists, Nat.eqb_eq. split.
    + intros [r [Hr E]]. apply Nat.eqb_eq in E. subst r.
      apply in_map_iff in Hr. destruct Hr as [n' [E Hn']].
      apply filter_In in Hn'. destruct Hn' as [_ Hz].
      apply Nat.eqb_eq in Hz. congruence.
    + intros Hz. exists (nref n). split; [|apply Nat.eqb_refl].
      apply in_map. apply filter_In. split; [assumption|now apply Nat.eqb_eq].
  - now apply distinct_refs_filter.
  - intros r Hr. apply isNode_iff. apply in_map_iff in Hr.
    destruct Hr as [n [E Hn]]. apply filter_In in Hn. rewrite <- E.
    apply in_map. tauto.
  - intros r Hr. apply in_map_iff in Hr. destruct Hr as [n [E Hn]].
    apply filter_In in Hn. destruct Hn as [_ Hz]. apply Nat.eqb_eq in Hz.
    congruence.
Qed.

(** [applyClustering] never throws on a graph whose nodes are distinct
    objects: it restyles nodes, removes the nodes without edges, and starts
    the layout. *)
Lemma applyClustering_closed
  (nodeClusterIds : IGraph string EdgeData -> nat -> option nat) (st : State) :
  NoDup (map nref (nodes (graph st))) ->
  exists g1,
    restyled (graph st) g1
    /\ applyClustering nodeClusterIds st =
       Some (mkState
               (mkIGraph
                  (filter (fun n => negb (degree g1 (nref n) =? 0)) (nodes g1))
                  (edges g1) (fresh g1))
               (body st)
               (view st ++ [RunClustering; RunLayout "OrganicLayout";
                            SetProjection])
               (progress st)).
Proof.
  intros Hnd. unfold applyClustering.
  match goal with
  | |- context [forEachM paintCluster ?cl _] =>
      destruct (paint_loop cl (graph st) 0) as [g1 [i1 [E R]]]
  end.
  - intros entry He r Hr. apply isNode_iff.
    destruct (clusters_refs (nodeClusterIds (graph st)) (nodes (graph st))
                [] entry r He Hr) as [H|[entry' [[] _]]].
    exact H.
  - exists g1. split; [assumption|]. rewrite E. simpl.
    rewrite pruneIsolated_closed by (now rewrite (restyled_refs _ _ R)).
    simpl. unfold applyInitialLayout. simpl. rewrite <- app_assoc.
    reflexivity.
Qed.

End ChunkedFacts.

Lemma distinctNats_NoDup (l : list nat) : distinctNats l = true -> NoDup l.
Proof.
  induction l as [|x l IH]; simpl; intros H; constructor;
    apply andb_true_iff in H; destruct H as [Hx Hl].
  - intros Hin. apply negb_true_iff in Hx.
    assert (existsb (Nat.eqb x) l = true); [|congruence].
    apply existsb_exists. exists x. split; [assumption|apply Nat.eqb_refl].
  - now apply IH.
Qed.

Module ChunkedResults.
Import ChunkedLoader.

Lemma nodeTags_core (g : IGraph string EdgeData) :
  nodeTags g = map (fun c => snd (fst c)) (map core (nodes g)).
Proof. unfold nodeTags. now rewrite map_map. Qed.

(** What [applyClustering] leaves: the nodes that have an edge, the edges,
    and one more layout run. *)
Lemma applyClustering_result
  (nodeClusterIds : IGraph string EdgeData -> nat -> option nat) (st : State) :
  NoDup (map nref (nodes (graph st))) ->
  exists st',
    applyClustering nodeClusterIds st = Some st'
    /\ map core (nodes (graph st'))
       = filter (fun c => negb (degree (graph st) (fst (fst c)) =? 0))
           (map core (nodes (graph st)))
    /\ edges (graph st') = edges (graph st)
    /\ body st' = body st
    /\ view st' = view st ++ [RunClustering; RunLayout "OrganicLayout";
                              SetProjection]
    /\ progress st' = progress st.
Proof.
  intros Hnd.
  destruct (ChunkedFacts.applyClustering_closed nodeClusterIds st Hnd)
    as [g1 [[A [B C]] E]].
  eexists. split; [exact E|]. simpl. repeat split; try assumption.
  rewrite <- A.
  rewrite <- (map_filter_through core
                (fun c => negb (degree (graph st) (fst (fst c)) =? 0))).
  f_equal. apply filter_ext. intros n. simpl. unfold degree. now rewrite B.
Qed.

Lemma loadGraphInChunksWith_result (clearsGraph : bool)
  (nodeClusterIds : IGraph string EdgeData -> nat -> option nat)
  (chunkSize : nat) (st : State) (nodesData : list NodeData)
  (edgesData : list EdgeData) (u : JsMap.t NodeData) (st1 : State) :
  chunkLoop clearsGraph chunkSize st nodesData edgesData = (u, st1) ->
  NoDup (map nref (nodes (graph st1))) ->
  exists s,
    loadGraphInChunksWith clearsGraph nodeClusterIds chunkSize st nodesData
      edgesData = Some s
    /\ map core (nodes (graph s))
       = filter (fun c => negb (degree (graph st1) (fst (fst c)) =? 0))
           (map core (nodes (graph st1)))
    /\ edges (graph s) = edges (graph st1)
    /\ body s = createLegend (JsMap.values u) (body st1)
    /\ view s = view st1 ++ [FitGraphBounds; RunClustering;
                             RunLayout "OrganicLayout"; SetProjection]
    /\ progress s = mkProgress false (max (progress st1)) (value (progress st1)).
Proof.
  intros Eloop Hnd. unfold loadGraphInChunksWith. rewrite Eloop.
  destruct (applyClustering_result nodeClusterIds
              (mkState (graph st1) (body st1) (view st1 ++ [FitGraphBounds])
                 (mkProgress false (max (progress st1))
                    (value (progress st1)))) Hnd)
    as [st' [E [Hn [He [Hb [Hv Hp]]]]]].
  rewrite E. simpl in *. eexists. split; [reflexivity|]. simpl.
  rewrite Hb, Hv, Hp, <- app_assoc. repeat split; assumption.
Qed.

Lemma loadGraphAtOnce_result (clearsGraph : bool)
  (nodeClusterIds : IGraph string EdgeData -> nat -> option nat)
  (st : State) (nodesData : list NodeData) (edgesData : list EdgeData)
  (g : IGraph string EdgeData) :
  updateGraphChunk clearsGraph (graph st)
    (JsMap.values
       (fold_left (fun m node => JsMap.set (id node) node m) nodesData []))
    edgesData = g ->
  NoDup (map nref (nodes g)) ->
  exists s,
    loadGraphAtOnce clearsGraph nodeClusterIds st nodesData edgesData = Some s
    /\ map core (nodes (graph s))
       = filter (fun c => negb (degree g (fst (fst c)) =? 0))
           (map core (nodes g))
    /\ edges (graph s) = edges g
    /\ body s
       = createLegend
           (JsMap.values
              (fold_left (fun m node => JsMap.set (id node) node m)
                 nodesData []))
           (body st)
    /\ view s = view st ++ [FitGraphBounds; RunClustering;
                            RunLayout "OrganicLayout"; SetProjection].
Proof.
  intros Eg Hnd. unfold loadGraphAtOnce. rewrite Eg.
  destruct (applyClustering_result nodeClusterIds
              (mkState g (body st) (view st ++ [FitGraphBounds]) (progress st))
              Hnd)
    as [st' [E [Hn [He [Hb [Hv Hp]]]]]].
  rewrite E. simpl in *. eexists. split; [reflexivity|]. simpl.
  rewrite Hb, Hv, <- app_assoc. repeat split; assumption.
Qed.

End ChunkedResults.

(** C6.  Pruning removes exactly the isolated nodes.  On a graph whose nodes
    are distinct objects [pruneIsolated] never throws, leaves the edges
    alone, and keeps a node exactly when its degree is not zero; the same
    holds, node identity by node identity, for the graph that
    [applyClustering] leaves. *)
Theorem pruning_removes_exactly_isolated_nodes :
  (forall g : IGraph string EdgeData,
     NoDup (map nref (nodes g)) ->
     exists g',
       ChunkedLoader.pruneIsolated g = Some g'
       /\ edges g' = edges g
       /\ forall n, In n (nodes g') <->
                    In n (nodes g) /\ degree g (nref n) <> 0)
  /\
  (forall (nodeClusterIds : IGraph string EdgeData -> nat -> option nat)
          (st : ChunkedLoader.State),
     NoDup (map nref (nodes (ChunkedLoader.graph st))) ->
     exists st',
       ChunkedLoader.applyClustering nodeClusterIds st = Some st'
       /\ edges (ChunkedLoader.graph st') = edges (ChunkedLoader.graph st)
       /\ forall r, In r (map nref (nodes (ChunkedLoader.graph st'))) <->
                    In r (map nref (nodes (ChunkedLoader.graph st)))
                    /\ degree (ChunkedLoader.graph st) r <> 0).
Proof.
  split.
  - intros g Hnd. eexists.
    split; [now apply ChunkedFacts.pruneIsolated_closed|]. simpl.
    split; [reflexivity|]. intros n.
    rewrite filter_In, negb_true_iff, Nat.eqb_neq. reflexivity.
  - intros nodeClusterIds st Hnd.
    destruct (ChunkedResults.applyClustering_result nodeClusterIds st Hnd)
      as [st' [E [Hn [He _]]]].
    exists st'. split; [exact E|]. split; [exact He|]. intros r.
    assert (Hrefs : forall l : list (INode string),
               map nref l = map (fun c => fst (fst c)) (map core l))
      by (intros l; rewrite map_map; reflexivity).
    rewrite (Hrefs (nodes (ChunkedLoader.graph st'))), Hn.
    rewrite (Hrefs (nodes (ChunkedLoader.graph st))).
    rewrite !in_map_iff. split.
    + intros [c [Hc Hin]]. apply filter_In in Hin. destruct Hin as [Hin Hd].
      rewrite Hc in Hd. apply negb_true_iff, Nat.eqb_neq in Hd.
      split; [now exists c|assumption].
    + intros [[c [Hc Hin]] Hd]. exists c. split; [assumption|].
      apply filter_In. split; [assumption|].
      rewrite Hc. now apply negb_true_iff, Nat.eqb_neq.
Qed.

Lemma pruning_witness :
  (exists g',
     ChunkedLoader.pruneIsolated
       (mkIGraph
          [mkINode 0 "TA" DefaultNodeStyle []; mkINode 1 "TB" DefaultNodeStyle [];
           mkINode 2 "TC" DefaultNodeStyle []]
          [mkIEdge 3 0 1 (mkEdge "a" "b" None) []] 4)
     = Some g'
     /\ In (mkINode 0 "TA" DefaultNodeStyle []) (nodes g')
     /\ ~ In (mkINode 2 "TC" DefaultNodeStyle []) (nodes g'))
  /\
  (exists st',
     ChunkedLoader.applyClustering (fun _ r => Some (r mod 2))
       (ChunkedLoader.mkState
          (mkIGraph
             [mkINode 0 "TA" DefaultNodeStyle [];
              mkINode 1 "TB" DefaultNodeStyle [];
              mkINode 2 "TC" DefaultNodeStyle []]
             [mkIEdge 3 0 1 (mkEdge "a" "b" None) []] 4)
          [] [] (ChunkedLoader.mkProgress false 1 1))
     = Some st'
     /\ In 1 (map nref (nodes (ChunkedLoader.graph st')))
     /\ ~ In 2 (map nref (nodes (ChunkedLoader.graph st')))).
Proof.
  destruct pruning_removes_exactly_isolated_nodes as [Hprune Hcluster].
  split.
  - destruct (Hprune
                (mkIGraph
                   [mkINode 0 "TA" DefaultNodeStyle [];
                    mkINode 1 "TB" DefaultNodeStyle [];
                    mkINode 2 "TC" DefaultNodeStyle []]
                   [mkIEdge 3 0 1 (mkEdge "a" "b" None) []] 4))
      as [g' [E [_ Hiff]]].
    + apply distinctNats_NoDup. reflexivity.
    + exists g'. split; [exact E|]. split.
      * apply Hiff. split; [now left|]. vm_compute. discriminate.
      * intros Hin. apply Hiff in Hin. destruct Hin as [_ Hd]. apply Hd.
        reflexivity.
  - destruct (Hcluster (fun _ r => Some (r mod 2))
                (ChunkedLoader.mkState
                   (mkIGraph
                      [mkINode 0 "TA" DefaultNodeStyle [];
                       mkINode 1 "TB" DefaultNodeStyle [];
                       mkINode 2 "TC" DefaultNodeStyle []]
                      [mkIEdge 3 0 1 (mkEdge "a" "b" None) []] 4)
                   [] [] (ChunkedLoader.mkProgress false 1 1)))
      as [st' [E [_ Hiff]]].
    + apply distinctNats_NoDup. reflexivity.
    + exists st'. split; [exact E|]. split.
      * apply Hiff. split; [simpl; tauto|]. vm_compute. discriminate.
      * intros Hin. apply Hiff in Hin. destruct Hin as [_ Hd]. apply Hd.
        reflexivity.
Defined.

(** C5, as the code has it.  With an empty node list the chunked loader
    computes zero chunks and runs no builder, so the graph the page holds is
    not rebuilt.  The load still completes through the post-processing, on a
    graph whose nodes are distinct objects: the view is fitted, the
    clustering and one layout run (OrganicLayout) follow, the nodes without
    edges are removed while the others and the edges stay (a graph without
    nodes stays as it is), and an empty legend is rendered. *)
Theorem empty_node_list_runs_no_chunk_and_one_layout :
  forall (clearsGraph : bool)
         (nodeClusterIds : IGraph string EdgeData -> nat -> option nat)
         (st : ChunkedLoader.State) (edgesData : list EdgeData),
    NoDup (map nref (nodes (ChunkedLoader.graph st))) ->
    ChunkedLoader.totalChunks (List.length (@nil NodeData))
      ChunkedLoader.chunkSize = 0
    /\ ChunkedLoader.graph
         (snd (ChunkedLoader.chunkLoop clearsGraph ChunkedLoader.chunkSize st
                 [] edgesData))
       = ChunkedLoader.graph st
    /\ exists st',
         ChunkedLoader.loadGraphInChunks clearsGraph nodeClusterIds st []
           edgesData = Some st'
         /\ map core (nodes (ChunkedLoader.graph st'))
            = filter
                (fun c => negb (degree (ChunkedLoader.graph st) (fst (fst c))
                                =? 0))
                (map core (nodes (ChunkedLoader.graph st)))
         /\ edges (ChunkedLoader.graph st') = edges (ChunkedLoader.graph st)
         /\ (nodes (ChunkedLoader.graph st) = [] ->
             ChunkedLoader.graph st' = ChunkedLoader.graph st)
         /\ ChunkedLoader.body st'
            = ChunkedLoader.createLegend [] (ChunkedLoader.body st)
         /\ ChunkedLoader.view st'
            = ChunkedLoader.view st
              ++ [FitGraphBounds; RunClustering; RunLayout "OrganicLayout";
                  SetProjection].
Proof.
  intros clearsGraph nodeClusterIds st edgesData Hnd.
  split; [reflexivity|]. split; [reflexivity|].
  destruct (ChunkedResults.loadGraphInChunksWith_result clearsGraph
              nodeClusterIds ChunkedLoader.chunkSize st [] edgesData
              [] _ eq_refl Hnd)
    as [st' [E [Hn [He [Hb [Hv _]]]]]].
  exists st'. split; [exact E|]. cbn [ChunkedLoader.graph] in Hn, He.
  split; [exact Hn|]. split; [exact He|]. split; [|split].
  - intros H.
    assert (Hf : fresh (ChunkedLoader.graph st')
                 = fresh (ChunkedLoader.graph st)).
    { unfold ChunkedLoader.loadGraphInChunksWith, ChunkedLoader.chunkLoop in E.
      cbn [ChunkedLoader.totalChunks fold_left seq] in E.
      change (ChunkedLoader.totalChunks (List.length (@nil NodeData))
                ChunkedLoader.chunkSize) with 0 in E.
      cbn [seq fold_left ChunkedLoader.graph ChunkedLoader.body
           ChunkedLoader.view ChunkedLoader.progress] in E.
      unfold ChunkedLoader.applyClustering, ChunkedLoader.pruneIsolated in E.
      cbn [ChunkedLoader.graph] in E. rewrite H in E. simpl in E.
      unfold ChunkedLoader.applyInitialLayout in E. simpl in E.
      rewrite H in E. simpl in E. injection E as <-. reflexivity. }
    destruct (ChunkedLoader.graph st') as [ns' es' f'].
    destruct (ChunkedLoader.graph st) as [ns es f].
    cbn [nodes edges fresh] in *. subst ns es' f'.
    destruct ns'; [reflexivity|discriminate Hn].
  - exact Hb.
  - exact Hv.
Qed.

Lemma empty_node_list_witness :
  NoDup (map nref
           [mkINode 0 "TA" DefaultNodeStyle []; mkINode 1 "TB" DefaultNodeStyle [];
            mkINode 2 "TC" DefaultNodeStyle []])
  /\ exists st',
       ChunkedLoader.loadGraphInChunks false (fun _ _ => None)
         (ChunkedLoader.mkState
            (mkIGraph
               [mkINode 0 "TA" DefaultNodeStyle [];
                mkINode 1 "TB" DefaultNodeStyle [];
                mkINode 2 "TC" DefaultNodeStyle []]
               [mkIEdge 3 0 1 (mkEdge "a" "b" None) []] 4)
            [] [] (ChunkedLoader.mkProgress false 1 0))
         [] [mkEdge "a" "b" None] = Some st'
       /\ map core (nodes (ChunkedLoader.graph st'))
          = [(0, "TA", []); (1, "TB", [])]
       /\ ChunkedLoader.view st'
          = [FitGraphBounds; RunClustering; RunLayout "OrganicLayout";
             SetProjection].
Proof.
  assert (Hnd : NoDup (map nref
                  [mkINode 0 "TA" DefaultNodeStyle [];
                   mkINode 1 "TB" DefaultNodeStyle [];
                   mkINode 2 "TC" DefaultNodeStyle []]))
    by (apply distinctNats_NoDup; reflexivity).
  split; [exact Hnd|].
  destruct (empty_node_list_runs_no_chunk_and_one_layout false (fun _ _ => None)
              (ChunkedLoader.mkState
                 (mkIGraph
                    [mkINode 0 "TA" DefaultNodeStyle [];
                     mkINode 1 "TB" DefaultNodeStyle [];
                     mkINode 2 "TC" DefaultNodeStyle []]
                    [mkIEdge 3 0 1 (mkEdge "a" "b" None) []] 4)
                 [] [] (ChunkedLoader.mkProgress false 1 0))
              [mkEdge "a" "b" None] Hnd)
    as [_ [_ [st' [E [Hn [_ [_ [_ Hv]]]]]]]].
  exists st'. split; [exact E|]. split; [exact Hn|exact Hv].
Defined.

(** C5 as stated fails.  On an empty node list and an empty graph the loader
    still runs the layout; and on a page that holds a graph the load does
    not end with an empty graph: the nodes that have an edge are still
    there. *)
Lemma empty_load_still_runs_layout :
  (exists st',
     ChunkedLoader.loadGraphInChunks false (fun _ _ => None)
       ChunkedLoader.initial [] [] = Some st'
     /\ nodes (ChunkedLoader.graph st') = []
     /\ In (RunLayout "OrganicLayout") (ChunkedLoader.view st'))
  /\
  (exists st',
     ChunkedLoader.loadGraphInChunks true (fun _ _ => None)
       (ChunkedLoader.mkState
          (mkIGraph
             [mkINode 0 "TA" DefaultNodeStyle [];
              mkINode 1 "TB" DefaultNodeStyle []]
             [mkIEdge 2 0 1 (mkEdge "a" "b" None) []] 3)
          [] [] (ChunkedLoader.mkProgress false 1 0))
       [] [] = Some st'
     /\ map ntag (nodes (ChunkedLoader.graph st')) = ["TA"; "TB"]
     /\ In (RunLayout "OrganicLayout") (ChunkedLoader.view st')).
Proof.
  split.
  - eexists. split; [vm_compute; reflexivity|]. split; [reflexivity|].
    simpl. auto.
  - eexists. split; [vm_compute; reflexivity|]. split; [reflexivity|].
    simpl. auto.
Qed.

(** Running both constructions on a concrete input, whatever the clustering
    answers. *)
Ltac run_both nodeClusterIds :=
  match goal with
  | |- context [ChunkedLoader.loadGraphInChunksWith ?cg nodeClusterIds ?c ?st ?ns ?es] =>
      let u := fresh "u" in
      let st1 := fresh "st1" in
      let E := fresh "Eloop" in
      let V := fresh "Eval" in
      let Hu := fresh "Hu" in
      let Hst := fresh "Hst" in
      let s1 := fresh "s1" in
      let s2 := fresh "s2" in
      let R1 := fresh "R1" in
      let N1 := fresh "N1" in
      let E1 := fresh "E1" in
      let R2 := fresh "R2" in
      let N2 := fresh "N2" in
      let E2 := fresh "E2" in
      destruct (ChunkedLoader.chunkLoop cg c st ns es) as [u st1] eqn:E;
      pose proof E as V; vm_compute in V; injection V as Hu Hst;
      destruct (ChunkedResults.loadGraphInChunksWith_result cg nodeClusterIds
                  c st ns es u st1 E)
        as [s1 [R1 [N1 [E1 _]]]];
      [rewrite <- Hst; apply distinctNats_NoDup; vm_compute; reflexivity|];
      rewrite <- Hst in N1, E1;
      destruct (ChunkedResults.loadGraphAtOnce_result cg nodeClusterIds
                  st ns es _ eq_refl)
        as [s2 [R2 [N2 [E2 _]]]];
      [apply distinctNats_NoDup; vm_compute; reflexivity|];
      exists s1, s2;
      split; [exact R1|]; split; [exact R2|];
      unfold ChunkedLoader.edgeItems;
      rewrite !ChunkedResults.nodeTags_core, N1, N2, ?E1, ?E2
  end.

(** C1 at work.  Three nodes a, b, c of types TA, TB, TC with edges a-b and
    b-c, loaded with chunk size 1: every chunk runs a new builder over all
    the records seen so far, so the final graph has two nodes for b (four
    nodes in all) where the single construction has three; if the builder
    empties the graph first, only the last chunk's edge b-c survives and a is
    pruned.  With the source's chunk size 100 the same happens on 101
    records: node "0" is in the graph twice. *)
Theorem chunked_load_differs_from_single_build :
  forall nodeClusterIds : IGraph string EdgeData -> nat -> option nat,
    (exists s1 s2,
       ChunkedLoader.loadGraphInChunksWith false nodeClusterIds 1
         ChunkedLoader.initial
         [mkNode "a" "TA" None; mkNode "b" "TB" None; mkNode "c" "TC" None]
         [mkEdge "a" "b" None; mkEdge "b" "c" None] = Some s1
       /\ ChunkedLoader.loadGraphAtOnce false nodeClusterIds
            ChunkedLoader.initial
            [mkNode "a" "TA" None; mkNode "b" "TB" None; mkNode "c" "TC" None]
            [mkEdge "a" "b" None; mkEdge "b" "c" None] = Some s2
       /\ ChunkedLoader.nodeTags (ChunkedLoader.graph s1)
          = ["TA"; "TB"; "TB"; "TC"]
       /\ ChunkedLoader.nodeTags (ChunkedLoader.graph s2) = ["TA"; "TB"; "TC"])
    /\
    (exists s1 s2,
       ChunkedLoader.loadGraphInChunksWith true nodeClusterIds 1
         ChunkedLoader.initial
         [mkNode "a" "TA" None; mkNode "b" "TB" None; mkNode "c" "TC" None]
         [mkEdge "a" "b" None; mkEdge "b" "c" None] = Some s1
       /\ ChunkedLoader.loadGraphAtOnce true nodeClusterIds
            ChunkedLoader.initial
            [mkNode "a" "TA" None; mkNode "b" "TB" None; mkNode "c" "TC" None]
            [mkEdge "a" "b" None; mkEdge "b" "c" None] = Some s2
       /\ (ChunkedLoader.nodeTags (ChunkedLoader.graph s1) = ["TB"; "TC"]
           /\ ChunkedLoader.edgeItems (ChunkedLoader.graph s1)
              = [mkEdge "b" "c" None])
       /\ (ChunkedLoader.nodeTags (ChunkedLoader.graph s2) = ["TA"; "TB"; "TC"]
           /\ ChunkedLoader.edgeItems (ChunkedLoader.graph s2)
              = [mkEdge "a" "b" None; mkEdge "b" "c" None]))
    /\
    (exists s1 s2,
       ChunkedLoader.loadGraphInChunks false nodeClusterIds
         ChunkedLoader.initial (ChunkedLoader.sampleNodes 101)
         [mkEdge "0" "1" None; mkEdge "0" "100" None] = Some s1
       /\ ChunkedLoader.loadGraphAtOnce false nodeClusterIds
            ChunkedLoader.initial (ChunkedLoader.sampleNodes 101)
            [mkEdge "0" "1" None; mkEdge "0" "100" None] = Some s2
       /\ ChunkedLoader.nodeTags (ChunkedLoader.graph s1)
          = ["0"; "1"; "0"; "100"]
       /\ ChunkedLoader.nodeTags (ChunkedLoader.graph s2) = ["0"; "1"; "100"]).
Proof.
  intros nodeClusterIds. split; [|split].
  - run_both nodeClusterIds. split; vm_compute; reflexivity.
  - run_both nodeClusterIds. repeat split; vm_compute; reflexivity.
  - unfold ChunkedLoader.loadGraphInChunks.
    run_both nodeClusterIds. split; vm_compute; reflexivity.
Qed.

(** ** One chunk is one construction *)
Module SingleChunk.
Import ChunkedLoader JsMap JsMapFacts.

Lemma totalChunks_one (n c : nat) : 1 <= n <= c -> totalChunks n c = 1.
Proof.
  intros H. unfold totalChunks. symmetry.
  apply (Nat.div_unique (n + c - 1) c 1 (n - 1)); lia.
Qed.

Lemma fold_filter_skip {A B : Type} (f : B -> A -> B) (p : A -> bool)
  (l : list A) :
  (forall b a, p a = false -> f b a = b) ->
  forall b, fold_left f (filter p l) b = fold_left f l b.
Proof.
  intros H. induction l as [|a l IH]; intros b; simpl; [reflexivity|].
  destruct (p a) eqn:E; simpl; [apply IH|].
  rewrite (H b a E). apply IH.
Qed.

(** The builder's dictionary only knows ids of its own nodes source. *)
Lemma buildNodes_dict {S : Type} (nodeCreated : S -> NodeData -> S * NodeStyle)
  (l : list NodeData) :
  forall (s : S) (g : IGraph string EdgeData) (dict : JsMap.t nat) (k : string),
    get k (snd (fold_left (GraphBuilder.buildNode nodeCreated) l (s, g, dict)))
    <> None ->
    In k (map id l) \/ get k dict <> None.
Proof.
  induction l as [|data l IH]; intros s g dict k H; simpl in *; [now right|].
  destruct (nodeCreated s data) as [s' style]. simpl in H.
  destruct (IH _ _ _ _ H) as [Hin|Hget]; [now left; right|].
  rewrite get_set in Hget.
  destruct (String.eqb k (id data)) eqn:E; [|now right].
  apply String.eqb_eq in E. left. left. now symmetry.
Qed.

Lemma buildGraph_untouched_edges {S : Type} (clearsGraph : bool)
  (nodeCreated : S -> NodeData -> S * NodeStyle) (s : S)
  (g : IGraph string EdgeData) (nodesData : list NodeData)
  (edgesData : list EdgeData) (p : EdgeData -> bool) :
  (forall e, p e = false ->
             ~ In (source e) (map id nodesData)
             /\ ~ In (target e) (map id nodesData)) ->
  GraphBuilder.buildGraph clearsGraph nodeCreated s g nodesData
    (filter p edgesData)
  = GraphBuilder.buildGraph clearsGraph nodeCreated s g nodesData edgesData.
Proof.
  intros H. unfold GraphBuilder.buildGraph.
  pose proof (buildNodes_dict nodeCreated nodesData s
                (if clearsGraph then clear else g) []) as Hdict.
  set (built := fold_left (GraphBuilder.buildNode nodeCreated) nodesData _) in *.
  destruct built as [[s' g'] dict]. simpl in Hdict. f_equal.
  apply fold_filter_skip. intros b e He.
  destruct (H e He) as [Hs Ht]. unfold GraphBuilder.buildEdge.
  destruct (get (source e) dict) eqn:Gs.
  - exfalso. destruct (Hdict (source e)) as [Hin|Hn];
      [congruence|contradiction|now apply Hn].
  - reflexivity.
Qed.

Lemma lastWins_ids (l : list NodeData) (k : string) :
  In k (map id (values (fold_left (fun m node => set (id node) node m) l []))) ->
  In k (map id l).
Proof.
  rewrite (DedupFacts.keyed_ids _ (rev l)).
  - rewrite DedupFacts.lastWins_keys. apply In_distinct.
  - rewrite DedupFacts.lastWins_keys. apply NoDup_distinct.
  - intros k'. apply DedupFacts.lastWins_get.
Qed.

(** [applyClustering] does not look at the progress bar. *)
Lemma applyClustering_progress
  (nodeClusterIds : IGraph string EdgeData -> nat -> option nat)
  (g : IGraph string EdgeData) (b : list Element) (v : list ViewCall)
  (p1 p2 : Progress) :
  option_map (fun s => (graph s, body s, view s))
    (applyClustering nodeClusterIds (mkState g b v p1))
  = option_map (fun s => (graph s, body s, view s))
      (applyClustering nodeClusterIds (mkState g b v p2)).
Proof.
  unfold applyClustering. simpl.
  destruct (forEachM paintCluster _ (g, 0)) as [[g1 i1]|]; simpl; [|reflexivity].
  destruct (pruneIsolated g1); reflexivity.
Qed.

End SingleChunk.

(** When the whole node list fits into one chunk (in particular for a chunk
    size of N or N+1 on N >= 1 records, and for the source's chunk size on up
    to 100 records), the chunked loader leaves the graph, the legend and the
    view calls of the single construction. *)
Lemma single_chunk_load_is_single_build (clearsGraph : bool)
  (nodeClusterIds : IGraph string EdgeData -> nat -> option nat)
  (chunkSize : nat) (st : ChunkedLoader.State) (nodesData : list NodeData)
  (edgesData : list EdgeData) :
  1 <= List.length nodesData <= chunkSize ->
  option_map
    (fun s => (ChunkedLoader.graph s, ChunkedLoader.body s, ChunkedLoader.view s))
    (ChunkedLoader.loadGraphInChunksWith clearsGraph nodeClusterIds chunkSize
       st nodesData edgesData)
  = option_map
      (fun s => (ChunkedLoader.graph s, ChunkedLoader.body s, ChunkedLoader.view s))
      (ChunkedLoader.loadGraphAtOnce clearsGraph nodeClusterIds st nodesData
         edgesData).
Proof.
  intros H.
  unfold ChunkedLoader.loadGraphInChunksWith, ChunkedLoader.chunkLoop,
    ChunkedLoader.loadGraphAtOnce.
  rewrite (SingleChunk.totalChunks_one _ _ H). simpl.
  rewrite firstn_all2 by lia.
  unfold ChunkedLoader.updateGraphChunk.
  rewrite SingleChunk.buildGraph_untouched_edges.
  - set (built := snd (GraphBuilder.buildGraph _ _ _ _ _ _)).
    pose proof (SingleChunk.applyClustering_progress nodeClusterIds built
                  (ChunkedLoader.body st)
                  (ChunkedLoader.view st ++ [FitGraphBounds])
                  (ChunkedLoader.mkProgress false 1 1)
                  (ChunkedLoader.progress st)) as P.
    destruct (ChunkedLoader.applyClustering nodeClusterIds
                (ChunkedLoader.mkState built (ChunkedLoader.body st)
                   (ChunkedLoader.view st ++ [FitGraphBounds])
                   (ChunkedLoader.mkProgress false 1 1))) as [s1|];
      destruct (ChunkedLoader.applyClustering nodeClusterIds
                  (ChunkedLoader.mkState built (ChunkedLoader.body st)
                     (ChunkedLoader.view st ++ [FitGraphBounds])
                     (ChunkedLoader.progress st))) as [s2|];
      simpl in *; try discriminate; [|reflexivity].
    injection P as -> -> ->. reflexivity.
  - intros e He.
    assert (Hall : forall n, In n nodesData ->
                     String.eqb (id n) (source e) = false
                     /\ String.eqb (id n) (target e) = false).
    { intros n Hn. apply orb_false_iff.
      destruct (String.eqb (id n) (source e) || String.eqb (id n) (target e))
        eqn:T; [|reflexivity].
      rewrite <- He. symmetry. apply existsb_exists. now exists n. }
    split; intros Hin; apply SingleChunk.lastWins_ids in Hin;
      apply in_map_iff in Hin; destruct Hin as [n [E Hn]];
      destruct (Hall n Hn) as [Hs Ht]; rewrite E in *;
      [rewrite String.eqb_refl in Hs|rewrite String.eqb_refl in Ht];
      discriminate.
Qed.

(* ================================================================== *)
(** * Part III: further properties of the loaders *)
(* ================================================================== *)

(** ** The graph left by [updateGraph] *)
Module DirectShape.
Import DirectLoader.

Lemma paintedNodes_refs (l : list NodeData) :
  forall palette r, map nref (paintedNodes palette r l) = seq r (List.length l).
Proof.
  induction l as [|node l IH]; intros palette r; simpl; [reflexivity|].
  now rewrite IH.
Qed.

Lemma paintedNodes_labels (l : list NodeData) :
  forall palette r n,
    In n (paintedNodes palette r l) ->
    nlabels n = [orElse (label (ntag n)) "No Label"].
Proof.
  induction l as [|node l IH]; intros palette r n Hn; simpl in *; [tauto|].
  destruct Hn as [<-|Hn]; [reflexivity|]. now apply IH in Hn.
Qed.

Lemma attachedEdges_refs (ns : list (INode NodeData)) (l : list ConsolidatedEdge) :
  forall r,
    map eref (attachedEdges ns r l)
    = seq r (List.length (attachedEdges ns r l)).
Proof.
  induction l as [|edge l IH]; intros r; simpl; [reflexivity|].
  destruct (find (fun node => String.eqb (id (ntag node)) (c_source edge)) ns);
    [destruct (find (fun node => String.eqb (id (ntag node)) (c_target edge)) ns)|];
    simpl; now rewrite IH.
Qed.

Lemma attachedEdges_labels (ns : list (INode NodeData))
  (l : list ConsolidatedEdge) :
  forall r e,
    In e (attachedEdges ns r l) ->
    elabels e = [orElse (c_edgeType (etag e)) "No Type"].
Proof.
  induction l as [|edge l IH]; intros r e He; simpl in *; [tauto|].
  destruct (find (fun node => String.eqb (id (ntag node)) (c_source edge)) ns);
    [destruct (find (fun node => String.eqb (id (ntag node)) (c_target edge)) ns)|];
    simpl in He; try (now apply (IH r)).
  destruct He as [<-|He]; [reflexivity|]. now apply (IH (S r)).
Qed.

(** Both ends of an edge are the first nodes, in creation order, whose
    record carries the edge's source and target id. *)
Lemma attachedEdges_ends (ns : list (INode NodeData))
  (l : list ConsolidatedEdge) :
  forall r e,
    In e (attachedEdges ns r l) ->
    exists s t,
      find (fun node => String.eqb (id (ntag node)) (c_source (etag e))) ns
      = Some s
      /\ find (fun node => String.eqb (id (ntag node)) (c_target (etag e))) ns
         = Some t
      /\ esource e = nref s /\ etarget e = nref t.
Proof.
  induction l as [|edge l IH]; intros r e He; simpl in *; [tauto|].
  destruct (find (fun node => String.eqb (id (ntag node)) (c_source edge)) ns)
    as [s|] eqn:Fs;
    [destruct (find (fun node => String.eqb (id (ntag node)) (c_target edge)) ns)
       as [t|] eqn:Ft|];
    simpl in He; try (now apply (IH r)).
  destruct He as [<-|He]; [|now apply (IH (S r))].
  exists s, t. simpl. auto.
Qed.

Lemma orElse_truthy (o : option string) (d : string) :
  truthy d = true -> truthy (orElse o d) = true.
Proof.
  intros Hd. destruct o as [s|]; simpl; [|assumption].
  destruct (truthy s) eqn:E; assumption.
Qed.

Lemma direct_unique_ids (nodesData : list NodeData) :
  map id (JsMap.values (uniqueNodes nodesData)) = distinct (map id nodesData).
Proof.
  rewrite (DedupFacts.keyed_ids (uniqueNodes nodesData) nodesData).
  - apply DedupFacts.firstWins_keys.
  - rewrite DedupFacts.firstWins_keys. apply NoDup_distinct.
  - apply DedupFacts.firstWins_get.
Qed.

End DirectShape.

(** X1.  [updateGraph] never throws, and in the graph it leaves every node
    carries exactly one label, the [label] of its record or ["No Label"]
    when that is absent or empty, and every edge carries exactly one label,
    the [edgeType] of its consolidated record or ["No Type"]; so no label
    has an empty text. *)
Theorem updateGraph_labels_every_element :
  forall (colorToString : string -> string) (st : DirectLoader.State)
         (nodesData : list NodeData) (edgesData : list EdgeData),
  exists st',
    DirectLoader.updateGraph colorToString st nodesData edgesData = Some st'
    /\ (forall n, In n (nodes (DirectLoader.graph st')) ->
          nlabels n = [orElse (label (ntag n)) "No Label"])
    /\ (forall e, In e (edges (DirectLoader.graph st')) ->
          elabels e = [orElse (DirectLoader.c_edgeType (etag e)) "No Type"])
    /\ (forall n text, In n (nodes (DirectLoader.graph st')) ->
          In text (nlabels n) -> truthy text = true)
    /\ (forall e text, In e (edges (DirectLoader.graph st')) ->
          In text (elabels e) -> truthy text = true).
Proof.
  intros colorToString st nodesData edgesData.
  eexists. split; [apply updateGraph_closed|]. simpl.
  assert (Hn : forall n,
             In n (DirectLoader.paintedNodes ([], 0) 0
                     (JsMap.values (DirectLoader.uniqueNodes nodesData))) ->
             nlabels n = [orElse (label (ntag n)) "No Label"])
    by (intros n; apply DirectShape.paintedNodes_labels).
  assert (He : forall e,
             In e (DirectLoader.attachedEdges
                     (DirectLoader.paintedNodes ([], 0) 0
                        (JsMap.values (DirectLoader.uniqueNodes nodesData)))
                     (List.length
                        (JsMap.values (DirectLoader.uniqueNodes nodesData)))
                     (JsMap.values
                        (DirectLoader.consolidatedEdges edgesData))) ->
             elabels e = [orElse (DirectLoader.c_edgeType (etag e)) "No Type"])
    by (intros e; apply DirectShape.attachedEdges_labels).
  repeat split; auto.
  - intros n text Hin Ht. rewrite (Hn n Hin) in Ht.
    destruct Ht as [<-|[]]. now apply DirectShape.orElse_truthy.
  - intros e text Hin Ht. rewrite (He e Hin) in Ht.
    destruct Ht as [<-|[]]. now apply DirectShape.orElse_truthy.
Qed.

(** X2.  The graph left by [updateGraph] is well formed: node identities
    are pairwise distinct, no two nodes carry the same record id, edge
    identities are pairwise distinct, and each edge runs from a node of the
    graph whose record id is the edge's [source] to a node of the graph
    whose record id is the edge's [target]. *)
Theorem updateGraph_edges_join_matching_nodes :
  forall (colorToString : string -> string) (st : DirectLoader.State)
         (nodesData : list NodeData) (edgesData : list EdgeData),
  exists st',
    DirectLoader.updateGraph colorToString st nodesData edgesData = Some st'
    /\ NoDup (map nref (nodes (DirectLoader.graph st')))
    /\ NoDup (map (fun n => id (ntag n)) (nodes (DirectLoader.graph st')))
    /\ NoDup (map eref (edges (DirectLoader.graph st')))
    /\ forall e, In e (edges (DirectLoader.graph st')) ->
         exists s t,
           In s (nodes (DirectLoader.graph st'))
           /\ In t (nodes (DirectLoader.graph st'))
           /\ esource e = nref s /\ etarget e = nref t
           /\ id (ntag s) = DirectLoader.c_source (etag e)
           /\ id (ntag t) = DirectLoader.c_target (etag e).
Proof.
  intros colorToString st nodesData edgesData.
  eexists. split; [apply updateGraph_closed|]. simpl.
  split; [|split; [|split]].
  - rewrite DirectShape.paintedNodes_refs. apply seq_NoDup.
  - rewrite <- (map_map ntag id), DirectFacts.paintedNodes_tags.
    rewrite DirectShape.direct_unique_ids. apply NoDup_distinct.
  - rewrite DirectShape.attachedEdges_refs. apply seq_NoDup.
  - intros e He.
    destruct (DirectShape.attachedEdges_ends _ _ _ _ He)
      as [s [t [Fs [Ft [Es Et]]]]].
    apply find_some in Fs. apply find_some in Ft.
    destruct Fs as [Is Ps]. destruct Ft as [It Pt].
    apply String.eqb_eq in Ps. apply String.eqb_eq in Pt.
    exists s, t. auto 10.
Qed.

(** ** The legend collected from the graph *)
Module LegendRows.
Import DirectLoader.

Section Uniform.
Variable colorToString : string -> string.
(** The fill that every node of a type carries. *)
Variable fillOf : string -> string.

(** When the fill of a node is determined by its type, the collected map
    holds every non-empty type of the graph once, with that fill printed; a
    type named like a member of [Object.prototype] reads as collected from
    the start and gets no entry. *)
Lemma legendRows_uniform (ns : list (INode NodeData)) :
  (forall n, In n ns -> inherited (type (ntag n)) = false ->
             nstyle n = ShapeNodeStyle (fillOf (type (ntag n)))) ->
  forall (es : list (IEdge ConsolidatedEdge)) (f : nat),
    NoDup (JsMap.keys (legendRows colorToString (mkIGraph ns es f)))
    /\ forall t,
         JsMap.get t (legendRows colorToString (mkIGraph ns es f))
         = if truthy t && ordinary t
              && existsb (String.eqb t) (map (fun n => type (ntag n)) ns)
           then Some (colorToString (fillOf t))
           else None.
Proof.
  intros Hfill es f. unfold legendRows. simpl. clear es f.
  induction ns as [|n ns IH] using rev_ind.
  - simpl. split; [constructor|]. intros t. now rewrite andb_false_r.
  - assert (Hns : forall x, In x ns -> inherited (type (ntag x)) = false ->
                    nstyle x = ShapeNodeStyle (fillOf (type (ntag x))))
      by (intros x Hx; apply Hfill, in_or_app; now left).
    destruct (IH Hns) as [Hkeys Hget]. clear IH.
    rewrite fold_left_app. cbn [fold_left].
    match type of Hkeys with NoDup (JsMap.keys ?x) => set (m := x) in * end.
    set (t0 := type (ntag n)).
    destruct (inherited t0) eqn:I.
    + assert (G0 : JsMap.get t0 m = None).
      { rewrite Hget. unfold ordinary. rewrite I. simpl.
        now rewrite andb_false_r. }
      rewrite (ColourFacts.unset_inherited t0 m I G0), andb_false_r.
      split; [assumption|].
      intros t. rewrite Hget, map_app, existsb_app. simpl. fold t0.
      rewrite orb_false_r.
      destruct (String.eqb t t0) eqn:E; [|now rewrite orb_false_r].
      apply String.eqb_eq in E. subst t. unfold ordinary. rewrite I.
      simpl. now rewrite andb_false_r.
    + rewrite (ColourFacts.unset_ordinary t0 m I).
      rewrite (Hfill n) by (try (apply in_or_app; right; now left); exact I).
      fold t0.
      assert (O : ordinary t0 = true) by (unfold ordinary; now rewrite I).
      assert (Hrow : forall t,
                 (if truthy t && ordinary t
                     && existsb (String.eqb t)
                          (map (fun n => type (ntag n)) (ns ++ [n]))
                  then Some (colorToString (fillOf t))
                  else None)
                 = if String.eqb t t0 && truthy t0
                   then Some (colorToString (fillOf t0))
                   else JsMap.get t m).
      { intros t. rewrite map_app, existsb_app. simpl. fold t0.
        rewrite orb_false_r, Hget.
        destruct (String.eqb t t0) eqn:E.
        - apply String.eqb_eq in E. subst t.
          rewrite O, orb_true_r, !andb_true_r. simpl.
          destruct (truthy t0); reflexivity.
        - rewrite orb_false_r. reflexivity. }
      destruct (truthy t0 && falsy (JsMap.get t0 m)) eqn:C.
      * apply andb_true_iff in C. destruct C as [Ct Cf]. split.
        -- rewrite JsMapFacts.keys_set.
           destruct (JsMap.has t0 m) eqn:Has; [assumption|].
           rewrite JsMapFacts.has_keys in Has.
           apply NoDup_app; [assumption|repeat constructor; simpl; tauto|].
           intros k Hk [<-|[]].
           apply existsb_eqb_In in Hk. congruence.
        -- intros t. rewrite Hrow, JsMapFacts.get_set, Ct, andb_true_r.
           reflexivity.
      * split; [assumption|]. intros t. rewrite Hrow.
        destruct (String.eqb t t0) eqn:E; [|reflexivity].
        apply String.eqb_eq in E. subst t. simpl.
        destruct (truthy t0) eqn:Ct; [|reflexivity].
        simpl in C. rewrite Hget, Ct, O in *. simpl in *.
        destruct (existsb (String.eqb t0) (map (fun n => type (ntag n)) ns));
          [reflexivity|discriminate].
Qed.

End Uniform.

End LegendRows.

(** X3.  The legend that [updateGraph] appends agrees with the graph it has
    just built: the legend is the last child of the body, it has no two rows
    for the same type, and it has a row (type, colour) exactly when the type
    is non-empty, is no member name of [Object.prototype], and some node of
    that type is filled with that colour.  Nodes whose type is empty or is
    such a member name have no row. *)
Theorem updateGraph_legend_matches_fills :
  forall (colorToString : string -> string) (st : DirectLoader.State)
         (nodesData : list NodeData) (edgesData : list EdgeData),
  exists st' legend,
    DirectLoader.updateGraph colorToString st nodesData edgesData = Some st'
    /\ DirectLoader.body st'
       = detach DirectLoader.legendId (DirectLoader.body st) ++ [legend]
    /\ elId legend = DirectLoader.legendId
    /\ NoDup (map fst (rows legend))
    /\ (forall t c,
          In (t, c) (rows legend) <->
          truthy t = true
          /\ inherited t = false
          /\ exists n fill,
               In n (nodes (DirectLoader.graph st'))
               /\ type (ntag n) = t
               /\ nstyle n = ShapeNodeStyle fill
               /\ c = colorToString fill)
    /\ (forall t,
          truthy t = false \/ inherited t = true ->
          ~ In t (map fst (rows legend))).
Proof.
  intros colorToString st nodesData edgesData.
  eexists. eexists. split; [apply updateGraph_closed|]. simpl.
  split; [reflexivity|]. split; [reflexivity|].
  set (U := JsMap.values (DirectLoader.uniqueNodes nodesData)).
  set (ns := DirectLoader.paintedNodes ([], 0) 0 U).
  set (fillOf := fun t =>
         match JsMap.get t
                 (fst (fold_left (fun st node => assignColor st (type node)) U
                         ([], 0))) with
         | Some c => c
         | None => ""
         end).
  assert (Hfill : forall n, In n ns -> inherited (type (ntag n)) = false ->
                    nstyle n = ShapeNodeStyle (fillOf (type (ntag n)))).
  { intros n Hn I.
    destruct (DirectFacts.paintedNodes_fill _ _ _ _ Hn I) as [c [S G]].
    unfold fillOf. now rewrite G. }
  match goal with
  | |- context [DirectLoader.legendRows _ (mkIGraph ns ?es ?f)] =>
      destruct (LegendRows.legendRows_uniform colorToString fillOf ns Hfill es f)
        as [Hkeys Hget];
      set (G := mkIGraph ns es f) in *
  end.
  split; [now apply JsObjectOrder.entries_keys_NoDup|].
  assert (Hrows : forall t c,
             In (t, c) (rows {| elId := DirectLoader.legendId;
                                rows := JsObject.entries
                                          (DirectLoader.legendRows
                                             colorToString G) |}) ->
             truthy t = true /\ inherited t = false
             /\ existsb (String.eqb t) (map (fun n => type (ntag n)) ns) = true
             /\ c = colorToString (fillOf t)).
  { intros t c. cbn [rows]. rewrite JsObjectFacts.entries_In. intros Hin.
    apply JsMapFacts.In_get in Hin; [|assumption].
    rewrite Hget in Hin. unfold ordinary in Hin.
    destruct (truthy t); [|discriminate].
    destruct (inherited t); [discriminate|]. simpl in Hin.
    destruct (existsb (String.eqb t) (map (fun n => type (ntag n)) ns));
      [|discriminate].
    injection Hin as <-. auto. }
  split.
  - intros t c. split.
    + intros Hin. destruct (Hrows t c Hin) as [Ct [I [Ex ->]]].
      split; [exact Ct|]. split; [exact I|].
      apply existsb_eqb_In, in_map_iff in Ex. destruct Ex as [n [Tn Hn]].
      exists n, (fillOf t). rewrite <- Tn at 2.
      rewrite <- Tn in I. auto using Hfill.
    + intros [Ct [I [n [fill [Hn [Tn [Sn ->]]]]]]].
      cbn [rows]. rewrite JsObjectFacts.entries_In.
      apply JsMapFacts.get_In. rewrite Hget, Ct. unfold ordinary.
      rewrite I. simpl.
      assert (Ex : existsb (String.eqb t) (map (fun n => type (ntag n)) ns)
                   = true).
      { apply existsb_eqb_In, in_map_iff. now exists n. }
      rewrite Ex. rewrite <- Tn in I. rewrite (Hfill n Hn I), Tn in Sn.
      now injection Sn as <-.
  - intros t Hno Hin. apply in_map_iff in Hin.
    destruct Hin as [[t' c] [Et Hin]]. simpl in Et. subst t'.
    destruct (Hrows t c Hin) as [Ct [I _]].
    destruct Hno; congruence.
Qed.

(** ** Counting in the consolidation *)
Module ConsolidationCount.
Import DirectLoader.

Lemma counted_update (k : string) (m : JsMap.t ConsolidatedEdge) :
  JsMap.has k m = true ->
  list_sum (map count (JsMap.values (JsMap.update k countUp m)))
  = list_sum (map count (JsMap.values m)) + 1.
Proof.
  unfold JsMap.has.
  induction m as [|[k' c] m IH]; simpl; [discriminate|].
  destruct (String.eqb k k'); simpl; [lia|].
  intros H. specialize (IH H). unfold JsMap.values in *. lia.
Qed.

Lemma counted_set (k : string) (c : ConsolidatedEdge)
  (m : JsMap.t ConsolidatedEdge) :
  JsMap.has k m = false ->
  list_sum (map count (JsMap.values (JsMap.set k c m)))
  = list_sum (map count (JsMap.values m)) + count c.
Proof.
  intros H. rewrite ColourFacts.set_absent.
  - unfold JsMap.values. rewrite !map_app, list_sum_app. simpl. lia.
  - unfold JsMap.has in H. destruct (JsMap.get k m); [discriminate|reflexivity].
Qed.

Lemma counted_rows (edgesData : list EdgeData) :
  list_sum (map count (JsMap.values (consolidatedEdges edgesData)))
  = List.length edgesData.
Proof.
  induction edgesData as [|e l IH] using rev_ind; [reflexivity|].
  rewrite ConsolidationFacts.consolidatedEdges_snoc, length_app. simpl.
  destruct (JsMap.has (edgeKey e) (consolidatedEdges l)) eqn:H.
  - rewrite counted_update by assumption. lia.
  - rewrite counted_set by assumption. simpl. lia.
Qed.

Lemma counted_positive (edgesData : list EdgeData) (c : ConsolidatedEdge) :
  In c (JsMap.values (consolidatedEdges edgesData)) -> 1 <= count c.
Proof.
  intros Hc. apply in_map_iff in Hc. destruct Hc as [[k c'] [E Hin]].
  simpl in E. subst c'.
  apply JsMapFacts.In_get in Hin.
  - rewrite ConsolidationFacts.consolidatedEdges_get in Hin.
    destruct (find (fun e => String.eqb (edgeKey e) k) edgesData) as [first|] eqn:F;
      [|discriminate].
    injection Hin as <-. simpl.
    apply find_some in F.
    assert (In first (filter (fun e => String.eqb (edgeKey e) k) edgesData))
      by (now apply filter_In).
    destruct (filter (fun e => String.eqb (edgeKey e) k) edgesData);
      [contradiction|simpl; lia].
  - rewrite ConsolidationFacts.consolidatedEdges_keys. apply NoDup_distinct.
Qed.

Lemma counted_entries (l : list ConsolidatedEdge) :
  (forall c, In c l -> 1 <= count c) ->
  List.length l <= list_sum (map count l).
Proof.
  induction l as [|c l IH]; intros H; simpl; [lia|].
  pose proof (H c (or_introl eq_refl)).
  assert (List.length l <= list_sum (map count l))
    by (apply IH; intros x Hx; apply H; now right).
  lia.
Qed.

End ConsolidationCount.

(** X4.  Consolidation loses no edge row: the [count] fields of the
    consolidated edges add up to the number of rows read, every consolidated
    edge stands for at least one row, and there are never more consolidated
    edges than rows. *)
Theorem consolidation_counts_add_up :
  forall edgesData : list EdgeData,
    list_sum (map DirectLoader.count
                (JsMap.values (DirectLoader.consolidatedEdges edgesData)))
    = List.length edgesData
    /\ (forall c,
          In c (JsMap.values (DirectLoader.consolidatedEdges edgesData)) ->
          1 <= DirectLoader.count c)
    /\ List.length (JsMap.values (DirectLoader.consolidatedEdges edgesData))
       <= List.length edgesData.
Proof.
  intros edgesData. split; [apply ConsolidationCount.counted_rows|].
  split; [apply ConsolidationCount.counted_positive|].
  pose proof (ConsolidationCount.counted_entries
                (JsMap.values (DirectLoader.consolidatedEdges edgesData))
                (ConsolidationCount.counted_positive edgesData)) as H.
  now rewrite ConsolidationCount.counted_rows in H.
Qed.

(** X5.  Empty inputs to [updateGraph].  Without node records no edge is
    created whatever the edge rows are: the graph is left empty, the legend
    has no row and the view is still fitted.  Without edge rows the graph
    holds one node per distinct id and no edge. *)
Theorem updateGraph_on_empty_inputs :
  forall (colorToString : string -> string) (st : DirectLoader.State),
    (forall edgesData : list EdgeData,
       DirectLoader.updateGraph colorToString st [] edgesData
       = Some (DirectLoader.mkState clear
                 (detach DirectLoader.legendId (DirectLoader.body st)
                  ++ [mkElement DirectLoader.legendId []])
                 (DirectLoader.view st ++ [FitGraphBounds])))
    /\
    (forall nodesData : list NodeData,
       exists st',
         DirectLoader.updateGraph colorToString st nodesData [] = Some st'
         /\ edges (DirectLoader.graph st') = []
         /\ map (fun n => id (ntag n)) (nodes (DirectLoader.graph st'))
            = distinct (map id nodesData)).
Proof.
  intros colorToString st. split.
  - intros edgesData. rewrite updateGraph_closed. simpl.
    assert (E : forall l r, DirectLoader.attachedEdges [] r l = [])
      by (induction l as [|e l IH]; intros r; simpl; auto).
    rewrite E. reflexivity.
  - intros nodesData. eexists. split; [apply updateGraph_closed|]. simpl.
    split; [reflexivity|].
    rewrite <- (map_map ntag id), DirectFacts.paintedNodes_tags.
    apply DirectShape.direct_unique_ids.
Qed.

(** ** Loops over the elements of a graph

    The toggles visit the nodes (or the edges) one by one and change the
    visited element only.  When identities are pairwise distinct, such a
    loop maps a per-element function over the whole collection. *)
Section KeyedFacts.
Context {A : Type}.
Variable key : A -> nat.

Lemma untouched_keyed (f : A -> A) (k : nat) (l : list A) :
  ~ In k (map key l) ->
  map (fun y => if key y =? k then f y else y) l = l.
Proof.
  induction l as [|a l IH]; simpl; intros H; [reflexivity|].
  destruct (key a =? k) eqn:E.
  - apply Nat.eqb_eq in E. tauto.
  - rewrite IH; tauto.
Qed.

Lemma keyed_apart (done rest : list A) (x : A) :
  NoDup (map key (done ++ x :: rest)) ->
  ~ In (key x) (map key done) /\ ~ In (key x) (map key rest).
Proof.
  rewrite map_app. simpl. intros H. apply NoDup_remove_2 in H.
  split; intros Hin; apply H, in_or_app; tauto.
Qed.

Lemma find_keyed (done rest : list A) (x : A) :
  NoDup (map key (done ++ x :: rest)) ->
  find (fun y => key y =? key x) (done ++ x :: rest) = Some x.
Proof.
  intros H. destruct (keyed_apart _ _ _ H) as [Hd _]. clear H.
  induction done as [|a done IH]; simpl in *.
  - now rewrite Nat.eqb_refl.
  - destruct (key a =? key x) eqn:E.
    + apply Nat.eqb_eq in E. tauto.
    + apply IH. tauto.
Qed.

Lemma touch_keyed (f : A -> A) (done rest : list A) (x : A) :
  NoDup (map key (done ++ x :: rest)) ->
  map (fun y => if key y =? key x then f y else y) (done ++ x :: rest)
  = done ++ f x :: rest.
Proof.
  intros H. destruct (keyed_apart _ _ _ H) as [Hd Hr].
  rewrite map_app. simpl. rewrite Nat.eqb_refl.
  now rewrite !untouched_keyed.
Qed.

Lemma existsb_keyed (done rest : list A) (x : A) :
  existsb (fun y => key y =? key x) (done ++ x :: rest) = true.
Proof.
  rewrite existsb_app. simpl. rewrite Nat.eqb_refl. apply orb_true_r.
Qed.

End KeyedFacts.

Section NodeSweep.
Context {NT ET : Type}.
Variable step : IGraph NT ET -> nat -> option (IGraph NT ET).
Variable upd : INode NT -> INode NT.
Hypothesis upd_ref : forall n, nref (upd n) = nref n.
Hypothesis step_one :
  forall done n rest es f,
    NoDup (map nref (done ++ n :: rest)) ->
    step (mkIGraph (done ++ n :: rest) es f) (nref n)
    = Some (mkIGraph (done ++ upd n :: rest) es f).

Lemma node_sweep_from (rest : list (INode NT)) :
  forall done es f,
    NoDup (map nref (done ++ rest)) ->
    forEachM step (map nref rest) (mkIGraph (done ++ rest) es f)
    = Some (mkIGraph (done ++ map upd rest) es f).
Proof.
  induction rest as [|n rest IH]; intros done es f H; simpl; [reflexivity|].
  rewrite step_one by assumption. simpl.
  replace (done ++ upd n :: rest) with ((done ++ [upd n]) ++ rest)
    by (now rewrite <- app_assoc).
  rewrite IH.
  - now rewrite <- app_assoc.
  - rewrite <- app_assoc. simpl.
    rewrite map_app in *. simpl in *. now rewrite upd_ref.
Qed.

Lemma node_sweep (g : IGraph NT ET) :
  NoDup (map nref (nodes g)) ->
  forEachM step (map nref (nodes g)) g
  = Some (mkIGraph (map upd (nodes g)) (edges g) (fresh g)).
Proof.
  intros H. destruct g as [ns es f]. simpl in *.
  exact (node_sweep_from ns [] es f H).
Qed.

End NodeSweep.

Section EdgeSweep.
Context {NT ET : Type}.
Variable step : IGraph NT ET -> nat -> option (IGraph NT ET).
Variable upd : IEdge ET -> IEdge ET.
Hypothesis upd_ref : forall e, eref (upd e) = eref e.
Hypothesis step_one :
  forall done e rest ns f,
    NoDup (map eref (done ++ e :: rest)) ->
    step (mkIGraph ns (done ++ e :: rest) f) (eref e)
    = Some (mkIGraph ns (done ++ upd e :: rest) f).

Lemma edge_sweep_from (rest : list (IEdge ET)) :
  forall done ns f,
    NoDup (map eref (done ++ rest)) ->
    forEachM step (map eref rest) (mkIGraph ns (done ++ rest) f)
    = Some (mkIGraph ns (done ++ map upd rest) f).
Proof.
  induction rest as [|e rest IH]; intros done ns f H; simpl; [reflexivity|].
  rewrite step_one by assumption. simpl.
  replace (done ++ upd e :: rest) with ((done ++ [upd e]) ++ rest)
    by (now rewrite <- app_assoc).
  rewrite IH.
  - now rewrite <- app_assoc.
  - rewrite <- app_assoc. simpl.
    rewrite map_app in *. simpl in *. now rewrite upd_ref.
Qed.

Lemma edge_sweep (g : IGraph NT ET) :
  NoDup (map eref (edges g)) ->
  forEachM step (map eref (edges g)) g
  = Some (mkIGraph (nodes g) (map upd (edges g)) (fresh g)).
Proof.
  intros H. destruct g as [ns es f]. simpl in *.
  exact (edge_sweep_from es [] ns f H).
Qed.

End EdgeSweep.

(** ** The label toggles, element by element *)
Section LabelFacts.
Context {NT ET : Type}.

Lemma removeNodeLabel_first (done rest : list (INode NT)) (r : nat) (t : NT)
  (s : NodeStyle) (x : string) (L : list string) (es : list (IEdge ET))
  (f : nat) :
  NoDup (map nref (done ++ mkINode r t s (x :: L) :: rest)) ->
  removeNodeLabel (mkIGraph (done ++ mkINode r t s (x :: L) :: rest) es f) r
  = Some (mkIGraph (done ++ mkINode r t s L :: rest) es f).
Proof.
  intros H. unfold removeNodeLabel, nodeLabels. simpl.
  pose proof (find_keyed nref done rest (mkINode r t s (x :: L)) H) as F.
  simpl in F. rewrite F. simpl.
  pose proof (touch_keyed nref
                (fun n => mkINode (nref n) (ntag n) (nstyle n) (tl (nlabels n)))
                done rest (mkINode r t s (x :: L)) H) as T.
  simpl in T. now rewrite T.
Qed.

Lemma removeNodeLabels_all (done rest : list (INode NT)) (n : INode NT)
  (es : list (IEdge ET)) (f : nat) :
  NoDup (map nref (done ++ n :: rest)) ->
  removeNodeLabels (mkIGraph (done ++ n :: rest) es f) (nref n)
  = Some (mkIGraph
            (done ++ mkINode (nref n) (ntag n) (nstyle n) [] :: rest) es f).
Proof.
  intros H. unfold removeNodeLabels, nodeLabels. simpl.
  rewrite (find_keyed nref done rest n H).
  destruct n as [r t s L]. simpl.
  induction L as [|x L IH]; simpl; [reflexivity|].
  rewrite removeNodeLabel_first by assumption. simpl.
  apply IH. rewrite map_app in *. exact H.
Qed.

Lemma removeEdgeLabel_first (done rest : list (IEdge ET)) (r a b : nat)
  (t : ET) (x : string) (L : list string) (ns : list (INode NT)) (f : nat) :
  NoDup (map eref (done ++ mkIEdge r a b t (x :: L) :: rest)) ->
  removeEdgeLabel (mkIGraph ns (done ++ mkIEdge r a b t (x :: L) :: rest) f) r
  = Some (mkIGraph ns (done ++ mkIEdge r a b t L :: rest) f).
Proof.
  intros H. unfold removeEdgeLabel, edgeLabels. simpl.
  pose proof (find_keyed eref done rest (mkIEdge r a b t (x :: L)) H) as F.
  simpl in F. rewrite F. simpl.
  pose proof (touch_keyed eref
                (fun e => mkIEdge (eref e) (esource e) (etarget e) (etag e)
                            (tl (elabels e)))
                done rest (mkIEdge r a b t (x :: L)) H) as T.
  simpl in T. now rewrite T.
Qed.

Lemma removeEdgeLabels_all (done rest : list (IEdge ET)) (e : IEdge ET)
  (ns : list (INode NT)) (f : nat) :
  NoDup (map eref (done ++ e :: rest)) ->
  removeEdgeLabels (mkIGraph ns (done ++ e :: rest) f) (eref e)
  = Some (mkIGraph ns
            (done ++ mkIEdge (eref e) (esource e) (etarget e) (etag e) []
                  :: rest) f).
Proof.
  intros H. unfold removeEdgeLabels, edgeLabels. simpl.
  rewrite (find_keyed eref done rest e H).
  destruct e as [r a b t L]. simpl.
  induction L as [|x L IH]; simpl; [reflexivity|].
  rewrite removeEdgeLabel_first by assumption. simpl.
  apply IH. rewrite map_app in *. exact H.
Qed.

(** [hideNodeLabels] and [hideEdgeLabels] in closed form. *)
Lemma hideNodeLabels_closed (g : IGraph NT ET) :
  NoDup (map nref (nodes g)) ->
  hideNodeLabels g
  = Some (mkIGraph
            (map (fun n => mkINode (nref n) (ntag n) (nstyle n) []) (nodes g))
            (edges g) (fresh g)).
Proof.
  intros H. unfold hideNodeLabels.
  apply (node_sweep removeNodeLabels
           (fun n => mkINode (nref n) (ntag n) (nstyle n) [])); auto.
  intros done n rest es f Hn. now apply removeNodeLabels_all.
Qed.

Lemma hideEdgeLabels_closed (g : IGraph NT ET) :
  NoDup (map eref (edges g)) ->
  hideEdgeLabels g
  = Some (mkIGraph (nodes g)
            (map (fun e => mkIEdge (eref e) (esource e) (etarget e) (etag e) [])
               (edges g))
            (fresh g)).
Proof.
  intros H. unfold hideEdgeLabels.
  apply (edge_sweep removeEdgeLabels
           (fun e => mkIEdge (eref e) (esource e) (etarget e) (etag e) []));
    auto.
  intros done e rest ns f He. now apply removeEdgeLabels_all.
Qed.

Section ShowFacts.
Variable edgeTypeOf : ET -> option string.
Variable labelOf : NT -> option string.

Lemma showEdgeLabel_one (done rest : list (IEdge ET)) (e : IEdge ET)
  (ns : list (INode NT)) (f : nat) :
  NoDup (map eref (done ++ e :: rest)) ->
  showEdgeLabel edgeTypeOf (mkIGraph ns (done ++ e :: rest) f) (eref e)
  = Some (mkIGraph ns
            (done ++
             match edgeTypeOf (etag e) with
             | Some text =>
                 if (List.length (elabels e) =? 0) && truthy text
                 then mkIEdge (eref e) (esource e) (etarget e) (etag e) [text]
                 else e
             | None => e
             end :: rest) f).
Proof.
  intros H. unfold showEdgeLabel. simpl.
  rewrite (find_keyed eref done rest e H).
  destruct (edgeTypeOf (etag e)) as [text|]; [|reflexivity].
  destruct ((List.length (elabels e) =? 0) && truthy text) eqn:C;
    [|reflexivity].
  unfold addEdgeLabel, isEdge. simpl.
  rewrite (existsb_keyed eref done rest e).
  rewrite (touch_keyed eref
             (fun e => mkIEdge (eref e) (esource e) (etarget e) (etag e)
                         (elabels e ++ [text])) done rest e H).
  apply andb_true_iff in C. destruct C as [C _].
  apply Nat.eqb_eq in C. destruct (elabels e); [reflexivity|discriminate].
Qed.

Lemma showNodeLabel_one (done rest : list (INode NT)) (n : INode NT)
  (es : list (IEdge ET)) (f : nat) :
  NoDup (map nref (done ++ n :: rest)) ->
  showNodeLabel labelOf (mkIGraph (done ++ n :: rest) es f) (nref n)
  = Some (mkIGraph
            (done ++
             match labelOf (ntag n) with
             | Some text =>
                 if (List.length (nlabels n) =? 0) && truthy text
                 then mkINode (nref n) (ntag n) (nstyle n) [text]
                 else n
             | None => n
             end :: rest) es f).
Proof.
  intros H. unfold showNodeLabel. simpl.
  rewrite (find_keyed nref done rest n H).
  destruct (labelOf (ntag n)) as [text|]; [|reflexivity].
  destruct ((List.length (nlabels n) =? 0) && truthy text) eqn:C;
    [|reflexivity].
  unfold addNodeLabel, isNode. simpl.
  rewrite (existsb_keyed nref done rest n).
  rewrite (touch_keyed nref
             (fun n => mkINode (nref n) (ntag n) (nstyle n)
                         (nlabels n ++ [text])) done rest n H).
  apply andb_true_iff in C. destruct C as [C _].
  apply Nat.eqb_eq in C. destruct (nlabels n); [reflexivity|discriminate].
Qed.

Lemma showEdgeLabels_closed (g : IGraph NT ET) :
  NoDup (map eref (edges g)) ->
  showEdgeLabels edgeTypeOf g
  = Some (mkIGraph (nodes g)
            (map (fun e =>
                    match edgeTypeOf (etag e) with
                    | Some text =>
                        if (List.length (elabels e) =? 0) && truthy text
                        then mkIEdge (eref e) (esource e) (etarget e) (etag e)
                               [text]
                        else e
                    | None => e
                    end) (edges g))
            (fresh g)).
Proof.
  intros H. unfold showEdgeLabels.
  apply (edge_sweep (showEdgeLabel edgeTypeOf)
           (fun e =>
              match edgeTypeOf (etag e) with
              | Some text =>
                  if (List.length (elabels e) =? 0) && truthy text
                  then mkIEdge (eref e) (esource e) (etarget e) (etag e) [text]
                  else e
              | None => e
              end)); auto.
  - intros e. destruct (edgeTypeOf (etag e)) as [text|]; [|reflexivity].
    destruct ((List.length (elabels e) =? 0) && truthy text); reflexivity.
  - intros done e rest ns f He. now apply showEdgeLabel_one.
Qed.

Lemma showNodeLabels_closed (g : IGraph NT ET) :
  NoDup (map nref (nodes g)) ->
  showNodeLabels labelOf g
  = Some (mkIGraph
            (map (fun n =>
                    match labelOf (ntag n) with
                    | Some text =>
                        if (List.length (nlabels n) =? 0) && truthy text
                        then mkINode (nref n) (ntag n) (nstyle n) [text]
                        else n
                    | None => n
                    end) (nodes g))
            (edges g) (fresh g)).
Proof.
  intros H. unfold showNodeLabels.
  apply (node_sweep (showNodeLabel labelOf)
           (fun n =>
              match labelOf (ntag n) with
              | Some text =>
                  if (List.length (nlabels n) =? 0) && truthy text
                  then mkINode (nref n) (ntag n) (nstyle n) [text]
                  else n
              | None => n
              end)); auto.
  - intros n. destruct (labelOf (ntag n)) as [text|]; [|reflexivity].
    destruct ((List.length (nlabels n) =? 0) && truthy text); reflexivity.
  - intros done n rest es f Hn. now apply showNodeLabel_one.
Qed.

End ShowFacts.

End LabelFacts.

(** X6.  [hideEdgeLabels] and [hideNodeLabels] (the same code in the first
    and the third revision) never throw on a graph whose elements are
    pairwise distinct: afterwards no edge (no node) carries a label, while
    identities, ends, tags, styles and the other kind of element are left as
    they were; hiding a second time changes nothing. *)
Theorem hide_labels_strips_every_label :
  forall (NT ET : Type) (g : IGraph NT ET),
    NoDup (map nref (nodes g)) ->
    NoDup (map eref (edges g)) ->
    (exists g',
       hideEdgeLabels g = Some g'
       /\ nodes g' = nodes g /\ fresh g' = fresh g
       /\ map (fun e => (eref e, esource e, etarget e, etag e)) (edges g')
          = map (fun e => (eref e, esource e, etarget e, etag e)) (edges g)
       /\ (forall e, In e (edges g') -> elabels e = [])
       /\ hideEdgeLabels g' = Some g')
    /\
    (exists g',
       hideNodeLabels g = Some g'
       /\ edges g' = edges g /\ fresh g' = fresh g
       /\ map (fun n => (nref n, ntag n, nstyle n)) (nodes g')
          = map (fun n => (nref n, ntag n, nstyle n)) (nodes g)
       /\ (forall n, In n (nodes g') -> nlabels n = [])
       /\ hideNodeLabels g' = Some g').
Proof.
  intros NT ET g Hn He. split.
  - eexists. split; [now apply hideEdgeLabels_closed|]. simpl.
    repeat split.
    + now rewrite map_map.
    + intros e Hin. apply in_map_iff in Hin. now destruct Hin as [e0 [<- _]].
    + rewrite hideEdgeLabels_closed; simpl; rewrite map_map; simpl;
        [reflexivity|assumption].
  - eexists. split; [now apply hideNodeLabels_closed|]. simpl.
    repeat split.
    + now rewrite map_map.
    + intros n Hin. apply in_map_iff in Hin. now destruct Hin as [n0 [<- _]].
    + rewrite hideNodeLabels_closed; simpl; rewrite map_map; simpl;
        [reflexivity|assumption].
Qed.

Lemma hide_labels_witness :
  (exists g',
     hideEdgeLabels
       (mkIGraph [mkINode 0 "a" DefaultNodeStyle ["x"; "y"];
                  mkINode 1 "b" DefaultNodeStyle []]
          [mkIEdge 2 0 1 "e" ["l"]] 3) = Some g'
     /\ edges g' = [mkIEdge 2 0 1 "e" []])
  /\ (exists g',
        hideNodeLabels
          (mkIGraph [mkINode 0 "a" DefaultNodeStyle ["x"; "y"];
                     mkINode 1 "b" DefaultNodeStyle []]
             [mkIEdge 2 0 1 "e" ["l"]] 3) = Some g'
        /\ map nlabels (nodes g') = [[]; []]).
Proof.
  destruct (hide_labels_strips_every_label string string
              (mkIGraph [mkINode 0 "a" DefaultNodeStyle ["x"; "y"];
                         mkINode 1 "b" DefaultNodeStyle []]
                 [mkIEdge 2 0 1 "e" ["l"]] 3))
    as [[ge [Ee _]] [gn [En _]]].
  - apply distinctNats_NoDup. reflexivity.
  - apply distinctNats_NoDup. reflexivity.
  - split.
    + exists ge. split; [exact Ee|].
      vm_compute in Ee. injection Ee as <-. reflexivity.
    + exists gn. split; [exact En|].
      vm_compute in En. injection En as <-. reflexivity.
Defined.

Section ShownFacts.
Context {ET : Type}.
Variable edgeTypeOf : ET -> option string.

(** What [showEdgeLabels] makes of one edge. *)
Lemma shown_twice (e : IEdge ET) :
  let shown := fun e : IEdge ET =>
    match edgeTypeOf (etag e) with
    | Some text =>
        if (List.length (elabels e) =? 0) && truthy text
        then mkIEdge (eref e) (esource e) (etarget e) (etag e) [text]
        else e
    | None => e
    end in
  shown (shown e) = shown e /\ eref (shown e) = eref e.
Proof.
  simpl. destruct (edgeTypeOf (etag e)) as [text|] eqn:T.
  - destruct ((List.length (elabels e) =? 0) && truthy text) eqn:C; simpl.
    + now rewrite T.
    + now rewrite T, C.
  - now rewrite T.
Qed.

Lemma shown_labelled (e : IEdge ET) :
  elabels e <> [] ->
  match edgeTypeOf (etag e) with
  | Some text =>
      if (List.length (elabels e) =? 0) && truthy text
      then mkIEdge (eref e) (esource e) (etarget e) (etag e) [text]
      else e
  | None => e
  end = e.
Proof.
  intros H. destruct (edgeTypeOf (etag e)); [|reflexivity].
  destruct (elabels e); [contradiction|reflexivity].
Qed.

End ShownFacts.

Lemma map_fixes {A : Type} (f : A -> A) (l : list A) :
  map f l = l <-> forall x, In x l -> f x = x.
Proof.
  induction l as [|a l IH]; simpl; split; try tauto.
  - intros E x [<-|Hx]; injection E as Ea El; [assumption|]. now apply IH.
  - intros H. f_equal; [apply H; now left|]. apply IH. intros x Hx.
    apply H. now right.
Qed.

(** X7.  [showEdgeLabels] (first and third revision) never throws on a
    graph with pairwise distinct edges.  It gives the label [edgeType] to
    exactly the edges that have no label and a non-empty [edgeType]; every
    other edge, and every node, is left alone.  Showing twice is the same as
    showing once, and a graph whose edges all carry a label is not
    changed. *)
Theorem showEdgeLabels_labels_bare_typed_edges :
  forall (NT ET : Type) (edgeTypeOf : ET -> option string) (g : IGraph NT ET),
    NoDup (map eref (edges g)) ->
    exists g',
      showEdgeLabels edgeTypeOf g = Some g'
      /\ nodes g' = nodes g /\ fresh g' = fresh g
      /\ edges g'
         = map (fun e =>
                  match edgeTypeOf (etag e) with
                  | Some text =>
                      if (List.length (elabels e) =? 0) && truthy text
                      then mkIEdge (eref e) (esource e) (etarget e) (etag e)
                             [text]
                      else e
                  | None => e
                  end) (edges g)
      /\ showEdgeLabels edgeTypeOf g' = Some g'
      /\ ((forall e, In e (edges g) -> elabels e <> []) -> g' = g).
Proof.
  intros NT ET edgeTypeOf g H.
  eexists. split; [now apply showEdgeLabels_closed|]. simpl.
  repeat split.
  - rewrite showEdgeLabels_closed; simpl.
    + f_equal. f_equal. rewrite map_map. apply map_ext. intros e.
      apply (shown_twice edgeTypeOf e).
    + rewrite map_map.
      erewrite map_ext; [exact H|]. intros e.
      apply (shown_twice edgeTypeOf e).
  - intros Hl. destruct g as [ns es f]. simpl in *. f_equal.
    apply map_fixes. intros e He. now apply shown_labelled, Hl.
Qed.

Lemma showEdgeLabels_witness :
  exists g',
    showEdgeLabels edgeType
      (mkIGraph [mkINode 0 "A" DefaultNodeStyle []]
         [mkIEdge 1 0 0 (mkEdge "a" "a" (Some "knows")) [];
          mkIEdge 2 0 0 (mkEdge "a" "a" (Some "likes")) ["kept"];
          mkIEdge 3 0 0 (mkEdge "a" "a" None) []] 4) = Some g'
    /\ map elabels (edges g') = [["knows"]; ["kept"]; []].
Proof.
  destruct (showEdgeLabels_labels_bare_typed_edges string EdgeData edgeType
              (mkIGraph [mkINode 0 "A" DefaultNodeStyle []]
                 [mkIEdge 1 0 0 (mkEdge "a" "a" (Some "knows")) [];
                  mkIEdge 2 0 0 (mkEdge "a" "a" (Some "likes")) ["kept"];
                  mkIEdge 3 0 0 (mkEdge "a" "a" None) []] 4))
    as [g' [E _]].
  - apply distinctNats_NoDup. reflexivity.
  - exists g'. split; [exact E|].
    vm_compute in E. injection E as <-. reflexivity.
Defined.

(** X8.  Toggling the edge labels off and on again after [updateGraph]
    does not bring the graph back: both clicks succeed, the first leaves no
    edge label, and after the second an edge shows its [edgeType] when that
    is non-empty and no label at all otherwise, so the ["No Type"] labels
    are lost.  The graph is the loaded one again exactly when every edge
    created has a non-empty [edgeType]. *)
Theorem edge_label_toggle_loses_placeholder_labels :
  forall (colorToString : string -> string) (st : DirectLoader.State)
         (nodesData : list NodeData) (edgesData : list EdgeData),
  exists st' hidden shown,
    DirectLoader.updateGraph colorToString st nodesData edgesData = Some st'
    /\ toggleEdgeLabels DirectLoader.c_edgeType (true, DirectLoader.graph st')
       = Some (false, hidden)
    /\ toggleEdgeLabels DirectLoader.c_edgeType (false, hidden)
       = Some (true, shown)
    /\ (forall e, In e (edges hidden) -> elabels e = [])
    /\ nodes shown = nodes (DirectLoader.graph st')
    /\ edges shown
       = map (fun e =>
                mkIEdge (eref e) (esource e) (etarget e) (etag e)
                  (if falsy (DirectLoader.c_edgeType (etag e)) then []
                   else [orElse (DirectLoader.c_edgeType (etag e)) "No Type"]))
           (edges (DirectLoader.graph st'))
    /\ (shown = DirectLoader.graph st'
        <-> forall e, In e (edges (DirectLoader.graph st')) ->
                      falsy (DirectLoader.c_edgeType (etag e)) = false).
Proof.
  intros colorToString st nodesData edgesData.
  set (U := JsMap.values (DirectLoader.uniqueNodes nodesData)).
  set (ns := DirectLoader.paintedNodes ([], 0) 0 U).
  set (es := DirectLoader.attachedEdges ns (List.length U)
               (JsMap.values (DirectLoader.consolidatedEdges edgesData))).
  set (G := mkIGraph ns es (List.length U + List.length es)).
  assert (Hes : NoDup (map eref es))
    by (unfold es; rewrite DirectShape.attachedEdges_refs; apply seq_NoDup).
  assert (Hlab : forall e, In e es ->
                   elabels e
                   = [orElse (DirectLoader.c_edgeType (etag e)) "No Type"])
    by (intros e; apply DirectShape.attachedEdges_labels).
  assert (Hshown :
            map (fun e : IEdge DirectLoader.ConsolidatedEdge =>
                   match DirectLoader.c_edgeType (etag e) with
                   | Some text =>
                       if (List.length (elabels e) =? 0) && truthy text
                       then mkIEdge (eref e) (esource e) (etarget e) (etag e)
                              [text]
                       else e
                   | None => e
                   end)
              (map (fun e => mkIEdge (eref e) (esource e) (etarget e) (etag e) [])
                 es)
            = map (fun e =>
                     mkIEdge (eref e) (esource e) (etarget e) (etag e)
                       (if falsy (DirectLoader.c_edgeType (etag e)) then []
                        else [orElse (DirectLoader.c_edgeType (etag e))
                                "No Type"])) es).
  { rewrite map_map. apply map_ext. intros e. simpl.
    destruct (DirectLoader.c_edgeType (etag e)) as [text|]; simpl;
      [|reflexivity].
    destruct (truthy text); reflexivity. }
  exists (DirectLoader.mkState G
            (DirectLoader.createLegend colorToString G (DirectLoader.body st))
            (DirectLoader.view st ++ [FitGraphBounds])).
  exists (mkIGraph ns
            (map (fun e => mkIEdge (eref e) (esource e) (etarget e) (etag e) [])
               es)
            (List.length U + List.length es)).
  eexists. split; [apply updateGraph_closed|]. simpl.
  rewrite (hideEdgeLabels_closed G Hes). simpl.
  split; [reflexivity|].
  rewrite showEdgeLabels_closed
    by (simpl; rewrite map_map; exact Hes).
  simpl. rewrite Hshown.
  split; [reflexivity|].
  split.
  { intros e Hin. apply in_map_iff in Hin. now destruct Hin as [e0 [<- _]]. }
  split; [reflexivity|]. split; [reflexivity|].
  unfold G. split.
  - intros E e He. injection E as E.
    apply map_fixes with (x := e) in E; [|assumption].
    destruct (falsy (DirectLoader.c_edgeType (etag e))) eqn:F; [|reflexivity].
    pose proof (f_equal elabels E) as L. simpl in L.
    rewrite (Hlab e He) in L. discriminate.
  - intros Hall. f_equal. apply map_fixes. intros e He.
    rewrite (Hall e He). rewrite <- (Hlab e He). now destruct e.
Qed.

Lemma forEachM_unchanged {A S : Type} (body : S -> A -> option S) (l : list A) :
  (forall s a, body s a = Some s) -> forall s, forEachM body l s = Some s.
Proof.
  intros H. induction l as [|a l IH]; intros s; simpl; [reflexivity|].
  rewrite H. simpl. apply IH.
Qed.

(** X9.  In the third revision the node labels cannot be switched back on.
    The tag of a node is the string [data.type], so [node.tag.label] is
    undefined and [showNodeLabels] never adds a label: it returns the graph
    as it is.  After a click that hides the node labels, the next click
    leaves every node without a label. *)
Theorem node_labels_never_come_back :
  forall (ET : Type) (g : IGraph string ET),
    showNodeLabels tagLabel g = Some g
    /\ (NoDup (map nref (nodes g)) ->
        exists hidden,
          toggleNodeLabelsClick tagLabel (true, g) = Some (false, hidden)
          /\ toggleNodeLabelsClick tagLabel (false, hidden) = Some (true, hidden)
          /\ (forall n, In n (nodes hidden) -> nlabels n = [])
          /\ map (fun n => (nref n, ntag n, nstyle n)) (nodes hidden)
             = map (fun n => (nref n, ntag n, nstyle n)) (nodes g)
          /\ edges hidden = edges g).
Proof.
  intros ET g.
  assert (Hshow : forall g' : IGraph string ET,
             showNodeLabels tagLabel g' = Some g').
  { intros g'. unfold showNodeLabels. apply forEachM_unchanged.
    intros s r. unfold showNodeLabel.
    destruct (find (fun n => nref n =? r) (nodes s)); reflexivity. }
  split; [apply Hshow|].
  intros H. eexists. unfold toggleNodeLabelsClick. simpl.
  rewrite (hideNodeLabels_closed g H). simpl.
  split; [reflexivity|]. rewrite Hshow. simpl.
  split; [reflexivity|]. repeat split.
  - intros n Hin. apply in_map_iff in Hin. now destruct Hin as [n0 [<- _]].
  - now rewrite map_map.
Qed.

Lemma node_labels_witness :
  exists hidden,
    toggleNodeLabelsClick tagLabel
      (true,
       mkIGraph [mkINode 0 "Person" DefaultNodeStyle ["Ann"];
                 mkINode 1 "City" DefaultNodeStyle ["Rome"]]
         [mkIEdge 2 0 1 (mkEdge "a" "r" None) []] 3)
    = Some (false, hidden)
    /\ toggleNodeLabelsClick tagLabel (false, hidden) = Some (true, hidden)
    /\ map nlabels (nodes hidden) = [[]; []].
Proof.
  destruct (node_labels_never_come_back EdgeData
              (mkIGraph [mkINode 0 "Person" DefaultNodeStyle ["Ann"];
                         mkINode 1 "City" DefaultNodeStyle ["Rome"]]
                 [mkIEdge 2 0 1 (mkEdge "a" "r" None) []] 3))
    as [_ H].
  destruct H as [hidden [E1 [E2 _]]].
  - apply distinctNats_NoDup. reflexivity.
  - exists hidden. split; [exact E1|]. split; [exact E2|].
    vm_compute in E1. injection E1 as <-. reflexivity.
Defined.

Section ToggleFacts.
Context {ET : Type}.

Lemma toggleNodeLabel_on (done rest : list (INode string)) (n : INode string)
  (es : list (IEdge ET)) (f : nat) :
  NoDup (map nref (done ++ n :: rest)) ->
  toggleNodeLabel true (mkIGraph (done ++ n :: rest) es f) (nref n)
  = Some (mkIGraph
            (done ++
             (if List.length (nlabels n) =? 0
              then mkINode (nref n) (ntag n) (nstyle n) [ntag n]
              else n) :: rest) es f).
Proof.
  intros H. unfold toggleNodeLabel. simpl.
  rewrite (find_keyed nref done rest n H).
  destruct (List.length (nlabels n) =? 0) eqn:C; [|reflexivity].
  unfold addNodeLabel, isNode. simpl.
  rewrite (existsb_keyed nref done rest n).
  rewrite (touch_keyed nref
             (fun m => mkINode (nref m) (ntag m) (nstyle m)
                         (nlabels m ++ [ntag n])) done rest n H).
  apply Nat.eqb_eq in C. destruct (nlabels n); [reflexivity|discriminate].
Qed.

Lemma toggleNodeLabels_on (g : IGraph string ET) :
  NoDup (map nref (nodes g)) ->
  toggleNodeLabels true g
  = Some (mkIGraph
            (map (fun n => if List.length (nlabels n) =? 0
                           then mkINode (nref n) (ntag n) (nstyle n) [ntag n]
                           else n) (nodes g))
            (edges g) (fresh g)).
Proof.
  intros H. unfold toggleNodeLabels.
  apply (node_sweep (toggleNodeLabel true)
           (fun n => if List.length (nlabels n) =? 0
                     then mkINode (nref n) (ntag n) (nstyle n) [ntag n]
                     else n)); auto.
  - intros n. destruct (List.length (nlabels n) =? 0); reflexivity.
  - intros done n rest es f Hn. now apply toggleNodeLabel_on.
Qed.

Lemma toggleNodeLabels_off (g : IGraph string ET) :
  NoDup (map nref (nodes g)) ->
  toggleNodeLabels false g
  = Some (mkIGraph
            (map (fun n => mkINode (nref n) (ntag n) (nstyle n) []) (nodes g))
            (edges g) (fresh g)).
Proof.
  intros H. unfold toggleNodeLabels.
  apply (node_sweep (toggleNodeLabel false)
           (fun n => mkINode (nref n) (ntag n) (nstyle n) [])); auto.
  intros done n rest es f Hn. now apply removeNodeLabels_all.
Qed.

End ToggleFacts.

(** X10.  [toggleNodeLabels] of the second revision, on a graph with
    pairwise distinct nodes.  Switching off removes every node label.
    Switching on labels exactly the nodes that have no label, and the text
    is the node's tag, the type of its record; nodes that carry a label keep
    it.  So off followed by on leaves every node labelled with its type,
    whatever it showed before, and switching on again changes nothing. *)
Theorem toggleNodeLabels_relabels_with_type :
  forall (ET : Type) (g : IGraph string ET),
    NoDup (map nref (nodes g)) ->
    toggleNodeLabels true g
    = Some (mkIGraph
              (map (fun n => if List.length (nlabels n) =? 0
                             then mkINode (nref n) (ntag n) (nstyle n) [ntag n]
                             else n) (nodes g))
              (edges g) (fresh g))
    /\ exists off on,
         toggleNodeLabels false g = Some off
         /\ toggleNodeLabels true off = Some on
         /\ (forall n, In n (nodes off) -> nlabels n = [])
         /\ nodes on
            = map (fun n => mkINode (nref n) (ntag n) (nstyle n) [ntag n])
                (nodes g)
         /\ edges on = edges g /\ fresh on = fresh g
         /\ toggleNodeLabels true on = Some on.
Proof.
  intros ET g H. split; [now apply toggleNodeLabels_on|].
  eexists. eexists.
  split; [now apply toggleNodeLabels_off|].
  assert (Hoff : NoDup
                   (map nref
                      (map (fun n => mkINode (nref n) (ntag n) (nstyle n) [])
                         (nodes g))))
    by (now rewrite map_map).
  split.
  { rewrite toggleNodeLabels_on by exact Hoff. simpl. rewrite map_map. simpl.
    reflexivity. }
  simpl. repeat split.
  - intros n Hin. apply in_map_iff in Hin. now destruct Hin as [n0 [<- _]].
  - rewrite toggleNodeLabels_on by (simpl; now rewrite map_map).
    simpl. now rewrite map_map.
Qed.

Lemma toggleNodeLabels_witness :
  exists off on,
    toggleNodeLabels false
      (mkIGraph [mkINode 0 "Person" DefaultNodeStyle ["Ann"];
                 mkINode 1 "City" DefaultNodeStyle []]
         [mkIEdge 2 0 1 (mkEdge "a" "r" None) []] 3) = Some off
    /\ toggleNodeLabels true off = Some on
    /\ map nlabels (nodes on) = [["Person"]; ["City"]].
Proof.
  destruct (toggleNodeLabels_relabels_with_type EdgeData
              (mkIGraph [mkINode 0 "Person" DefaultNodeStyle ["Ann"];
                         mkINode 1 "City" DefaultNodeStyle []]
                 [mkIEdge 2 0 1 (mkEdge "a" "r" None) []] 3))
    as [_ [off [on [E1 [E2 [_ [N _]]]]]]].
  - apply distinctNats_NoDup. reflexivity.
  - exists off, on. split; [exact E1|]. split; [exact E2|].
    rewrite N. reflexivity.
Defined.

(** X11.  What [loadAndProcessCSVFiles] builds on a builder that starts
    from an empty graph (it clears the graph, or the page is fresh).  There
    is one node per distinct id, tagged with the type of the last record of
    that id.  The edges are the edge rows whose source and target are both
    ids of the nodes file, in file order and with repetitions: rows that
    join the same two ids are not consolidated.  Each edge runs from the
    node of its source id to the node of its target id, and carries no
    label. *)
Theorem builder_load_keeps_every_matching_row :
  forall (clearsGraph : bool) (st : BuilderLoader.State)
         (nodesData : list NodeData) (edgesData : list EdgeData),
    clearsGraph = true \/ BuilderLoader.graph st = clear ->
    map nref
      (nodes (BuilderLoader.graph
                (BuilderLoader.loadAndProcessCSVFiles clearsGraph st nodesData
                   edgesData)))
    = seq 0 (List.length (BuilderLoader.uniqueNodes nodesData))
    /\ map ntag
         (nodes (BuilderLoader.graph
                   (BuilderLoader.loadAndProcessCSVFiles clearsGraph st
                      nodesData edgesData)))
       = map type (BuilderLoader.uniqueNodes nodesData)
    /\ map id (BuilderLoader.uniqueNodes nodesData) = distinct (map id nodesData)
    /\ map etag
         (edges (BuilderLoader.graph
                   (BuilderLoader.loadAndProcessCSVFiles clearsGraph st
                      nodesData edgesData)))
       = filter (fun e => existsb (String.eqb (source e)) (map id nodesData)
                          && existsb (String.eqb (target e)) (map id nodesData))
           edgesData
    /\ forall e,
         In e (edges (BuilderLoader.graph
                        (BuilderLoader.loadAndProcessCSVFiles clearsGraph st
                           nodesData edgesData))) ->
         option_map id
           (nth_error (BuilderLoader.uniqueNodes nodesData) (esource e))
         = Some (source (etag e))
         /\ option_map id
              (nth_error (BuilderLoader.uniqueNodes nodesData) (etarget e))
            = Some (target (etag e))
         /\ elabels e = [].
Proof.
  intros clearsGraph st nodesData edgesData Hclear.
  unfold BuilderLoader.loadAndProcessCSVFiles.
  rewrite BuilderShape.buildGraph_closed.
  assert (E0 : (if clearsGraph then clear else BuilderLoader.graph st) = clear)
    by (destruct Hclear as [->| ->]; [reflexivity|now destruct clearsGraph]).
  rewrite E0. simpl.
  set (U := BuilderLoader.uniqueNodes nodesData).
  assert (HU : NoDup (map id U))
    by (unfold U; rewrite BuilderContent.builder_unique_ids; apply NoDup_distinct).
  split; [apply BuilderShape.builtNodes_refs|].
  split; [apply BuilderShape.builtNodes_tags|].
  split; [apply BuilderContent.builder_unique_ids|].
  split.
  - rewrite BuilderShape.builtEdges_items. apply filter_ext. intros e.
    rewrite !BuilderContent.known_ids. unfold U.
    rewrite BuilderContent.builder_unique_ids, !existsb_distinct. reflexivity.
  - intros e He. apply BuilderShape.builtEdges_ends in He.
    destruct He as [_ [Gs [Gt L]]].
    destruct (BuilderContent.known_index U 0 _ _ HU Gs) as [i [d [Hi [Hd Hv]]]].
    destruct (BuilderContent.known_index U 0 _ _ HU Gt) as [j [d' [Hj [Hd' Hv']]]].
    simpl in Hv, Hv'. rewrite Hv, Hv', Hi, Hj. simpl.
    now rewrite Hd, Hd'.
Qed.

Lemma builder_load_witness :
  map etag
    (edges (BuilderLoader.graph
              (BuilderLoader.loadAndProcessCSVFiles false BuilderLoader.initial
                 [mkNode "a" "X" None; mkNode "b" "Y" None; mkNode "a" "Z" None]
                 [mkEdge "a" "b" None; mkEdge "a" "c" None; mkEdge "a" "b" None])))
  = [mkEdge "a" "b" None; mkEdge "a" "b" None]
  /\ map ntag
       (nodes (BuilderLoader.graph
                 (BuilderLoader.loadAndProcessCSVFiles false
                    BuilderLoader.initial
                    [mkNode "a" "X" None; mkNode "b" "Y" None;
                     mkNode "a" "Z" None]
                    [mkEdge "a" "b" None; mkEdge "a" "c" None;
                     mkEdge "a" "b" None])))
     = ["Z"; "Y"].
Proof.
  destruct (builder_load_keeps_every_matching_row false BuilderLoader.initial
              [mkNode "a" "X" None; mkNode "b" "Y" None; mkNode "a" "Z" None]
              [mkEdge "a" "b" None; mkEdge "a" "c" None; mkEdge "a" "b" None])
    as [_ [T [_ [E _]]]].
  - right. reflexivity.
  - split; [rewrite E|rewrite T]; reflexivity.
Defined.

(** X12.  After [loadAndProcessCSVFiles] on a builder that starts from an
    empty graph, the legend agrees with the graph: every node whose type is
    no member name of [Object.prototype] is filled with the colour that
    [typeColors] holds for its type, and the legend, the last child of the
    body, has the row of that type and colour.  When no key of the
    [typeColors] found is such a member name, neither is any key left, and
    the legend has no row for such a name. *)
Theorem builder_legend_matches_fills :
  forall (clearsGraph : bool) (st : BuilderLoader.State)
         (nodesData : list NodeData) (edgesData : list EdgeData),
    clearsGraph = true \/ BuilderLoader.graph st = clear ->
    exists legendRows,
      BuilderLoader.body
        (BuilderLoader.loadAndProcessCSVFiles clearsGraph st nodesData edgesData)
      = detach BuilderLoader.legendId (BuilderLoader.body st)
        ++ [mkElement BuilderLoader.legendId legendRows]
      /\ (forall n,
            In n (nodes (BuilderLoader.graph
                           (BuilderLoader.loadAndProcessCSVFiles clearsGraph st
                              nodesData edgesData))) ->
            inherited (ntag n) = false ->
            exists c,
              nstyle n = ShinyPlateNodeStyle c
              /\ JsMap.get (ntag n)
                   (BuilderLoader.typeColors
                      (BuilderLoader.loadAndProcessCSVFiles clearsGraph st
                         nodesData edgesData))
                 = Some c
              /\ In (ntag n, c) legendRows)
      /\ ((forall k, In k (JsMap.keys (BuilderLoader.typeColors st)) ->
                     inherited k = false) ->
          forall t,
            inherited t = true ->
            JsMap.get t
              (BuilderLoader.typeColors
                 (BuilderLoader.loadAndProcessCSVFiles clearsGraph st
                    nodesData edgesData))
            = None
            /\ ~ In t (map fst legendRows)).
Proof.
  intros clearsGraph st nodesData edgesData Hclear.
  unfold BuilderLoader.loadAndProcessCSVFiles.
  rewrite BuilderShape.buildGraph_closed.
  assert (E0 : (if clearsGraph then clear else BuilderLoader.graph st) = clear)
    by (destruct Hclear as [->| ->]; [reflexivity|now destruct clearsGraph]).
  rewrite E0. simpl.
  eexists. split; [reflexivity|]. split.
  - intros n Hn I. apply BuilderContent.builtNodes_fill in Hn; [|exact I].
    destruct Hn as [c [Hs Hg]]. exists c. repeat split; try assumption.
    apply JsObjectFacts.entries_In. now apply JsMapFacts.get_In.
  - intros Hkeys t I.
    pose proof (BuilderContent.typeColors_ordinary
                  (BuilderLoader.uniqueNodes nodesData)
                  (BuilderLoader.typeColors st) Hkeys t) as Hord.
    assert (Hno : ~ In t (JsMap.keys
                            (fold_left
                               (fun s data =>
                                  fst (BuilderLoader.nodeCreated s data))
                               (BuilderLoader.uniqueNodes nodesData)
                               (BuilderLoader.typeColors st))))
      by (intros Hin; apply Hord in Hin; congruence).
    split.
    + destruct (JsMap.get t _) as [c|] eqn:G; [|reflexivity].
      exfalso. apply Hno. apply JsMapFacts.get_In in G.
      unfold JsMap.keys. change t with (fst (t, c)). now apply in_map.
    + intros Hin. apply Hno. unfold JsMap.keys.
      apply in_map_iff in Hin. destruct Hin as [e [Ee Hin]].
      apply in_map_iff. exists e. split; [exact Ee|].
      now apply JsObjectFacts.entries_In.
Qed.

Lemma builder_legend_witness :
  exists legendRows,
    BuilderLoader.body
      (BuilderLoader.loadAndProcessCSVFiles true BuilderLoader.initial
         [mkNode "a" "X" None; mkNode "b" "Y" None;
          mkNode "c" "constructor" None] [])
    = [mkElement "legend" legendRows]
    /\ In ("Y", "#33FF57") legendRows
    /\ ~ In "constructor" (map fst legendRows).
Proof.
  destruct (builder_legend_matches_fills true BuilderLoader.initial
              [mkNode "a" "X" None; mkNode "b" "Y" None;
               mkNode "c" "constructor" None] [])
    as [legendRows [B [_ M]]].
  - left. reflexivity.
  - exists legendRows. split; [exact B|]. split.
    + vm_compute in B. injection B as <-. right. left. reflexivity.
    + apply (M (fun k H => match H with end) "constructor"). reflexivity.
Defined.

(** ** The chunk loop, turn by turn *)
Module ChunkedShape.
Import ChunkedLoader.

Lemma updateGraphChunk_closed (clearsGraph : bool) (g : IGraph string EdgeData)
  (nodesData : list NodeData) (edgesData : list EdgeData) :
  updateGraphChunk clearsGraph g nodesData edgesData
  = mkIGraph
      (nodes (if clearsGraph then clear else g)
       ++ builtNodes nodeCreated tt (fresh (if clearsGraph then clear else g))
            nodesData)
      (edges (if clearsGraph then clear else g)
       ++ builtEdges
            (builtDict [] (fresh (if clearsGraph then clear else g)) nodesData)
            (fresh (if clearsGraph then clear else g) + List.length nodesData)
            edgesData)
      (fresh (if clearsGraph then clear else g) + List.length nodesData
       + List.length
           (builtEdges
              (builtDict [] (fresh (if clearsGraph then clear else g))
                 nodesData)
              (fresh (if clearsGraph then clear else g) + List.length nodesData)
              edgesData)).
Proof.
  unfold updateGraphChunk. now rewrite BuilderShape.buildGraph_closed.
Qed.

(** A build keeps the node identities pairwise distinct and below the
    identity counter. *)
Lemma updateGraphChunk_distinct (clearsGraph : bool)
  (g : IGraph string EdgeData) (nodesData : list NodeData)
  (edgesData : list EdgeData) :
  NoDup (map nref (nodes g)) ->
  (forall n, In n (nodes g) -> nref n < fresh g) ->
  NoDup (map nref (nodes (updateGraphChunk clearsGraph g nodesData edgesData)))
  /\ forall n,
       In n (nodes (updateGraphChunk clearsGraph g nodesData edgesData)) ->
       nref n < fresh (updateGraphChunk clearsGraph g nodesData edgesData).
Proof.
  intros Hnd Hlt. rewrite updateGraphChunk_closed. simpl.
  set (g0 := if clearsGraph then clear else g).
  assert (Hnd0 : NoDup (map nref (nodes g0)))
    by (unfold g0; destruct clearsGraph; [constructor|assumption]).
  assert (Hlt0 : forall n, In n (nodes g0) -> nref n < fresh g0)
    by (unfold g0; destruct clearsGraph; [intros n []|assumption]).
  split.
  - rewrite map_app, BuilderShape.builtNodes_refs.
    apply NoDup_app; [assumption|apply seq_NoDup|].
    intros r Hr Hs. apply in_seq in Hs. apply in_map_iff in Hr.
    destruct Hr as [n [<- Hn]]. specialize (Hlt0 n Hn). lia.
  - intros n Hn. apply in_app_or in Hn. destruct Hn as [Hn|Hn].
    + specialize (Hlt0 n Hn). lia.
    + apply (in_map nref) in Hn. rewrite BuilderShape.builtNodes_refs in Hn.
      apply in_seq in Hn. lia.
Qed.

(** The edge rows a build turns into edges: those whose two ids are among
    the ids of its nodes source. *)
Lemma updateGraphChunk_items (clearsGraph : bool) (g : IGraph string EdgeData)
  (nodesData : list NodeData) (edgesData : list EdgeData) :
  map etag (edges (updateGraphChunk clearsGraph g nodesData edgesData))
  = map etag (edges (if clearsGraph then clear else g))
    ++ filter (fun e => existsb (String.eqb (source e)) (map id nodesData)
                        && existsb (String.eqb (target e)) (map id nodesData))
         edgesData.
Proof.
  rewrite updateGraphChunk_closed. simpl.
  rewrite map_app, BuilderShape.builtEdges_items. f_equal.
  apply filter_ext. intros e. now rewrite !BuilderContent.known_ids.
Qed.

Section Loop.
Variable clearsGraph : bool.
Variable c : nat.
Variable nodesData : list NodeData.
Variable edgesData : list EdgeData.

Lemma loadChunk_step (acc : JsMap.t NodeData * State) (i : nat) :
  snd (loadChunk clearsGraph c nodesData edgesData acc i)
  = mkState
      (updateGraphChunk clearsGraph (graph (snd acc))
         (JsMap.values (fst (loadChunk clearsGraph c nodesData edgesData acc i)))
         (filter
            (fun edge =>
               existsb (fun node => String.eqb (id node) (source edge)
                                    || String.eqb (id node) (target edge))
                 (firstn c (skipn (i * c) nodesData)))
            edgesData))
      (body (snd acc)) (view (snd acc))
      (mkProgress (shown (progress (snd acc))) (max (progress (snd acc)))
         (i + 1)).
Proof. destruct acc as [u st]. reflexivity. Qed.

Lemma loop_turn (st0 : State) (k : nat) :
  fold_left (loadChunk clearsGraph c nodesData edgesData) (seq 0 (S k))
    ([], st0)
  = loadChunk clearsGraph c nodesData edgesData
      (fold_left (loadChunk clearsGraph c nodesData edgesData) (seq 0 k)
         ([], st0)) k.
Proof. now rewrite seq_S, fold_left_app. Qed.

(** The loop touches neither the body nor the view; the progress bar counts
    the turns. *)
Lemma loop_page (st0 : State) (k : nat) :
  body (snd (fold_left (loadChunk clearsGraph c nodesData edgesData) (seq 0 k)
               ([], st0))) = body st0
  /\ view (snd (fold_left (loadChunk clearsGraph c nodesData edgesData)
                  (seq 0 k) ([], st0))) = view st0
  /\ progress (snd (fold_left (loadChunk clearsGraph c nodesData edgesData)
                      (seq 0 k) ([], st0)))
     = mkProgress (shown (progress st0)) (max (progress st0))
         (if k =? 0 then value (progress st0) else k).
Proof.
  induction k as [|k [Hb [Hv Hp]]].
  - simpl. repeat split. now destruct (progress st0).
  - rewrite loop_turn, loadChunk_step. simpl. rewrite Hb, Hv, Hp. simpl.
    repeat split. f_equal. lia.
Qed.

Lemma loop_distinct (st0 : State) (k : nat) :
  NoDup (map nref (nodes (graph st0))) ->
  (forall n, In n (nodes (graph st0)) -> nref n < fresh (graph st0)) ->
  NoDup (map nref
           (nodes (graph (snd (fold_left
                                 (loadChunk clearsGraph c nodesData edgesData)
                                 (seq 0 k) ([], st0))))))
  /\ forall n,
       In n (nodes (graph (snd (fold_left
                                  (loadChunk clearsGraph c nodesData edgesData)
                                  (seq 0 k) ([], st0))))) ->
       nref n
       < fresh (graph (snd (fold_left
                              (loadChunk clearsGraph c nodesData edgesData)
                              (seq 0 k) ([], st0)))).
Proof.
  intros Hnd Hlt. induction k as [|k [IH1 IH2]]; [now split|].
  rewrite loop_turn, loadChunk_step. simpl.
  now apply updateGraphChunk_distinct.
Qed.

(** The edge rows that turn [i] hands to the builder and that the builder
    turns into edges. *)
Lemma loop_turn_items (st0 : State) (k : nat) :
  map etag
    (edges (graph (snd (fold_left (loadChunk clearsGraph c nodesData edgesData)
                          (seq 0 (S k)) ([], st0)))))
  = map etag
      (edges (if clearsGraph then clear
              else graph (snd (fold_left
                                 (loadChunk clearsGraph c nodesData edgesData)
                                 (seq 0 k) ([], st0)))))
    ++ filter
         (fun e =>
            existsb (fun node => String.eqb (id node) (source e)
                                 || String.eqb (id node) (target e))
              (firstn c (skipn (k * c) nodesData))
            && (existsb (String.eqb (source e))
                  (map id (firstn (S k * c) nodesData))
                && existsb (String.eqb (target e))
                     (map id (firstn (S k * c) nodesData))))
         edgesData.
Proof.
  rewrite loop_turn, loadChunk_step. simpl graph.
  rewrite updateGraphChunk_items. f_equal.
  rewrite <- loop_turn, ChunkLoopFacts.loop_map.
  rewrite filter_twice. apply filter_ext. intros e. f_equal.
  pose proof (BuilderContent.builder_unique_ids (firstn (S k * c) nodesData)) as E.
  unfold BuilderLoader.uniqueNodes in E. rewrite E.
  now rewrite !existsb_distinct.
Qed.

End Loop.

Lemma totalChunks_positive (n c : nat) :
  1 <= c -> 1 <= n -> 1 <= totalChunks n c.
Proof.
  intros Hc Hn. unfold totalChunks.
  apply Nat.div_le_lower_bound; lia.
Qed.

Lemma degree_positive {NT ET : Type} (g : IGraph NT ET) (r : nat) :
  degree g r <> 0 <->
  exists e, In e (edges g) /\ (esource e = r \/ etarget e = r).
Proof.
  unfold degree. split.
  - intros H.
    destruct (filter (fun e => esource e =? r) (edges g)) as [|e l] eqn:Fs.
    + destruct (filter (fun e => etarget e =? r) (edges g)) as [|e l] eqn:Ft;
        [simpl in H; lia|].
      assert (Hin : In e (filter (fun e => etarget e =? r) (edges g)))
        by (rewrite Ft; now left).
      apply filter_In in Hin. destruct Hin as [Hin Hr].
      apply Nat.eqb_eq in Hr. exists e. auto.
    + assert (Hin : In e (filter (fun e => esource e =? r) (edges g)))
        by (rewrite Fs; now left).
      apply filter_In in Hin. destruct Hin as [Hin Hr].
      apply Nat.eqb_eq in Hr. exists e. auto.
  - intros [e [Hin [Hr|Hr]]].
    + assert (H : In e (filter (fun e => esource e =? r) (edges g)))
        by (apply filter_In; split; [assumption|now apply Nat.eqb_eq]).
      destruct (filter (fun e => esource e =? r) (edges g));
        [contradiction|simpl; lia].
    + assert (H : In e (filter (fun e => etarget e =? r) (edges g)))
        by (apply filter_In; split; [assumption|now apply Nat.eqb_eq]).
      destruct (filter (fun e => etarget e =? r) (edges g));
        [contradiction|simpl; lia].
Qed.

End ChunkedShape.

(** ** [loadGraphInChunks] as a whole *)
Module ChunkedWhole.
Import ChunkedLoader.

Section Whole.
Variable clearsGraph : bool.
Variable nodeClusterIds : IGraph string EdgeData -> nat -> option nat.
Variable c : nat.
Variable st : State.
Variable nodesData : list NodeData.
Variable edgesData : list EdgeData.

Lemma chunkLoop_page :
  body (snd (chunkLoop clearsGraph c st nodesData edgesData)) = body st
  /\ view (snd (chunkLoop clearsGraph c st nodesData edgesData)) = view st
  /\ progress (snd (chunkLoop clearsGraph c st nodesData edgesData))
     = mkProgress true
         (if totalChunks (List.length nodesData) c =? 0
          then max (progress st)
          else totalChunks (List.length nodesData) c)
         (if totalChunks (List.length nodesData) c =? 0
          then value (progress st)
          else totalChunks (List.length nodesData) c).
Proof.
  unfold chunkLoop.
  destruct (ChunkedShape.loop_page clearsGraph c nodesData edgesData
              (mkState (graph st) (body st) (view st)
                 (mkProgress true
                    (if totalChunks (List.length nodesData) c =? 0
                     then max (progress st)
                     else totalChunks (List.length nodesData) c)
                    (value (progress st))))
              (totalChunks (List.length nodesData) c)) as [Hb [Hv Hp]].
  now rewrite Hb, Hv, Hp.
Qed.

Lemma chunkLoop_distinct :
  NoDup (map nref (nodes (graph st))) ->
  (forall n, In n (nodes (graph st)) -> nref n < fresh (graph st)) ->
  NoDup (map nref
           (nodes (graph (snd (chunkLoop clearsGraph c st nodesData
                                 edgesData)))))
  /\ forall n,
       In n (nodes (graph (snd (chunkLoop clearsGraph c st nodesData
                                  edgesData)))) ->
       nref n
       < fresh (graph (snd (chunkLoop clearsGraph c st nodesData edgesData))).
Proof.
  intros Hnd Hlt. unfold chunkLoop.
  now apply ChunkedShape.loop_distinct.
Qed.

(** The load after the loop: clustering succeeds when the loop leaves
    pairwise distinct nodes; it prunes the nodes without an edge and keeps
    the edges and the identity counter. *)
Lemma load_after_loop :
  NoDup (map nref
           (nodes (graph (snd (chunkLoop clearsGraph c st nodesData
                                 edgesData))))) ->
  exists s,
    loadGraphInChunksWith clearsGraph nodeClusterIds c st nodesData edgesData
    = Some s
    /\ map nref (nodes (graph s))
       = filter (fun r => negb (degree (graph (snd (chunkLoop clearsGraph c st
                                                      nodesData edgesData)))
                                  r =? 0))
           (map nref (nodes (graph (snd (chunkLoop clearsGraph c st nodesData
                                           edgesData)))))
    /\ edges (graph s)
       = edges (graph (snd (chunkLoop clearsGraph c st nodesData edgesData)))
    /\ fresh (graph s)
       = fresh (graph (snd (chunkLoop clearsGraph c st nodesData edgesData)))
    /\ body s
       = createLegend
           (JsMap.values (fst (chunkLoop clearsGraph c st nodesData edgesData)))
           (body st)
    /\ view s = view st ++ [FitGraphBounds; RunClustering;
                            RunLayout "OrganicLayout"; SetProjection]
    /\ progress s
       = mkProgress false
           (if totalChunks (List.length nodesData) c =? 0
            then max (progress st)
            else totalChunks (List.length nodesData) c)
           (if totalChunks (List.length nodesData) c =? 0
            then value (progress st)
            else totalChunks (List.length nodesData) c).
Proof.
  intros Hnd. destruct chunkLoop_page as [Hb [Hv Hp]].
  unfold loadGraphInChunksWith.
  destruct (chunkLoop clearsGraph c st nodesData edgesData) as [u st1].
  simpl in *.
  destruct (ChunkedFacts.applyClustering_closed nodeClusterIds
              (mkState (graph st1) (body st1) (view st1 ++ [FitGraphBounds])
                 (mkProgress false (max (progress st1))
                    (value (progress st1)))) Hnd)
    as [g1 [[A [B C]] E]].
  rewrite E. simpl in *. eexists. split; [reflexivity|]. simpl.
  rewrite Hb, Hv, Hp, <- app_assoc. simpl.
  repeat split; try assumption.
  assert (Hrefs : forall l : list (INode string),
             map nref l = map (fun x => fst (fst x)) (map core l))
    by (intros l; rewrite map_map; reflexivity).
  rewrite (Hrefs (nodes (graph st1))), <- A, <- Hrefs.
  rewrite <- (map_filter_through nref
                (fun r => negb (degree (graph st1) r =? 0))).
  f_equal. apply filter_ext. intros n. unfold degree. now rewrite B.
Qed.

End Whole.

End ChunkedWhole.

(** X13.  [loadGraphInChunks] always completes.  On a page whose nodes are
    pairwise distinct and below the identity counter, and for any positive
    chunk size (100 in the source), the load returns whatever the builder
    does with the graph and whatever the clustering answers.  It leaves the
    progress bar hidden; when there is at least one chunk, [max] and [value]
    are both the number of chunks, and when there is none (an empty node
    list) both are what they were before the load.  It fits the view,
    clusters and lays out exactly once however many chunks there are; the
    legend is made from all the deduplicated node records; and the graph it
    leaves satisfies the same conditions, so the next load completes too. *)
Theorem chunked_load_always_completes :
  forall (clearsGraph : bool)
         (nodeClusterIds : IGraph string EdgeData -> nat -> option nat)
         (c : nat) (st : ChunkedLoader.State) (nodesData : list NodeData)
         (edgesData : list EdgeData),
    1 <= c ->
    NoDup (map nref (nodes (ChunkedLoader.graph st))) ->
    (forall n, In n (nodes (ChunkedLoader.graph st)) ->
               nref n < fresh (ChunkedLoader.graph st)) ->
    exists s,
      ChunkedLoader.loadGraphInChunksWith clearsGraph nodeClusterIds c st
        nodesData edgesData = Some s
      /\ ChunkedLoader.progress s
         = ChunkedLoader.mkProgress false
             (if ChunkedLoader.totalChunks (List.length nodesData) c =? 0
              then ChunkedLoader.max (ChunkedLoader.progress st)
              else ChunkedLoader.totalChunks (List.length nodesData) c)
             (if ChunkedLoader.totalChunks (List.length nodesData) c =? 0
              then ChunkedLoader.value (ChunkedLoader.progress st)
              else ChunkedLoader.totalChunks (List.length nodesData) c)
      /\ ChunkedLoader.view s
         = ChunkedLoader.view st
           ++ [FitGraphBounds; RunClustering; RunLayout "OrganicLayout";
               SetProjection]
      /\ ChunkedLoader.body s
         = ChunkedLoader.createLegend (BuilderLoader.uniqueNodes nodesData)
             (ChunkedLoader.body st)
      /\ NoDup (map nref (nodes (ChunkedLoader.graph s)))
      /\ (forall n, In n (nodes (ChunkedLoader.graph s)) ->
                    nref n < fresh (ChunkedLoader.graph s)).
Proof.
  intros clearsGraph nodeClusterIds c st nodesData edgesData Hc Hnd Hlt.
  destruct (ChunkedWhole.chunkLoop_distinct clearsGraph c st nodesData
              edgesData Hnd Hlt) as [Hnd1 Hlt1].
  destruct (ChunkedWhole.load_after_loop clearsGraph nodeClusterIds c st
              nodesData edgesData Hnd1)
    as [s [E [Hn [He [Hf [Hb [Hv Hp]]]]]]].
  exists s. split; [exact E|]. split; [exact Hp|]. split; [exact Hv|].
  split.
  { rewrite Hb, ChunkLoopFacts.chunkLoop_map by assumption. reflexivity. }
  split.
  - rewrite Hn. apply NoDup_filter. assumption.
  - intros n Hin. apply (in_map nref) in Hin. rewrite Hn in Hin.
    apply filter_In in Hin. destruct Hin as [Hin _].
    apply in_map_iff in Hin. destruct Hin as [m [Em Hm]].
    rewrite Hf, <- Em. now apply Hlt1.
Qed.

Lemma chunked_load_witness :
  exists s,
    ChunkedLoader.loadGraphInChunksWith false (fun _ _ => Some 0) 2
      ChunkedLoader.initial
      [mkNode "a" "X" None; mkNode "b" "Y" None; mkNode "c" "X" None]
      [mkEdge "a" "b" None] = Some s
    /\ ChunkedLoader.progress s = ChunkedLoader.mkProgress false 2 2
    /\ exists s',
         ChunkedLoader.loadGraphInChunksWith false (fun _ _ => Some 0) 2 s
           [] [mkEdge "a" "b" None] = Some s'
         /\ ChunkedLoader.progress s' = ChunkedLoader.mkProgress false 2 2.
Proof.
  destruct (chunked_load_always_completes false (fun _ _ => Some 0) 2
              ChunkedLoader.initial
              [mkNode "a" "X" None; mkNode "b" "Y" None; mkNode "c" "X" None]
              [mkEdge "a" "b" None])
    as [s [E [P [_ [_ [Hnd Hlt]]]]]].
  - lia.
  - constructor.
  - intros n [].
  - exists s. split; [exact E|]. split; [rewrite P; reflexivity|].
    destruct (chunked_load_always_completes false (fun _ _ => Some 0) 2
                s [] [mkEdge "a" "b" None])
      as [s' [E' [P' _]]]; [lia|exact Hnd|exact Hlt|].
    exists s'. split; [exact E'|]. rewrite P', P. reflexivity.
Defined.

Module ChunkedEdges.
Import ChunkedLoader.

(** With a builder that keeps the graph, every turn adds its edges to those
    of the turns before. *)
Lemma loop_items_kept (c : nat) (nodesData : list NodeData)
  (edgesData : list EdgeData) (st0 : State) (k : nat) :
  map etag
    (edges (graph (snd (fold_left (loadChunk false c nodesData edgesData)
                          (seq 0 k) ([], st0)))))
  = map etag (edges (graph st0))
    ++ List.concat
         (map (fun i =>
                 filter
                   (fun e =>
                      existsb (fun node => String.eqb (id node) (source e)
                                           || String.eqb (id node) (target e))
                        (firstn c (skipn (i * c) nodesData))
                      && (existsb (String.eqb (source e))
                            (map id (firstn (S i * c) nodesData))
                          && existsb (String.eqb (target e))
                               (map id (firstn (S i * c) nodesData))))
                   edgesData)
            (seq 0 k)).
Proof.
  induction k as [|k IH]; [simpl; now rewrite app_nil_r|].
  rewrite ChunkedShape.loop_turn_items, IH.
  rewrite seq_S, map_app, concat_app. simpl.
  now rewrite app_nil_r, <- app_assoc.
Qed.

(** With a builder that clears the graph, only the last turn counts. *)
Lemma loop_items_cleared (c : nat) (nodesData : list NodeData)
  (edgesData : list EdgeData) (st0 : State) (k : nat) :
  map etag
    (edges (graph (snd (fold_left (loadChunk true c nodesData edgesData)
                          (seq 0 (S k)) ([], st0)))))
  = filter
      (fun e =>
         existsb (fun node => String.eqb (id node) (source e)
                              || String.eqb (id node) (target e))
           (firstn c (skipn (k * c) nodesData))
         && (existsb (String.eqb (source e))
               (map id (firstn (S k * c) nodesData))
             && existsb (String.eqb (target e))
                  (map id (firstn (S k * c) nodesData))))
      edgesData.
Proof. now rewrite ChunkedShape.loop_turn_items. Qed.

End ChunkedEdges.

(** X14.  With a builder that keeps the graph it is given, the edges that
    the chunked load leaves are those of the page before, followed, chunk by
    chunk, by one edge for every edge row that touches a node record of the
    chunk and whose source and target are both ids of records read up to the
    end of that chunk.  A row adds nothing in a chunk when its other end is
    read in a later one. *)
Theorem keeping_builder_adds_edges_chunk_by_chunk :
  forall (nodeClusterIds : IGraph string EdgeData -> nat -> option nat)
         (c : nat) (st : ChunkedLoader.State) (nodesData : list NodeData)
         (edgesData : list EdgeData),
    1 <= c ->
    NoDup (map nref (nodes (ChunkedLoader.graph st))) ->
    (forall n, In n (nodes (ChunkedLoader.graph st)) ->
               nref n < fresh (ChunkedLoader.graph st)) ->
    exists s,
      ChunkedLoader.loadGraphInChunksWith false nodeClusterIds c st nodesData
        edgesData = Some s
      /\ map etag (edges (ChunkedLoader.graph s))
         = map etag (edges (ChunkedLoader.graph st))
           ++ List.concat
                (map (fun i =>
                        filter
                          (fun e =>
                             existsb
                               (fun node => String.eqb (id node) (source e)
                                            || String.eqb (id node) (target e))
                               (firstn c (skipn (i * c) nodesData))
                             && (existsb (String.eqb (source e))
                                   (map id (firstn (S i * c) nodesData))
                                 && existsb (String.eqb (target e))
                                      (map id (firstn (S i * c) nodesData))))
                          edgesData)
                   (seq 0 (ChunkedLoader.totalChunks (List.length nodesData) c))).
Proof.
  intros nodeClusterIds c st nodesData edgesData Hc Hnd Hlt.
  destruct (ChunkedWhole.chunkLoop_distinct false c st nodesData
              edgesData Hnd Hlt) as [Hnd1 _].
  destruct (ChunkedWhole.load_after_loop false nodeClusterIds c st
              nodesData edgesData Hnd1)
    as [s [E [_ [He _]]]].
  exists s. split; [exact E|]. rewrite He.
  unfold ChunkedLoader.chunkLoop.
  now rewrite ChunkedEdges.loop_items_kept.
Qed.

Lemma keeping_builder_witness :
  exists s,
    ChunkedLoader.loadGraphInChunksWith false (fun _ _ => None) 1
      ChunkedLoader.initial
      [mkNode "a" "X" None; mkNode "b" "Y" None]
      [mkEdge "a" "b" None; mkEdge "b" "a" None] = Some s
    /\ map etag (edges (ChunkedLoader.graph s))
       = [mkEdge "a" "b" None; mkEdge "b" "a" None].
Proof.
  destruct (keeping_builder_adds_edges_chunk_by_chunk (fun _ _ => None) 1
              ChunkedLoader.initial
              [mkNode "a" "X" None; mkNode "b" "Y" None]
              [mkEdge "a" "b" None; mkEdge "b" "a" None])
    as [s [E I]].
  - lia.
  - constructor.
  - intros n [].
  - exists s. split; [exact E|]. rewrite I. reflexivity.
Defined.

(** X15.  With a builder that clears the graph it is given, only the last
    chunk leaves edges.  For a non-empty node list, the edges after the
    chunked load are the rows that touch a node record of the last chunk
    and whose source and target are both ids of the node file; the rows
    that join nodes of earlier chunks are lost, and the nodes that survive
    the pruning are exactly the ends of these edges. *)
Theorem clearing_builder_keeps_edges_of_last_chunk :
  forall (nodeClusterIds : IGraph string EdgeData -> nat -> option nat)
         (c : nat) (st : ChunkedLoader.State) (nodesData : list NodeData)
         (edgesData : list EdgeData),
    1 <= c ->
    nodesData <> [] ->
    exists s,
      ChunkedLoader.loadGraphInChunksWith true nodeClusterIds c st nodesData
        edgesData = Some s
      /\ map etag (edges (ChunkedLoader.graph s))
         = filter
             (fun e =>
                existsb (fun node => String.eqb (id node) (source e)
                                     || String.eqb (id node) (target e))
                  (firstn c
                     (skipn
                        ((ChunkedLoader.totalChunks (List.length nodesData) c
                          - 1) * c) nodesData))
                && (existsb (String.eqb (source e)) (map id nodesData)
                    && existsb (String.eqb (target e)) (map id nodesData)))
             edgesData
      /\ forall r,
           In r (map nref (nodes (ChunkedLoader.graph s))) <->
           exists e, In e (edges (ChunkedLoader.graph s))
                     /\ (esource e = r \/ etarget e = r).
Proof.
  intros nodeClusterIds c st nodesData edgesData Hc Hne.
  assert (HT : 1 <= ChunkedLoader.totalChunks (List.length nodesData) c).
  { apply ChunkedShape.totalChunks_positive; [assumption|].
    destruct nodesData; [contradiction|simpl; lia]. }
  destruct (ChunkedLoader.totalChunks (List.length nodesData) c) as [|k] eqn:ET;
    [lia|].
  assert (Hall : firstn (S k * c) nodesData = nodesData).
  { apply firstn_all2. rewrite <- ET. now apply ChunkLoopFacts.chunks_cover. }
  (* the graph after the loop is the build of the last turn *)
  set (L := snd (ChunkedLoader.chunkLoop true c st nodesData edgesData)).
  assert (HL : exists u es,
             ChunkedLoader.graph L
             = ChunkedLoader.updateGraphChunk true
                 (ChunkedLoader.graph st) u es
             /\ NoDup (map id u)).
  { unfold L, ChunkedLoader.chunkLoop. rewrite ET.
    rewrite ChunkedShape.loop_turn, ChunkedShape.loadChunk_step. simpl.
    rewrite <- ChunkedShape.loop_turn, ChunkLoopFacts.loop_map.
    eexists. eexists. split.
    - rewrite !ChunkedShape.updateGraphChunk_closed. reflexivity.
    - pose proof (BuilderContent.builder_unique_ids (firstn (S k * c) nodesData))
        as E.
      unfold BuilderLoader.uniqueNodes in E. rewrite E. apply NoDup_distinct. }
  destruct HL as [u [es [HL Hu]]].
  assert (Hnd1 : NoDup (map nref (nodes (ChunkedLoader.graph L)))).
  { rewrite HL, ChunkedShape.updateGraphChunk_closed. simpl.
    rewrite BuilderShape.builtNodes_refs. apply seq_NoDup. }
  destruct (ChunkedWhole.load_after_loop true nodeClusterIds c st
              nodesData edgesData Hnd1)
    as [s [E [Hn [He _]]]].
  fold L in Hn, He.
  exists s. split; [exact E|]. split.
  - rewrite He. unfold L, ChunkedLoader.chunkLoop. rewrite ET.
    rewrite ChunkedEdges.loop_items_cleared, Hall.
    replace (S k - 1) with k by lia. reflexivity.
  - intros r. rewrite Hn, He, filter_In, negb_true_iff, Nat.eqb_neq.
    rewrite ChunkedShape.degree_positive. split; [tauto|].
    intros H. split; [|assumption].
    destruct H as [e [Hin Hr]].
    rewrite HL, ChunkedShape.updateGraphChunk_closed in Hin |- *. simpl in *.
    rewrite BuilderShape.builtNodes_refs.
    apply BuilderShape.builtEdges_ends in Hin.
    destruct Hin as [_ [Gs [Gt _]]].
    destruct (BuilderContent.known_index u 0 _ _ Hu Gs)
      as [i [d [Hi [_ Hv]]]].
    destruct (BuilderContent.known_index u 0 _ _ Hu Gt)
      as [j [d' [Hj [_ Hv']]]].
    assert (i < List.length u) by (apply nth_error_Some; congruence).
    assert (j < List.length u) by (apply nth_error_Some; congruence).
    apply in_seq. simpl in *. destruct Hr; lia.
Qed.

Lemma clearing_builder_witness :
  exists s,
    ChunkedLoader.loadGraphInChunksWith true (fun _ _ => None) 1
      ChunkedLoader.initial
      [mkNode "a" "X" None; mkNode "b" "Y" None; mkNode "c" "Z" None]
      [mkEdge "a" "b" None; mkEdge "b" "c" None] = Some s
    /\ map etag (edges (ChunkedLoader.graph s)) = [mkEdge "b" "c" None].
Proof.
  destruct (clearing_builder_keeps_edges_of_last_chunk (fun _ _ => None) 1
              ChunkedLoader.initial
              [mkNode "a" "X" None; mkNode "b" "Y" None; mkNode "c" "Z" None]
              [mkEdge "a" "b" None; mkEdge "b" "c" None])
    as [s [E [I _]]].
  - lia.
  - discriminate.
  - exists s. split; [exact E|]. rewrite I. reflexivity.
Defined.

Module ChunkCount.
Import ChunkedLoader.

Lemma chunks_prefix {A : Type} (c : nat) (l : list A) (k : nat) :
  List.concat (map (fun i => firstn c (skipn (i * c) l)) (seq 0 k))
  = firstn (k * c) l.
Proof.
  induction k as [|k IH]; [reflexivity|].
  rewrite seq_S, map_app, concat_app, IH. simpl. rewrite app_nil_r.
  replace (c + k * c) with (k * c + c) by lia.
  now rewrite ChunkLoopFacts.firstn_plus.
Qed.

Lemma last_chunk_starts_inside (n c : nat) :
  1 <= c -> 1 <= n -> (totalChunks n c - 1) * c < n.
Proof.
  intros Hc Hn. unfold totalChunks.
  pose proof (Nat.div_mod_eq (n + c - 1) c) as E.
  pose proof (Nat.mod_upper_bound (n + c - 1) c) as B.
  assert (1 <= (n + c - 1) / c) by (apply Nat.div_le_lower_bound; lia).
  nia.
Qed.

End ChunkCount.

(** X16.  The chunk loop of [loadGraphInChunks] cuts the node list into
    [Math.ceil(n / chunkSize)] consecutive slices that cover it exactly,
    in order, with no record skipped or repeated; no slice is empty, each
    holds [chunkSize] records except possibly the last, and there is no
    slice exactly when the list is empty. *)
Theorem chunks_partition_the_node_list :
  forall (nodesData : list NodeData) (c : nat),
    1 <= c ->
    List.concat
      (map (fun i => firstn c (skipn (i * c) nodesData))
         (seq 0 (ChunkedLoader.totalChunks (List.length nodesData) c)))
    = nodesData
    /\ (forall i,
          i < ChunkedLoader.totalChunks (List.length nodesData) c ->
          List.length (firstn c (skipn (i * c) nodesData))
          = Nat.min c (List.length nodesData - i * c)
          /\ 1 <= List.length (firstn c (skipn (i * c) nodesData)))
    /\ (forall i,
          i + 1 < ChunkedLoader.totalChunks (List.length nodesData) c ->
          List.length (firstn c (skipn (i * c) nodesData)) = c)
    /\ (ChunkedLoader.totalChunks (List.length nodesData) c = 0
        <-> nodesData = []).
Proof.
  intros nodesData c Hc.
  assert (Hlast : 1 <= List.length nodesData ->
                  (ChunkedLoader.totalChunks (List.length nodesData) c - 1) * c
                  < List.length nodesData)
    by (now apply ChunkCount.last_chunk_starts_inside).
  split; [|split; [|split]].
  - rewrite ChunkCount.chunks_prefix.
    apply firstn_all2. now apply ChunkLoopFacts.chunks_cover.
  - intros i Hi. rewrite length_firstn, length_skipn. split; [reflexivity|].
    destruct nodesData as [|x l]; [simpl in Hi; unfold ChunkedLoader.totalChunks in Hi; simpl in Hi; rewrite Nat.div_small in Hi by lia; lia|].
    assert (1 <= List.length (x :: l)) by (simpl; lia).
    specialize (Hlast H). nia.
  - intros i Hi. rewrite length_firstn, length_skipn.
    destruct nodesData as [|x l]; [simpl in Hi; unfold ChunkedLoader.totalChunks in Hi; simpl in Hi; rewrite Nat.div_small in Hi by lia; lia|].
    assert (1 <= List.length (x :: l)) by (simpl; lia).
    specialize (Hlast H). nia.
  - split.
    + intros H0. destruct nodesData as [|x l]; [reflexivity|].
      assert (1 <= ChunkedLoader.totalChunks (List.length (x :: l)) c)
        by (apply ChunkedShape.totalChunks_positive; simpl; lia).
      lia.
    + intros ->. unfold ChunkedLoader.totalChunks. simpl.
      apply Nat.div_small. lia.
Qed.

Lemma chunks_partition_witness :
  List.concat
    (map (fun i => firstn 2 (skipn (i * 2) (ChunkedLoader.sampleNodes 5)))
       (seq 0 (ChunkedLoader.totalChunks
                 (List.length (ChunkedLoader.sampleNodes 5)) 2)))
  = ChunkedLoader.sampleNodes 5
  /\ ChunkedLoader.totalChunks (List.length (ChunkedLoader.sampleNodes 5)) 2 = 3.
Proof.
  destruct (chunks_partition_the_node_list (ChunkedLoader.sampleNodes 5) 2)
    as [H _].
  - lia.
  - split; [exact H|reflexivity].
Defined.

(** ** Tooltips *)
Module TooltipFacts.

Lemma indexOfPlus1_absent (r : nat) (refs : list nat) :
  ~ In r refs -> indexOfPlus1 r refs = 0.
Proof.
  induction refs as [|x refs IH]; simpl; intros H; [reflexivity|].
  destruct (x =? r) eqn:E.
  - apply Nat.eqb_eq in E. tauto.
  - rewrite IH; tauto.
Qed.

Lemma indexOfPlus1_nth (refs : list nat) :
  forall k r,
    NoDup refs -> nth_error refs k = Some r -> indexOfPlus1 r refs = k + 1.
Proof.
  induction refs as [|x refs IH]; intros k r Hnd Hk.
  - destruct k; discriminate.
  - inversion Hnd as [|? ? Hnot Hrest]; subst. destruct k as [|k]; simpl in *.
    + injection Hk as ->. now rewrite Nat.eqb_refl.
    + destruct (x =? r) eqn:E.
      * apply Nat.eqb_eq in E. subst. apply nth_error_In in Hk. tauto.
      * rewrite (IH k r Hrest Hk). now replace (k + 1) with (S k) by lia.
Qed.

Lemma decimal_inj (a b : nat) : decimal a = decimal b -> a = b.
Proof.
  unfold decimal. intros H.
  apply (f_equal NilEmpty.uint_of_string) in H.
  rewrite !NilEmpty.usu in H. injection H as H.
  now apply Unsigned.to_uint_inj.
Qed.

End TooltipFacts.

(** X17.  Tooltips number the items by their position in the graph.  On a
    graph with pairwise distinct elements, the tooltip of the node at
    0-based position [k] reads "Node #k+1", likewise "Edge #k+1" for
    edges; two nodes of the graph never share a tooltip, and a node tooltip
    is never an edge tooltip.  An item that is not in the graph is numbered
    0.  The listener sets the tooltip once: arguments that are already
    handled are left untouched, and its own result is handled. *)
Theorem tooltips_number_items_by_position :
  forall (NT ET : Type) (g : IGraph NT ET),
    NoDup (map nref (nodes g)) ->
    NoDup (map eref (edges g)) ->
    (forall k n, nth_error (nodes g) k = Some n ->
                 createContent (NodeItem (nref n)) g
                 = String.append "Node #" (decimal (k + 1)))
    /\ (forall k e, nth_error (edges g) k = Some e ->
                    createContent (EdgeItem (eref e)) g
                    = String.append "Edge #" (decimal (k + 1)))
    /\ (forall n m, In n (nodes g) -> In m (nodes g) ->
                    createContent (NodeItem (nref n)) g
                    = createContent (NodeItem (nref m)) g ->
                    nref n = nref m)
    /\ (forall r, ~ In r (map nref (nodes g)) ->
                  createContent (NodeItem r) g = "Node #0")
    /\ (forall a b, createContent (NodeItem a) g <> createContent (EdgeItem b) g)
    /\ (forall item args,
          queryItemToolTip g item (queryItemToolTip g item args)
          = queryItemToolTip g item args
          /\ handled (queryItemToolTip g item args) = true
          /\ (handled args = true -> queryItemToolTip g item args = args)
          /\ (handled args = false ->
              toolTip (queryItemToolTip g item args)
              = Some (createContent item g))).
Proof.
  intros NT ET g Hn He.
  assert (Hnode : forall k n, nth_error (nodes g) k = Some n ->
                    indexOfPlus1 (nref n) (map nref (nodes g)) = k + 1).
  { intros k n Hk. apply TooltipFacts.indexOfPlus1_nth; [assumption|].
    rewrite nth_error_map, Hk. reflexivity. }
  split; [|split; [|split; [|split; [|split]]]].
  - intros k n Hk. unfold createContent. now rewrite (Hnode k n Hk).
  - intros k e Hk. unfold createContent.
    rewrite (TooltipFacts.indexOfPlus1_nth (map eref (edges g)) k (eref e));
      [reflexivity|assumption|].
    rewrite nth_error_map, Hk. reflexivity.
  - intros n m Hin Him E.
    apply In_nth_error in Hin. destruct Hin as [i Hi].
    apply In_nth_error in Him. destruct Him as [j Hj].
    unfold createContent in E.
    rewrite (Hnode i n Hi), (Hnode j m Hj) in E.
    simpl in E. injection E as E. apply TooltipFacts.decimal_inj in E.
    assert (i = j) by lia. subst j. congruence.
  - intros r Hr. unfold createContent.
    now rewrite TooltipFacts.indexOfPlus1_absent.
  - intros a b. unfold createContent. simpl. discriminate.
  - intros item args. unfold queryItemToolTip.
    destruct (handled args) eqn:H; simpl; rewrite ?H; repeat split;
      try discriminate; auto.
Qed.

Lemma tooltips_witness :
  createContent (NodeItem 7)
    (mkIGraph [mkINode 4 "A" DefaultNodeStyle []; mkINode 7 "B" DefaultNodeStyle []]
       [mkIEdge 9 4 7 "e" []] 10)
  = "Node #2"
  /\ createContent (EdgeItem 9)
       (mkIGraph [mkINode 4 "A" DefaultNodeStyle [];
                  mkINode 7 "B" DefaultNodeStyle []]
          [mkIEdge 9 4 7 "e" []] 10)
     = "Edge #1".
Proof.
  destruct (tooltips_number_items_by_position string string
              (mkIGraph [mkINode 4 "A" DefaultNodeStyle [];
                         mkINode 7 "B" DefaultNodeStyle []]
                 [mkIEdge 9 4 7 "e" []] 10))
    as [Hn [He _]].
  - apply distinctNats_NoDup. reflexivity.
  - apply distinctNats_NoDup. reflexivity.
  - split.
    + exact (Hn 1 (mkINode 7 "B" DefaultNodeStyle []) eq_refl).
    + exact (He 0 (mkIEdge 9 4 7 "e" []) eq_refl).
Defined.

Module ContextMenuFacts.

Lemma selected_In (r : nat) (l : list nat) :
  existsb (Nat.eqb r) l = true <-> In r l.
Proof.
  rewrite existsb_exists. split.
  - intros [x [Hx E]]. apply Nat.eqb_eq in E. now subst.
  - intros H. exists r. split; [assumption|apply Nat.eqb_refl].
Qed.

(** After [updateSelection] some node is selected exactly when a node was
    passed. *)
Lemma updateSelection_size (sel : Selection) (node : option nat) :
  (0 <? List.length (selectedNodes (updateSelection sel node)))
  = match node with
    | Some _ => true
    | None => false
    end.
Proof.
  destruct node as [r|]; [|reflexivity]. unfold updateSelection.
  destruct (existsb (Nat.eqb r) (selectedNodes sel)) eqn:E; [|reflexivity].
  simpl. apply selected_In in E.
  destruct (selectedNodes sel); [contradiction|reflexivity].
Qed.

Lemma updateSelection_twice (sel : Selection) (node : option nat) :
  updateSelection (updateSelection sel node) node = updateSelection sel node.
Proof.
  destruct node as [r|]; [|reflexivity]. unfold updateSelection.
  destruct (existsb (Nat.eqb r) (selectedNodes sel)) eqn:E; simpl.
  - now rewrite E.
  - now rewrite Nat.eqb_refl.
Qed.

End ContextMenuFacts.

(** X18.  The context menu has exactly one entry whatever it held before,
    and the input mode is always told to show it.  The entry is "Zoom to
    node" exactly when the pointer is over a node, and "Fit Graph Bounds"
    otherwise.  Over a node that is already selected the selection is kept
    whole; over another node the selection becomes that node alone, which
    also becomes the current item; over anything else nothing stays
    selected.  Populating again for the same item changes nothing more. *)
Theorem context_menu_entry_follows_the_hit_item :
  forall (menu : Menu) (sel : Selection) (item : ModelItem),
    showMenu (fst (populateContextMenu menu sel item)) = true
    /\ (items (fst (populateContextMenu menu sel item)) = ["Zoom to node"]
        /\ (exists r, item = NodeItem r)
        \/ items (fst (populateContextMenu menu sel item)) = ["Fit Graph Bounds"]
           /\ (forall r, item <> NodeItem r))
    /\ (forall r, item = NodeItem r ->
          In r (selectedNodes (snd (populateContextMenu menu sel item)))
          /\ (In r (selectedNodes sel) ->
              snd (populateContextMenu menu sel item) = sel)
          /\ (~ In r (selectedNodes sel) ->
              snd (populateContextMenu menu sel item)
              = mkSelection [r] [] (Some r)))
    /\ ((forall r, item <> NodeItem r) ->
        snd (populateContextMenu menu sel item)
        = mkSelection [] [] (currentItem sel))
    /\ populateContextMenu (fst (populateContextMenu menu sel item))
         (snd (populateContextMenu menu sel item)) item
       = populateContextMenu menu sel item.
Proof.
  intros menu sel item.
  set (node := match item with
               | NodeItem r => Some r
               | _ => None
               end).
  assert (Hpop : forall m s,
             populateContextMenu m s item
             = (mkMenu (if match node with Some _ => true | None => false end
                        then ["Zoom to node"] else ["Fit Graph Bounds"]) true,
                updateSelection s node)).
  { intros m s. unfold populateContextMenu. fold node.
    rewrite ContextMenuFacts.updateSelection_size.
    now destruct node. }
  rewrite !Hpop. simpl fst. simpl snd.
  rewrite ContextMenuFacts.updateSelection_twice.
  split; [reflexivity|]. split; [|split; [|split; [|reflexivity]]].
  - destruct item as [r| |]; simpl.
    + left. split; [reflexivity|now exists r].
    + right. split; [reflexivity|discriminate].
    + right. split; [reflexivity|discriminate].
  - intros r ->. simpl. unfold updateSelection.
    destruct (existsb (Nat.eqb r) (selectedNodes sel)) eqn:E; simpl.
    + apply ContextMenuFacts.selected_In in E. repeat split; tauto.
    + repeat split; [now left|].
      intros H. apply ContextMenuFacts.selected_In in H. congruence.
  - intros H. destruct item as [r| |]; [now specialize (H r)| |]; reflexivity.
Qed.

(** X19.  [handleFileUpload] loads the graph exactly when both files are
    known.  An event without a file changes nothing.  The first file of a
    pair is only stored.  Nodes then edges and edges then nodes leave the
    same window, with one load of the two files.  Once both are known,
    every further file triggers a load of the new file with the stored
    other one, on the page as the previous load left it. *)
Theorem upload_loads_once_both_files_are_known :
  forall (clearsGraph : bool) (w : Window),
    handleFileUpload clearsGraph w NoFiles = w
    /\ (forall nodesData,
          uploadedEdges w = None ->
          handleFileUpload clearsGraph w (NodesFile nodesData)
          = mkWindow (Some nodesData) None (page w))
    /\ (forall edgesData,
          uploadedNodes w = None ->
          handleFileUpload clearsGraph w (EdgesFile edgesData)
          = mkWindow None (Some edgesData) (page w))
    /\ (forall nodesData edgesData,
          uploadedNodes w = None -> uploadedEdges w = None ->
          handleFileUpload clearsGraph
            (handleFileUpload clearsGraph w (NodesFile nodesData))
            (EdgesFile edgesData)
          = handleFileUpload clearsGraph
              (handleFileUpload clearsGraph w (EdgesFile edgesData))
              (NodesFile nodesData)
          /\ handleFileUpload clearsGraph
               (handleFileUpload clearsGraph w (NodesFile nodesData))
               (EdgesFile edgesData)
             = mkWindow (Some nodesData) (Some edgesData)
                 (BuilderLoader.loadAndProcessCSVFiles clearsGraph (page w)
                    nodesData edgesData))
    /\ (forall nodesData edgesData,
          uploadedNodes w = Some nodesData ->
          uploadedEdges w = Some edgesData ->
          (forall nodesData',
             handleFileUpload clearsGraph w (NodesFile nodesData')
             = mkWindow (Some nodesData') (Some edgesData)
                 (BuilderLoader.loadAndProcessCSVFiles clearsGraph (page w)
                    nodesData' edgesData))
          /\ (forall edgesData',
                handleFileUpload clearsGraph w (EdgesFile edgesData')
                = mkWindow (Some nodesData) (Some edgesData')
                    (BuilderLoader.loadAndProcessCSVFiles clearsGraph (page w)
                       nodesData edgesData'))).
Proof.
  intros clearsGraph [un ue pg]. simpl.
  split; [reflexivity|]. split; [now intros nodesData ->|].
  split; [now intros edgesData ->|]. split.
  - intros nodesData edgesData -> ->. split; reflexivity.
  - intros nodesData edgesData -> ->. split; reflexivity.
Qed.

(** X20.  The answers of [getColorForType] (second revision) are stable.
    The answer always reads as set, and it is what the table reads as under
    the type from then on.  For a type that is no member name of
    [Object.prototype] the answer is a non-empty colour stored under the
    type: the colour the table already held, or else the palette colour
    numbered by the size of the table.  For a member name that the table
    does not hold, nothing is stored and the answer is that member, not a
    colour.  Asking again gives the same answer and leaves the table as it
    is, also after any number of queries for other types, and no query
    changes the colour of a type that has one. *)
Theorem getColorForType_answers_are_stable :
  forall (typeColors : JsMap.t string) (t : string),
    truthyValue (snd (BuilderLoader.getColorForType typeColors t)) = true
    /\ snd (BuilderLoader.getColorForType typeColors t)
       = lookup t (fst (BuilderLoader.getColorForType typeColors t))
    /\ (inherited t = false ->
        exists c,
          snd (BuilderLoader.getColorForType typeColors t) = JsString c
          /\ truthy c = true
          /\ JsMap.get t (fst (BuilderLoader.getColorForType typeColors t))
             = Some c
          /\ (JsMap.get t typeColors = Some c
              \/ c = nth (List.length typeColors mod List.length colorPalette)
                       colorPalette ""))
    /\ (inherited t = true -> JsMap.get t typeColors = None ->
        BuilderLoader.getColorForType typeColors t = (typeColors, JsMember t))
    /\ BuilderLoader.getColorForType
         (fst (BuilderLoader.getColorForType typeColors t)) t
       = BuilderLoader.getColorForType typeColors t
    /\ (forall others : list string,
          snd (BuilderLoader.getColorForType
                 (fold_left
                    (fun tc t' => fst (BuilderLoader.getColorForType tc t'))
                    others
                    (fst (BuilderLoader.getColorForType typeColors t))) t)
          = snd (BuilderLoader.getColorForType typeColors t))
    /\ (forall t' c',
          JsMap.get t' typeColors = Some c' -> truthy c' = true ->
          JsMap.get t' (fst (BuilderLoader.getColorForType typeColors t))
          = Some c').
Proof.
  intros typeColors t.
  destruct (BuilderFacts.getColorForType_lookup typeColors t) as [Hs Ht].
  assert (Hhit : forall tc, truthyValue (lookup t tc) = true ->
                   BuilderLoader.getColorForType tc t = (tc, lookup t tc)).
  { intros tc H. unfold BuilderLoader.getColorForType, unset.
    now rewrite H. }
  split; [exact Ht|]. split; [exact Hs|]. split.
  { intros I. clear Hhit. rewrite Hs in Ht. rewrite Hs.
    remember (fst (BuilderLoader.getColorForType typeColors t)) as tc1 eqn:E.
    unfold lookup in *. rewrite I in *.
    destruct (JsMap.get t tc1) as [c|] eqn:G; [|discriminate Ht].
    exists c. split; [reflexivity|]. split; [exact Ht|].
    split; [reflexivity|].
    unfold BuilderLoader.getColorForType in E. cbn [fst] in E.
    destruct (unset t typeColors); subst tc1.
    - right. rewrite JsMapFacts.get_set, String.eqb_refl in G.
      injection G as <-. reflexivity.
    - now left. }
  split.
  { intros I G. rewrite Hhit; unfold lookup; rewrite G, I; reflexivity. }
  split.
  { rewrite Hhit by (now rewrite <- Hs). rewrite <- Hs.
    now destruct (BuilderLoader.getColorForType typeColors t). }
  split.
  - intros others.
    assert (Hkeep : forall l tc, truthyValue (lookup t tc) = true ->
               lookup t
                 (fold_left
                    (fun tc t' => fst (BuilderLoader.getColorForType tc t'))
                    l tc) = lookup t tc).
    { induction l as [|x l IH]; intros tc H; cbn [fold_left]; [reflexivity|].
      rewrite IH; rewrite BuilderFacts.getColorForType_lookup_kept; auto. }
    rewrite Hhit; cbn [snd]; rewrite Hkeep; rewrite <- Hs; auto.
  - intros t' c' G T. now apply BuilderFacts.getColorForType_keeps.
Qed.

(** ** Level of detail *)
Module LevelOfDetailFacts.

Lemma concat_singletons {A B : Type} (f : A -> B) (l : list A) :
  List.concat (map (fun x => [f x]) l) = map f l.
Proof.
  induction l as [|a l IH]; simpl; [reflexivity|]. now rewrite IH.
Qed.

Lemma concat_empties {A B : Type} (l : list A) :
  List.concat (map (fun _ : A => @nil B) l) = [].
Proof. induction l as [|a l IH]; simpl; auto. Qed.

Lemma concat_kept {A : Type} (keep : A -> bool) (l : list A) :
  List.concat (map (fun x => if keep x then [x] else []) l) = filter keep l.
Proof.
  induction l as [|a l IH]; simpl; [reflexivity|].
  rewrite IH. now destruct (keep a).
Qed.

(** Zooming in, on labels that are untagged or tagged visible. *)
Lemma zoomed_in (labels : list Label) :
  (forall l, In l labels ->
             falsy (ltag l) = true \/ ltag l = Some "visible") ->
  levelOfDetailOwner true labels
  = map (fun l => mkLabel (ltext l) (Some "visible")) labels.
Proof.
  intros H. unfold levelOfDetailOwner.
  rewrite (map_ext_in _ (fun l => [mkLabel (ltext l) (Some "visible")])).
  - rewrite (map_ext_in (fun l => snd (levelOfDetailLabel true l))
               (fun _ => [])).
    + now rewrite concat_singletons, concat_empties, app_nil_r.
    + intros l Hl. unfold levelOfDetailLabel.
      destruct (H l Hl) as [F|V]; [now rewrite F|].
      rewrite V. reflexivity.
  - intros l Hl. unfold levelOfDetailLabel.
    destruct (H l Hl) as [F|V]; [now rewrite F|].
    rewrite V. simpl. destruct l as [text tag]. simpl in *. now subst.
Qed.

(** Zooming out, on such labels. *)
Lemma zoomed_out (labels : list Label) :
  (forall l, In l labels ->
             falsy (ltag l) = true \/ ltag l = Some "visible") ->
  levelOfDetailOwner false labels = filter (fun l => falsy (ltag l)) labels.
Proof.
  intros H. unfold levelOfDetailOwner.
  rewrite (map_ext_in _ (fun l => if falsy (ltag l) then [l] else [])).
  - rewrite (map_ext_in (fun l => snd (levelOfDetailLabel false l))
               (fun _ => [])).
    + now rewrite concat_kept, concat_empties, app_nil_r.
    + intros l Hl. unfold levelOfDetailLabel. simpl.
      destruct (ltag l) as [tag|]; [|reflexivity].
      destruct (String.eqb tag "visible"); reflexivity.
  - intros l Hl. unfold levelOfDetailLabel. simpl.
    destruct (H l Hl) as [F|V].
    + rewrite F. destruct (ltag l) as [tag|]; [|reflexivity].
      simpl in F. destruct (String.eqb tag "visible") eqn:E; [|reflexivity].
      apply String.eqb_eq in E. subst. discriminate.
    + rewrite V. reflexivity.
Qed.

Lemma no_labels (events : list bool) (n : nat) :
  fold_left (fun owners showLabels => zoomChanged showLabels owners) events
    (repeat [] n)
  = repeat [] n.
Proof.
  induction events as [|e events IH]; simpl; [reflexivity|].
  assert (E : zoomChanged e (repeat (@nil Label) n) = repeat [] n).
  { unfold zoomChanged. clear IH.
    induction n as [|n IHn]; simpl; [reflexivity|].
    now rewrite IHn. }
  now rewrite E.
Qed.

End LevelOfDetailFacts.

(** X21.  The level-of-detail listener removes labels for good.  On labels
    that are untagged or tagged visible (as the loaders and the listener
    itself leave them): a zoom event above the threshold keeps every label
    and tags it visible; a zoom event below the threshold removes exactly
    the labels tagged visible and keeps the untagged ones; no event adds a
    label or tags one hidden.  So after zooming in and then out no node or
    edge has a label left, and no later zoom event brings one back. *)
Theorem zoomed_out_labels_never_return :
  forall owners : list (list Label),
    (forall labels l, In labels owners -> In l labels ->
                      falsy (ltag l) = true \/ ltag l = Some "visible") ->
    zoomChanged true owners
    = map (map (fun l => mkLabel (ltext l) (Some "visible"))) owners
    /\ zoomChanged false owners
       = map (filter (fun l => falsy (ltag l))) owners
    /\ (forall showLabels labels l,
          In labels (zoomChanged showLabels owners) -> In l labels ->
          falsy (ltag l) = true \/ ltag l = Some "visible")
    /\ (forall events : list bool,
          fold_left (fun owners showLabels => zoomChanged showLabels owners)
            events (zoomChanged false (zoomChanged true owners))
          = repeat [] (List.length owners)).
Proof.
  intros owners H.
  assert (Hin : zoomChanged true owners
                = map (map (fun l => mkLabel (ltext l) (Some "visible")))
                    owners).
  { unfold zoomChanged. apply map_ext_in. intros labels Hl.
    apply LevelOfDetailFacts.zoomed_in. intros l. now apply H. }
  assert (Hout : zoomChanged false owners
                 = map (filter (fun l => falsy (ltag l))) owners).
  { unfold zoomChanged. apply map_ext_in. intros labels Hl.
    apply LevelOfDetailFacts.zoomed_out. intros l. now apply H. }
  split; [exact Hin|]. split; [exact Hout|]. split.
  - intros [|] labels l Hl Hi.
    + rewrite Hin in Hl. apply in_map_iff in Hl. destruct Hl as [l0 [<- _]].
      apply in_map_iff in Hi. destruct Hi as [x [<- _]]. now right.
    + rewrite Hout in Hl. apply in_map_iff in Hl.
      destruct Hl as [l0 [<- _]].
      apply filter_In in Hi. now left.
  - intros events.
    assert (E : zoomChanged false (zoomChanged true owners)
                = repeat [] (List.length owners)).
    { rewrite Hin. unfold zoomChanged. rewrite map_map.
      clear. induction owners as [|labels owners IH]; simpl; [reflexivity|].
      rewrite IH. f_equal.
      rewrite LevelOfDetailFacts.zoomed_out.
      - induction labels as [|l labels IHl]; simpl; auto.
      - intros l Hl. apply in_map_iff in Hl. destruct Hl as [x [<- _]].
        now right. }
    rewrite E. apply LevelOfDetailFacts.no_labels.
Qed.

Lemma zoomed_out_labels_witness :
  zoomChanged false
    (zoomChanged true [[mkLabel "Ann" None; mkLabel "Bob" None]; []])
  = [[]; []]
  /\ zoomChanged true
       (zoomChanged false
          (zoomChanged true [[mkLabel "Ann" None; mkLabel "Bob" None]; []]))
     = [[]; []].
Proof.
  destruct (zoomed_out_labels_never_return
              [[mkLabel "Ann" None; mkLabel "Bob" None]; []])
    as [_ [_ [_ H]]].
  - intros labels l Hl Hi. left.
    destruct Hl as [<-|[<-|[]]]; [|destruct Hi].
    destruct Hi as [<-|[<-|[]]]; reflexivity.
  - split; [exact (H [])|exact (H [true])].
Defined.

(** ** Cluster colours *)
Module ClusterColours.
Import ChunkedLoader.

(** Restyling the members of one cluster, in closed form. *)
Lemma setStyle_loop_closed (style : NodeStyle) (rs : list nat) :
  forall g : IGraph string EdgeData,
    (forall r, In r rs -> isNode g r = true) ->
    forEachM (fun g node => setStyle g node style) rs g
    = Some (mkIGraph
              (map (fun n => if existsb (Nat.eqb (nref n)) rs
                             then mkINode (nref n) (ntag n) style (nlabels n)
                             else n) (nodes g))
              (edges g) (fresh g)).
Proof.
  induction rs as [|r rs IH]; intros g H; simpl.
  - rewrite map_id. now destruct g.
  - unfold setStyle at 1. rewrite (H r) by now left. simpl.
    rewrite IH.
    + simpl. rewrite map_map. do 2 f_equal. apply map_ext. intros n.
      destruct (nref n =? r) eqn:E; simpl; [|reflexivity].
      now destruct (existsb (Nat.eqb (nref n)) rs).
    + intros r' Hr'. rewrite isNode_refs. simpl. rewrite map_map.
      rewrite (map_ext _ nref)
        by (intros n; now destruct (nref n =? r)).
      rewrite <- isNode_refs. apply H. now right.
Qed.

Lemma member_In (r : nat) (rs : list nat) :
  existsb (Nat.eqb r) rs = true <-> In r rs.
Proof.
  rewrite existsb_exists. split.
  - intros [x [Hx E]]. apply Nat.eqb_eq in E. now subst.
  - intros H. exists r. split; [assumption|apply Nat.eqb_refl].
Qed.

(** Painting the clusters in order: every node keeps its identity, tag and
    labels; a node in no cluster keeps its style, and a node whose last
    cluster is the [j]-th one is painted with the [j]-th colour handed
    out. *)
Lemma paint_closed (clusters : list (nat * list nat)) :
  forall (g : IGraph string EdgeData) (i : nat),
    (forall entry, In entry clusters ->
       forall r, In r (snd entry) -> isNode g r = true) ->
    exists (restyle : nat -> NodeStyle -> NodeStyle) (i' : nat),
      forEachM paintCluster clusters (g, i)
      = Some (mkIGraph
                (map (fun n => mkINode (nref n) (ntag n)
                                 (restyle (nref n) (nstyle n)) (nlabels n))
                   (nodes g))
                (edges g) (fresh g), i')
      /\ (forall r s,
            (forall entry, In entry clusters -> ~ In r (snd entry)) ->
            restyle r s = s)
      /\ (forall r s j entry,
            nth_error clusters j = Some entry ->
            In r (snd entry) ->
            (forall j' entry', j < j' -> nth_error clusters j' = Some entry' ->
                               ~ In r (snd entry')) ->
            restyle r s = ShinyPlateNodeStyle (paletteAt colors (i + j))).
Proof.
  induction clusters as [|entry clusters IH]; intros g i H.
  - exists (fun _ s => s), i. simpl. split; [|split].
    + rewrite (map_ext _ (fun n => n)) by (intros n; now destruct n).
      rewrite map_id. now destruct g.
    + reflexivity.
    + intros r s j entry Hj. destruct j; discriminate.
  - set (g1 := mkIGraph
                 (map (fun n => if existsb (Nat.eqb (nref n)) (snd entry)
                                then mkINode (nref n) (ntag n)
                                       (ShinyPlateNodeStyle (paletteAt colors i))
                                       (nlabels n)
                                else n) (nodes g))
                 (edges g) (fresh g)).
    assert (Step : forEachM paintCluster (entry :: clusters) (g, i)
                   = forEachM paintCluster clusters (g1, S i)).
    { cbn [forEachM]. unfold paintCluster at 1.
      rewrite setStyle_loop_closed
        by (intros r Hr; apply (H entry); [now left|assumption]).
      reflexivity. }
    destruct (IH g1 (S i)) as [restyle' [i' [E [Hout Hin]]]].
    { intros entry' He r Hr. rewrite isNode_refs. simpl. rewrite map_map.
      rewrite (map_ext _ nref)
        by (intros n; now destruct (existsb (Nat.eqb (nref n)) (snd entry))).
      rewrite <- isNode_refs. apply (H entry'); [now right|assumption]. }
    exists (fun r s =>
              restyle' r (if existsb (Nat.eqb r) (snd entry)
                          then ShinyPlateNodeStyle (paletteAt colors i)
                          else s)), i'.
    split; [|split].
    + rewrite Step, E. simpl. rewrite map_map. do 3 f_equal.
      apply map_ext. intros n.
      now destruct (existsb (Nat.eqb (nref n)) (snd entry)).
    + intros r s Hno.
      rewrite Hout by (intros entry' He; apply Hno; now right).
      destruct (existsb (Nat.eqb r) (snd entry)) eqn:M; [|reflexivity].
      apply member_In in M. exfalso. apply (Hno entry); [now left|assumption].
    + intros r s j entry0 Hj Hr Hlast. destruct j as [|j]; simpl in Hj.
      * injection Hj as <-.
        rewrite Hout.
        -- apply member_In in Hr. rewrite Hr. now rewrite Nat.add_0_r.
        -- intros entry' He Hr'. apply In_nth_error in He.
           destruct He as [j' Hj'].
           apply (Hlast (S j') entry'); [lia|exact Hj'|assumption].
      * rewrite (Hin r _ j entry0 Hj Hr).
        -- f_equal. f_equal. lia.
        -- intros j' entry' Hlt Hj'. apply (Hlast (S j') entry'); [lia|exact Hj'].
Qed.

Lemma pushCluster_keys (c n : nat) (clusters : list (nat * list nat)) :
  forall entry,
    In entry (pushCluster c n clusters) ->
    fst entry = c \/ exists entry', In entry' clusters /\ fst entry' = fst entry.
Proof.
  induction clusters as [|[k ms] rest IH]; intros entry He; simpl in He.
  - destruct He as [<-|[]]. now left.
  - destruct (c =? k) eqn:E.
    + destruct He as [<-|He].
      * right. exists (k, ms). split; [now left|reflexivity].
      * right. exists entry. split; [now right|reflexivity].
    + destruct (c <? k).
      * destruct He as [<-|He]; [now left|].
        right. exists entry. split; [assumption|reflexivity].
      * destruct He as [<-|He].
        -- right. exists (k, ms). split; [now left|reflexivity].
        -- destruct (IH entry He) as [->|[entry' [He' Hk]]]; [now left|].
           right. exists entry'. split; [now right|assumption].
Qed.

Lemma pushCluster_ascending (c n : nat) (clusters : list (nat * list nat)) :
  ascending clusters -> ascending (pushCluster c n clusters).
Proof.
  induction 1 as [|k ms rest Hk Hrest IH]; simpl.
  - constructor; [intros entry []|constructor].
  - destruct (c =? k) eqn:E; [now constructor|].
    destruct (c <? k) eqn:L.
    + apply Nat.ltb_lt in L. constructor; [|now constructor].
      intros entry [<-|He]; [assumption|].
      specialize (Hk entry He). lia.
    + apply Nat.ltb_ge in L. apply Nat.eqb_neq in E.
      constructor; [|assumption].
      intros entry He. apply pushCluster_keys in He.
      destruct He as [->|[entry' [He' <-]]]; [lia|now apply Hk].
Qed.

(** Members of the table after one more node. *)
Lemma pushCluster_members (c n : nat) (clusters : list (nat * list nat)) :
  forall entry r,
    In entry (pushCluster c n clusters) -> In r (snd entry) ->
    (r = n /\ fst entry = c)
    \/ exists entry', In entry' clusters /\ fst entry' = fst entry
                      /\ In r (snd entry').
Proof.
  induction clusters as [|[k ms] rest IH]; intros entry r He Hr; simpl in He.
  - destruct He as [<-|[]]. simpl in Hr. destruct Hr as [<-|[]]. now left.
  - destruct (c =? k) eqn:E.
    + destruct He as [<-|He].
      * simpl in Hr. apply in_app_or in Hr. destruct Hr as [Hr|[<-|[]]].
        -- right. exists (k, ms). split; [now left|now split].
        -- left. apply Nat.eqb_eq in E. now split.
      * right. exists entry. split; [now right|now split].
    + destruct (c <? k).
      * destruct He as [<-|He].
        -- simpl in Hr. destruct Hr as [<-|[]]. now left.
        -- right. exists entry. split; [assumption|now split].
      * destruct He as [<-|He].
        -- right. exists (k, ms). split; [now left|now split].
        -- destruct (IH entry r He Hr) as [H|[entry' [He' H]]]; [now left|].
           right. exists entry'. split; [now right|assumption].
Qed.

Lemma pushCluster_holds (c n : nat) (clusters : list (nat * list nat)) :
  exists entry,
    In entry (pushCluster c n clusters) /\ fst entry = c /\ In n (snd entry).
Proof.
  induction clusters as [|[k ms] rest IH]; simpl.
  - exists (c, [n]). split; [now left|]. split; [reflexivity|now left].
  - destruct (c =? k) eqn:E.
    + apply Nat.eqb_eq in E. exists (k, ms ++ [n]).
      split; [now left|]. split; [now symmetry|].
      apply in_or_app. right. now left.
    + destruct (c <? k).
      * exists (c, [n]). split; [now left|]. split; [reflexivity|now left].
      * destruct IH as [entry [He H]]. exists entry. split; [now right|exact H].
Qed.

Lemma pushCluster_keeps (c n : nat) (clusters : list (nat * list nat)) :
  forall entry' r,
    In entry' clusters -> In r (snd entry') ->
    exists entry,
      In entry (pushCluster c n clusters) /\ fst entry = fst entry'
      /\ In r (snd entry).
Proof.
  induction clusters as [|[k ms] rest IH]; intros entry' r He Hr; simpl in *;
    [contradiction|].
  destruct (c =? k) eqn:E.
  - destruct He as [<-|He].
    + exists (k, ms ++ [n]). split; [now left|]. split; [reflexivity|].
      apply in_or_app. now left.
    + exists entry'. split; [now right|now split].
  - destruct (c <? k).
    + exists entry'. split; [now right|now split].
    + destruct He as [<-|He].
      * exists (k, ms). split; [now left|now split].
      * destruct (IH entry' r He Hr) as [entry [He' H]].
        exists entry. split; [now right|exact H].
Qed.

Section Table.
Variable clusterOf : nat -> option nat.

(** The table that [applyClustering] collects from the nodes. *)
Lemma table_shape (ns : list (INode string)) :
  forall clusters,
    ascending clusters ->
    ascending
      (fold_left
         (fun clusters node =>
            match clusterOf (nref node) with
            | Some clusterId => pushCluster clusterId (nref node) clusters
            | None => clusters
            end) ns clusters).
Proof.
  induction ns as [|n ns IH]; intros clusters H; simpl; [assumption|].
  apply IH. destruct (clusterOf (nref n)); [|assumption].
  now apply pushCluster_ascending.
Qed.

Lemma table_members (ns : list (INode string)) :
  forall clusters entry r,
    In entry
      (fold_left
         (fun clusters node =>
            match clusterOf (nref node) with
            | Some clusterId => pushCluster clusterId (nref node) clusters
            | None => clusters
            end) ns clusters) ->
    In r (snd entry) ->
    (In r (map nref ns) /\ clusterOf r = Some (fst entry))
    \/ exists entry', In entry' clusters /\ fst entry' = fst entry
                      /\ In r (snd entry').
Proof.
  induction ns as [|n ns IH]; intros clusters entry r He Hr; simpl in *.
  - right. exists entry. now repeat split.
  - destruct (IH _ entry r He Hr) as [[H1 H2]|[entry' [He' [Hk Hr']]]];
      [left; split; [now right|assumption]|].
    destruct (clusterOf (nref n)) as [c|] eqn:C.
    + destruct (pushCluster_members c (nref n) clusters entry' r He' Hr')
        as [[-> Hc]|[entry'' [He'' [Hk' Hr'']]]].
      * left. split; [now left|]. congruence.
      * right. exists entry''. split; [assumption|]. split; [congruence|assumption].
    + right. exists entry'. now repeat split.
Qed.

Lemma table_keeps (ns : list (INode string)) :
  forall clusters entry' r,
    In entry' clusters -> In r (snd entry') ->
    exists entry,
      In entry
        (fold_left
           (fun clusters node =>
              match clusterOf (nref node) with
              | Some clusterId => pushCluster clusterId (nref node) clusters
              | None => clusters
              end) ns clusters)
      /\ fst entry = fst entry' /\ In r (snd entry).
Proof.
  induction ns as [|n ns IH]; intros clusters entry' r He Hr; simpl.
  - exists entry'. now repeat split.
  - destruct (clusterOf (nref n)) as [c|]; [|now apply IH].
    destruct (pushCluster_keeps c (nref n) clusters entry' r He Hr)
      as [entry1 [He1 [Hk1 Hr1]]].
    destruct (IH _ entry1 r He1 Hr1) as [entry [He2 [Hk2 Hr2]]].
    exists entry. split; [assumption|]. split; [congruence|assumption].
Qed.

Lemma table_holds (ns : list (INode string)) :
  forall clusters n c,
    In n ns -> clusterOf (nref n) = Some c ->
    exists entry,
      In entry
        (fold_left
           (fun clusters node =>
              match clusterOf (nref node) with
              | Some clusterId => pushCluster clusterId (nref node) clusters
              | None => clusters
              end) ns clusters)
      /\ fst entry = c /\ In (nref n) (snd entry).
Proof.
  induction ns as [|m ns IH]; intros clusters n c Hn Hc; simpl in *;
    [contradiction|].
  destruct Hn as [->|Hn]; [|now apply IH].
  rewrite Hc.
  destruct (pushCluster_holds c (nref n) clusters) as [entry1 [He1 [Hk1 Hr1]]].
  destruct (table_keeps ns _ entry1 (nref n) He1 Hr1)
    as [entry [He [Hk Hr]]].
  exists entry. split; [assumption|]. split; [congruence|assumption].
Qed.

End Table.

(** In an ascending table the position fixes the key. *)
Lemma ascending_nth (clusters : list (nat * list nat)) :
  ascending clusters ->
  forall i j a b,
    i < j -> nth_error clusters i = Some a -> nth_error clusters j = Some b ->
    fst a < fst b.
Proof.
  induction 1 as [|k ms rest Hk Hrest IH]; intros i j a b Hlt Hi Hj.
  - destruct i; discriminate.
  - destruct j as [|j]; [lia|]. simpl in Hj. destruct i as [|i]; simpl in Hi.
    + injection Hi as <-. simpl. apply Hk. now apply nth_error_In in Hj.
    + apply (IH i j); [lia|assumption|assumption].
Qed.

End ClusterColours.

Module ClusterTable.
Import ChunkedLoader.

Lemma table_keys (clusterOf : nat -> option nat) (ns : list (INode string)) :
  forall clusters entry,
    In entry
      (fold_left
         (fun clusters node =>
            match clusterOf (nref node) with
            | Some clusterId => pushCluster clusterId (nref node) clusters
            | None => clusters
            end) ns clusters) ->
    (exists n, In n ns /\ clusterOf (nref n) = Some (fst entry))
    \/ exists entry', In entry' clusters /\ fst entry' = fst entry.
Proof.
  induction ns as [|n ns IH]; intros clusters entry He; simpl in *.
  - right. now exists entry.
  - destruct (IH _ entry He) as [[m [Hm Hc]]|[entry' [He' Hk]]].
    + left. exists m. split; [now right|assumption].
    + destruct (clusterOf (nref n)) as [c|] eqn:C.
      * destruct (ClusterColours.pushCluster_keys c (nref n) clusters entry' He')
          as [Hc|[entry'' [He'' Hk']]].
        -- left. exists n. split; [now left|]. congruence.
        -- right. exists entry''. split; [assumption|congruence].
      * right. now exists entry'.
Qed.

End ClusterTable.

(** X22.  [applyClustering] paints the clusters in ascending order of
    their ids.  On a graph with pairwise distinct nodes it never throws;
    the cluster ids that occur, taken in ascending order, get
    [clusterColors[0]], [clusterColors[1]], ... (wrapping around after the
    tenth); every node that survives the pruning is a node of the graph
    before with the same tag and labels, it is filled with the colour of its
    cluster, and it keeps its style when the clustering gives it no id. *)
Theorem clustering_paints_clusters_in_ascending_order :
  forall (nodeClusterIds : IGraph string EdgeData -> nat -> option nat)
         (st : ChunkedLoader.State),
    NoDup (map nref (nodes (ChunkedLoader.graph st))) ->
    exists st' ids,
      ChunkedLoader.applyClustering nodeClusterIds st = Some st'
      /\ (forall i j a b,
            i < j -> nth_error ids i = Some a -> nth_error ids j = Some b ->
            a < b)
      /\ (forall k,
            In k ids <->
            exists n, In n (nodes (ChunkedLoader.graph st))
                      /\ nodeClusterIds (ChunkedLoader.graph st) (nref n)
                         = Some k)
      /\ forall n',
           In n' (nodes (ChunkedLoader.graph st')) ->
           exists n,
             In n (nodes (ChunkedLoader.graph st))
             /\ nref n' = nref n /\ ntag n' = ntag n /\ nlabels n' = nlabels n
             /\ match nodeClusterIds (ChunkedLoader.graph st) (nref n) with
                | Some clusterId =>
                    exists j,
                      nth_error ids j = Some clusterId
                      /\ nstyle n' = ShinyPlateNodeStyle (paletteAt colors j)
                | None => nstyle n' = nstyle n
                end.
Proof.
  intros nodeClusterIds st Hnd.
  set (g := ChunkedLoader.graph st) in *.
  set (clusterOf := nodeClusterIds g).
  set (K := fold_left
              (fun clusters node =>
                 match clusterOf (nref node) with
                 | Some clusterId =>
                     ChunkedLoader.pushCluster clusterId (nref node) clusters
                 | None => clusters
                 end) (nodes g) []).
  assert (Hasc : ascending K)
    by (apply ClusterColours.table_shape; constructor).
  assert (Hmem : forall entry r, In entry K -> In r (snd entry) ->
                   In r (map nref (nodes g)) /\ clusterOf r = Some (fst entry)).
  { intros entry r He Hr.
    destruct (ClusterColours.table_members clusterOf (nodes g) [] entry r He Hr)
      as [H|[entry' [[] _]]]. exact H. }
  destruct (ClusterColours.paint_closed K g 0)
    as [restyle [i' [E [Hout Hin]]]].
  { intros entry He r Hr. apply isNode_iff. now apply (Hmem entry). }
  set (g1 := mkIGraph
               (map (fun n => mkINode (nref n) (ntag n)
                                (restyle (nref n) (nstyle n)) (nlabels n))
                  (nodes g))
               (edges g) (fresh g)) in *.
  assert (Hnd1 : NoDup (map nref (nodes g1)))
    by (simpl; now rewrite map_map).
  eexists. exists (map fst K). split.
  { unfold ChunkedLoader.applyClustering. fold g. fold clusterOf. fold K.
    rewrite E. simpl.
    rewrite (ChunkedFacts.pruneIsolated_closed g1 Hnd1). simpl.
    reflexivity. }
  split; [|split].
  - intros i j a b Hlt Hi Hj. rewrite nth_error_map in Hi, Hj.
    destruct (nth_error K i) as [ea|] eqn:Ei; [|discriminate].
    destruct (nth_error K j) as [eb|] eqn:Ej; [|discriminate].
    injection Hi as <-. injection Hj as <-.
    now apply (ClusterColours.ascending_nth K Hasc i j).
  - intros k. split.
    + intros Hk. apply in_map_iff in Hk. destruct Hk as [entry [<- He]].
      destruct (ClusterTable.table_keys clusterOf (nodes g) [] entry He)
        as [H|[entry' [[] _]]]. exact H.
    + intros [n [Hn Hc]].
      destruct (ClusterColours.table_holds clusterOf (nodes g) [] n k Hn Hc)
        as [entry [He [Hk _]]].
      rewrite <- Hk. now apply in_map.
  - simpl. intros n' Hn'. apply filter_In in Hn'. destruct Hn' as [Hn' _].
    apply in_map_iff in Hn'. destruct Hn' as [n [<- Hn]]. simpl.
    exists n. repeat split; try assumption.
    fold clusterOf. destruct (clusterOf (nref n)) as [cid|] eqn:C.
    + destruct (ClusterColours.table_holds clusterOf (nodes g) [] n cid Hn C)
        as [entry [He [Hk Hr]]].
      apply In_nth_error in He. destruct He as [j Hj].
      exists j. split; [rewrite <- Hk; exact (map_nth_error fst j K Hj)|].
      rewrite (Hin (nref n) (nstyle n) j entry Hj Hr); [reflexivity|].
      intros j' entry' Hlt Hj' Hr'.
      assert (He' : In entry' K) by (now apply nth_error_In in Hj').
      destruct (Hmem entry' (nref n) He' Hr') as [_ Hc'].
      pose proof (ClusterColours.ascending_nth K Hasc j j' entry entry' Hlt Hj Hj').
      rewrite C in Hc'. injection Hc' as Hc'. lia.
    + apply Hout. intros entry He Hr.
      destruct (Hmem entry (nref n) He Hr) as [_ Hc]. congruence.
Qed.

Lemma clustering_witness :
  exists st',
    ChunkedLoader.applyClustering
      (fun _ r => if r =? 0 then Some 7 else if r =? 1 then Some 3 else None)
      (ChunkedLoader.mkState
         (mkIGraph [mkINode 0 "A" DefaultNodeStyle [];
                    mkINode 1 "B" DefaultNodeStyle [];
                    mkINode 2 "C" DefaultNodeStyle []]
            [mkIEdge 3 0 1 (mkEdge "a" "b" None) [];
             mkIEdge 4 1 2 (mkEdge "b" "c" None) []] 5)
         [] [] (ChunkedLoader.mkProgress false 0 0))
    = Some st'
    /\ map nstyle (nodes (ChunkedLoader.graph st'))
       = [ShinyPlateNodeStyle "#6b5b95"; ShinyPlateNodeStyle "#ff6f61";
          DefaultNodeStyle].
Proof.
  destruct (clustering_paints_clusters_in_ascending_order
              (fun _ r => if r =? 0 then Some 7
                          else if r =? 1 then Some 3 else None)
              (ChunkedLoader.mkState
                 (mkIGraph [mkINode 0 "A" DefaultNodeStyle [];
                            mkINode 1 "B" DefaultNodeStyle [];
                            mkINode 2 "C" DefaultNodeStyle []]
                    [mkIEdge 3 0 1 (mkEdge "a" "b" None) [];
                     mkIEdge 4 1 2 (mkEdge "b" "c" None) []] 5)
                 [] [] (ChunkedLoader.mkProgress false 0 0)))
    as [st' [ids [E _]]].
  - apply distinctNats_NoDup. reflexivity.
  - exists st'. split; [exact E|].
    vm_compute in E. injection E as <-. reflexivity.
Defined.

(** X23.  On a builder that keeps the graph it is given,
    [loadAndProcessCSVFiles] only appends: the nodes and edges of the page
    before are all still there, unchanged, followed by one new node per
    distinct id and one new edge per edge row whose two ids are in the nodes
    file.  Loading the same files again therefore doubles them. *)
Theorem keeping_builder_load_appends :
  forall (st : BuilderLoader.State) (nodesData : list NodeData)
         (edgesData : list EdgeData),
    exists newNodes newEdges,
      nodes (BuilderLoader.graph
               (BuilderLoader.loadAndProcessCSVFiles false st nodesData
                  edgesData))
      = nodes (BuilderLoader.graph st) ++ newNodes
      /\ edges (BuilderLoader.graph
                  (BuilderLoader.loadAndProcessCSVFiles false st nodesData
                     edgesData))
         = edges (BuilderLoader.graph st) ++ newEdges
      /\ map ntag newNodes = map type (BuilderLoader.uniqueNodes nodesData)
      /\ map etag newEdges
         = filter (fun e => existsb (String.eqb (source e)) (map id nodesData)
                            && existsb (String.eqb (target e))
                                 (map id nodesData))
             edgesData
      /\ map ntag
           (nodes (BuilderLoader.graph
                     (BuilderLoader.loadAndProcessCSVFiles false
                        (BuilderLoader.loadAndProcessCSVFiles false st
                           nodesData edgesData)
                        nodesData edgesData)))
         = map ntag (nodes (BuilderLoader.graph st))
           ++ map type (BuilderLoader.uniqueNodes nodesData)
           ++ map type (BuilderLoader.uniqueNodes nodesData).
Proof.
  intros st nodesData edgesData.
  assert (Hload : forall s,
             BuilderLoader.graph
               (BuilderLoader.loadAndProcessCSVFiles false s nodesData edgesData)
             = mkIGraph
                 (nodes (BuilderLoader.graph s)
                  ++ builtNodes BuilderLoader.nodeCreated
                       (BuilderLoader.typeColors s)
                       (fresh (BuilderLoader.graph s))
                       (BuilderLoader.uniqueNodes nodesData))
                 (edges (BuilderLoader.graph s)
                  ++ builtEdges
                       (builtDict [] (fresh (BuilderLoader.graph s))
                          (BuilderLoader.uniqueNodes nodesData))
                       (fresh (BuilderLoader.graph s)
                        + List.length (BuilderLoader.uniqueNodes nodesData))
                       edgesData)
                 (fresh (BuilderLoader.graph s)
                  + List.length (BuilderLoader.uniqueNodes nodesData)
                  + List.length
                      (builtEdges
                         (builtDict [] (fresh (BuilderLoader.graph s))
                            (BuilderLoader.uniqueNodes nodesData))
                         (fresh (BuilderLoader.graph s)
                          + List.length (BuilderLoader.uniqueNodes nodesData))
                         edgesData))).
  { intros s. unfold BuilderLoader.loadAndProcessCSVFiles.
    now rewrite BuilderShape.buildGraph_closed. }
  eexists. eexists. rewrite !Hload. simpl.
  split; [reflexivity|]. split; [reflexivity|].
  split; [apply BuilderShape.builtNodes_tags|]. split.
  - rewrite BuilderShape.builtEdges_items. apply filter_ext. intros e.
    rewrite !BuilderContent.known_ids.
    rewrite BuilderContent.builder_unique_ids, !existsb_distinct. reflexivity.
  - rewrite !map_app, !BuilderShape.builtNodes_tags, <- app_assoc.
    reflexivity.
Qed.

Module NoEdgeRows.
Import ChunkedLoader.

(** Without edge rows no turn of the loop creates an edge. *)
Lemma loop_without_rows (clearsGraph : bool) (c : nat)
  (nodesData : list NodeData) (st0 : State) (k : nat) :
  edges (graph st0) = [] ->
  edges (graph (snd (fold_left (loadChunk clearsGraph c nodesData [])
                       (seq 0 k) ([], st0)))) = [].
Proof.
  intros H0. induction k as [|k IH]; [assumption|].
  pose proof (ChunkedShape.loop_turn_items clearsGraph c nodesData [] st0 k)
    as E.
  simpl filter in E. rewrite app_nil_r in E.
  destruct clearsGraph; [|rewrite IH in E]; simpl in E;
    now apply map_eq_nil in E.
Qed.

End NoEdgeRows.

(** X24.  A load without edge rows shows nothing.  When the page has no
    edge and the edge file has no row, [loadGraphInChunks] leaves a graph
    without any node or edge, however many node records there are, because
    every node is pruned as isolated; the legend still lists the types of
    all the deduplicated node records, those named like a member of
    [Object.prototype] excepted. *)
Theorem load_without_edge_rows_shows_nothing :
  forall (clearsGraph : bool)
         (nodeClusterIds : IGraph string EdgeData -> nat -> option nat)
         (c : nat) (st : ChunkedLoader.State) (nodesData : list NodeData),
    1 <= c ->
    NoDup (map nref (nodes (ChunkedLoader.graph st))) ->
    (forall n, In n (nodes (ChunkedLoader.graph st)) ->
               nref n < fresh (ChunkedLoader.graph st)) ->
    edges (ChunkedLoader.graph st) = [] ->
    exists s,
      ChunkedLoader.loadGraphInChunksWith clearsGraph nodeClusterIds c st
        nodesData [] = Some s
      /\ nodes (ChunkedLoader.graph s) = []
      /\ edges (ChunkedLoader.graph s) = []
      /\ exists legendRows,
           ChunkedLoader.body s
           = detach ChunkedLoader.legendId (ChunkedLoader.body st)
             ++ [mkElement ChunkedLoader.legendId legendRows]
           /\ forall t,
                In t (map fst legendRows) <->
                In t (map type (BuilderLoader.uniqueNodes nodesData))
                /\ inherited t = false.
Proof.
  intros clearsGraph nodeClusterIds c st nodesData Hc Hnd Hlt He0.
  destruct (ChunkedWhole.chunkLoop_distinct clearsGraph c st nodesData
              [] Hnd Hlt) as [Hnd1 _].
  destruct (ChunkedWhole.load_after_loop clearsGraph nodeClusterIds c st
              nodesData [] Hnd1)
    as [s [E [Hn [He [_ [Hb _]]]]]].
  assert (HeL : edges (ChunkedLoader.graph
                         (snd (ChunkedLoader.chunkLoop clearsGraph c st
                                 nodesData []))) = [])
    by (unfold ChunkedLoader.chunkLoop;
        now apply NoEdgeRows.loop_without_rows).
  exists s. split; [exact E|]. split; [|split].
  - apply map_eq_nil with (f := nref). rewrite Hn.
    unfold degree. rewrite HeL. simpl.
    assert (F : forall l : list nat, filter (fun _ => false) l = [])
      by (induction l; simpl; auto).
    apply F.
  - now rewrite He.
  - eexists. split.
    + rewrite Hb. unfold ChunkedLoader.createLegend, appendChild. reflexivity.
    + intros t. rewrite ChunkLoopFacts.chunkLoop_map by assumption.
      rewrite ColourFacts.getTypeColorMap_closed.
      fold (BuilderLoader.uniqueNodes nodesData).
      set (ks := distinct
                   (filter ordinary
                      (map type (BuilderLoader.uniqueNodes nodesData)))).
      assert (K : In t ks <->
                  In t (map type (BuilderLoader.uniqueNodes nodesData))
                  /\ inherited t = false).
      { unfold ks. rewrite In_distinct, filter_In. unfold ordinary.
        now rewrite negb_true_iff. }
      rewrite <- K. rewrite <- (ColourFacts.keys_paint colors 0 ks) at 2.
      unfold JsMap.keys. rewrite !in_map_iff.
      split; intros [e [Ee Hin]]; exists e; (split; [assumption|]);
        now apply JsObjectFacts.entries_In.
Qed.

Lemma load_without_edge_rows_witness :
  exists s,
    ChunkedLoader.loadGraphInChunksWith true (fun _ _ => None) 2
      ChunkedLoader.initial
      [mkNode "a" "X" None; mkNode "p" "constructor" None;
       mkNode "b" "Y" None; mkNode "c" "X" None] []
    = Some s
    /\ nodes (ChunkedLoader.graph s) = []
    /\ ChunkedLoader.body s
       = [mkElement "node-type-legend" [("X", "#ff6f61"); ("Y", "#6b5b95")]].
Proof.
  destruct (load_without_edge_rows_shows_nothing true (fun _ _ => None) 2
              ChunkedLoader.initial
              [mkNode "a" "X" None; mkNode "p" "constructor" None;
               mkNode "b" "Y" None; mkNode "c" "X" None])
    as [s [E [N _]]].
  - lia.
  - constructor.
  - intros n [].
  - reflexivity.
  - exists s. split; [exact E|]. split; [exact N|].
    vm_compute in E. injection E as <-. reflexivity.
Defined.
